(** * AudioMind: content store, ingestion pipeline, AI gateway and audio serving

    A shallow embedding of the server side of the AudioMind repository:

    - [server/storage.ts]   the in-memory content store [MemStorage];
    - [server/services/openai.ts]   the AI gateway ([generateSummary]);
    - [server/routes.ts]   the HTTP handlers and the background job
      [processAudioFile].

    JavaScript strings are embedded as Rocq strings, a character standing
    for a code unit below 256; numbers that the program only uses as
    integers as [Z]; [null] and [undefined] as [None]; a [Map] as an
    association list in insertion order; a [Date] as its time in
    milliseconds, with [new Date()] supplied by the caller; [randomUUID()]
    as an identifier supplied by the caller; a call of the provider as
    what it comes to, supplied by the caller. *)

From Stdlib Require Import ZArith List String Ascii Bool Lia.
From Stdlib Require Import Sorting.Sorted Sorting.Permutation.
From Stdlib Require Import Numbers.DecimalString Numbers.DecimalPos.
Import ListNotations.

Local Open Scope string_scope.
Local Open Scope Z_scope.

Set Warnings "-register-all".

(* ================================================================== *)
(** * The JavaScript library functions the program calls               *)
(* ================================================================== *)

Module JS.

(** ** Strings *)

(** [String.prototype.toLowerCase], on the model's alphabet, the code
    units below 256: the letters [A] to [Z] (65 to 90) and the accented
    capitals from 192 to 222, but for the multiplication sign 215, are
    moved up by 32 to their small letters; every other character is
    kept. *)
Definition toLowerCase_char (c : ascii) : ascii :=
  let n := nat_of_ascii c in
  if ((Nat.leb 65 n && Nat.leb n 90) ||
      (Nat.leb 192 n && Nat.leb n 222 && negb (Nat.eqb n 215)))%bool
  then ascii_of_nat (n + 32) else c.

Fixpoint toLowerCase (s : string) : string :=
  match s with
  | EmptyString => EmptyString
  | String c s' => String (toLowerCase_char c) (toLowerCase s')
  end.

(** [s.startsWith(q)] *)
Fixpoint startsWith (s q : string) {struct q} : bool :=
  match q, s with
  | EmptyString, _ => true
  | String _ _, EmptyString => false
  | String b q', String a s' => (Ascii.eqb a b && startsWith s' q')%bool
  end.

(** [s.includes(q)]: [q] occurs in [s] at some position. *)
Fixpoint includes (s q : string) : bool :=
  (startsWith s q ||
   match s with
   | EmptyString => false
   | String _ s' => includes s' q
   end)%bool.

Fixpoint drop (n : nat) (s : string) : string :=
  match n, s with
  | O, _ => s
  | S _, EmptyString => EmptyString
  | S n', String _ s' => drop n' s'
  end.

(** [s.replace(/pat/, by)] for a pattern that is a literal, non-empty
    text: the first occurrence of [pat] is replaced, the rest is kept. *)
Fixpoint replace (pat by_ s : string) : string :=
  if startsWith s pat then by_ ++ drop (String.length pat) s
  else match s with
       | EmptyString => EmptyString
       | String c s' => String c (replace pat by_ s')
       end.

(** [s.split(sep)] for a one-character separator: never empty, the
    pieces between the separators, empty pieces included. *)
Fixpoint split (sep : ascii) (s : string) : list string :=
  match s with
  | EmptyString => [EmptyString]
  | String c s' =>
      if Ascii.eqb c sep then EmptyString :: split sep s'
      else match split sep s' with
           | p :: ps => String c p :: ps
           | [] => [String c EmptyString]
           end
  end.

(** Truthiness of a string: every string but the empty one. *)
Definition truthy_string (s : string) : bool :=
  match s with EmptyString => false | String _ _ => true end.

(** ** Numbers *)

(** White space skipped by [parseInt]: TAB, LF, VT, FF, CR, SP, NBSP. *)
Definition isWhiteSpace (c : ascii) : bool :=
  let n := nat_of_ascii c in
  ((Nat.leb 9 n && Nat.leb n 13) || Nat.eqb n 32 || Nat.eqb n 160)%bool.

Fixpoint trimStart (s : string) : string :=
  match s with
  | EmptyString => EmptyString
  | String c s' => if isWhiteSpace c then trimStart s' else s
  end.

Definition digit (c : ascii) : option Z :=
  let n := nat_of_ascii c in
  if (Nat.leb 48 n && Nat.leb n 57)%bool then Some (Z.of_nat (n - 48)) else None.

(** The value of the longest prefix of decimal digits, continuing [acc]. *)
Fixpoint digits (acc : Z) (s : string) : Z :=
  match s with
  | EmptyString => acc
  | String c s' =>
      match digit c with
      | Some d => digits (10 * acc + d) s'
      | None => acc
      end
  end.

(** [parseInt(s, 10)]: leading white space and one sign are skipped, the
    longest run of digits is read, whatever follows is ignored; [None]
    is [NaN] (no digit where one is expected).  The result is the exact
    integer: JavaScript rounds it to a double, which changes no value
    below [2^53] and leaves a larger one at or above [2^53]. *)
Definition parseInt (s : string) : option Z :=
  let s1 := trimStart s in
  let '(sign, s2) :=
    match s1 with
    | String "-" r => (-1, r)
    | String "+" r => (1, r)
    | _ => (1, s1)
    end in
  match s2 with
  | EmptyString => None
  | String c _ =>
      match digit c with
      | Some _ => Some (sign * digits 0 s2)
      | None => None
      end
  end.

Definition MAX_SAFE_INTEGER : Z := 2 ^ 53 - 1.

(** [`${n}`] for an integer [n]. *)
Definition toString (n : Z) : string :=
  NilZero.string_of_int (Z.to_int n).

(** ** Arrays *)

Section Sort.
Context {A : Type}.
Variable compareFn : A -> A -> Z.

(** [x] came before every element of [l] in the array: it stays in
    front of the first element it does not have to follow. *)
Fixpoint insert (x : A) (l : list A) : list A :=
  match l with
  | [] => [x]
  | y :: l' => if compareFn x y <=? 0 then x :: y :: l' else y :: insert x l'
  end.

(** [arr.sort(compareFn)]: elements in the order of [compareFn]
    (a negative result puts the first argument first), elements that
    compare equal in their original order; the sort of ECMAScript is
    stable. *)
Fixpoint sort (l : list A) : list A :=
  match l with
  | [] => []
  | x :: l' => insert x (sort l')
  end.
End Sort.

(** ** Map *)

(** A [Map<string, V>]: the entries in insertion order. *)
Module Map.
Section Ops.
Context {V : Type}.

Definition t := list (string * V).

Definition empty : t := [].

Fixpoint get (k : string) (m : t) : option V :=
  match m with
  | [] => None
  | (k', v) :: m' => if String.eqb k' k then Some v else get k m'
  end.

Definition has (k : string) (m : t) : bool :=
  match get k m with Some _ => true | None => false end.

(** [m.set(k, v)]: the value of an existing key is replaced where the
    key stands; a new key goes to the end. *)
Fixpoint set (k : string) (v : V) (m : t) : t :=
  match m with
  | [] => [(k, v)]
  | (k', v') :: m' =>
      if String.eqb k' k then (k, v) :: m' else (k', v') :: set k v m'
  end.

Fixpoint remove (k : string) (m : t) : t :=
  match m with
  | [] => []
  | (k', v') :: m' =>
      if String.eqb k' k then remove k m' else (k', v') :: remove k m'
  end.

(** [m.delete(k)]: the map without [k], and whether [k] was there. *)
Definition delete (k : string) (m : t) : bool * t :=
  (has k m, remove k m).

Definition entries (m : t) : list (string * V) := m.

Definition values (m : t) : list V := map snd m.

Definition keys (m : t) : list string := map fst m.
End Ops.
Arguments t : clear implicits.
End Map.

End JS.

(* ================================================================== *)
(** * shared/schema.ts: the record kinds                               *)
(* ================================================================== *)

Module Schema.

(** [User] *)
Record User := mkUser {
  user_id : string;
  username : string;
  password : string
}.

Record InsertUser := mkInsertUser {
  iu_username : string;
  iu_password : string
}.

(** [AudioContent]: the columns of [audio_content]; a column that is not
    [notNull] holds [null] (here [None]) or a value. *)
Record AudioContent := mkAudioContent {
  id : string;
  userId : string;
  title : string;
  source : option string;
  fileName : string;
  filePath : string;
  duration : option Z;
  fileSize : option Z;
  mimeType : option string;
  transcriptionStatus : option string;
  transcriptionText : option string;
  aiSummary : option string;
  keywords : option (list string);
  progress : option Z;
  createdAt : option Z;
  lastAccessedAt : option Z
}.

(** [InsertAudioContent & { userId: string }] *)
Record InsertAudioContent := mkInsertAudioContent {
  ia_userId : string;
  ia_title : string;
  ia_source : option string;
  ia_fileName : string;
  ia_filePath : string;
  ia_duration : option Z;
  ia_fileSize : option Z;
  ia_mimeType : option string
}.

(** One property of a [Partial<AudioContent>] object literal. *)
Inductive AudioContentProperty :=
| Set_id (v : string)
| Set_userId (v : string)
| Set_title (v : string)
| Set_source (v : option string)
| Set_fileName (v : string)
| Set_filePath (v : string)
| Set_duration (v : option Z)
| Set_fileSize (v : option Z)
| Set_mimeType (v : option string)
| Set_transcriptionStatus (v : option string)
| Set_transcriptionText (v : option string)
| Set_aiSummary (v : option string)
| Set_keywords (v : option (list string))
| Set_progress (v : option Z)
| Set_createdAt (v : option Z)
| Set_lastAccessedAt (v : option Z).

(** [Partial<AudioContent>]: the properties an update object has, in
    the order they are written. *)
Definition PartialAudioContent := list AudioContentProperty.

(** The names of the properties of an [AudioContent]. *)
Inductive AudioContentKey :=
| K_id | K_userId | K_title | K_source | K_fileName | K_filePath
| K_duration | K_fileSize | K_mimeType | K_transcriptionStatus
| K_transcriptionText | K_aiSummary | K_keywords | K_progress
| K_createdAt | K_lastAccessedAt.

(** The values a property of an [AudioContent] can hold. *)
Inductive PropertyValue :=
| V_string (v : string)
| V_text (v : option string)
| V_integer (v : option Z)
| V_strings (v : option (list string)).

Definition key_of (p : AudioContentProperty) : AudioContentKey :=
  match p with
  | Set_id _ => K_id
  | Set_userId _ => K_userId
  | Set_title _ => K_title
  | Set_source _ => K_source
  | Set_fileName _ => K_fileName
  | Set_filePath _ => K_filePath
  | Set_duration _ => K_duration
  | Set_fileSize _ => K_fileSize
  | Set_mimeType _ => K_mimeType
  | Set_transcriptionStatus _ => K_transcriptionStatus
  | Set_transcriptionText _ => K_transcriptionText
  | Set_aiSummary _ => K_aiSummary
  | Set_keywords _ => K_keywords
  | Set_progress _ => K_progress
  | Set_createdAt _ => K_createdAt
  | Set_lastAccessedAt _ => K_lastAccessedAt
  end.

Definition value_of (p : AudioContentProperty) : PropertyValue :=
  match p with
  | Set_id v | Set_userId v | Set_title v | Set_fileName v | Set_filePath v =>
      V_string v
  | Set_source v | Set_mimeType v | Set_transcriptionStatus v
  | Set_transcriptionText v | Set_aiSummary v =>
      V_text v
  | Set_duration v | Set_fileSize v | Set_progress v | Set_createdAt v
  | Set_lastAccessedAt v =>
      V_integer v
  | Set_keywords v => V_strings v
  end.

(** [content[k]] *)
Definition property (k : AudioContentKey) (c : AudioContent) : PropertyValue :=
  match k with
  | K_id => V_string (id c)
  | K_userId => V_string (userId c)
  | K_title => V_string (title c)
  | K_source => V_text (source c)
  | K_fileName => V_string (fileName c)
  | K_filePath => V_string (filePath c)
  | K_duration => V_integer (duration c)
  | K_fileSize => V_integer (fileSize c)
  | K_mimeType => V_text (mimeType c)
  | K_transcriptionStatus => V_text (transcriptionStatus c)
  | K_transcriptionText => V_text (transcriptionText c)
  | K_aiSummary => V_text (aiSummary c)
  | K_keywords => V_strings (keywords c)
  | K_progress => V_integer (progress c)
  | K_createdAt => V_integer (createdAt c)
  | K_lastAccessedAt => V_integer (lastAccessedAt c)
  end.

(** [{ ...c, k: v }] for one property. *)
Definition assign (c : AudioContent) (p : AudioContentProperty) : AudioContent :=
  let '(mkAudioContent i u t s fn fp d fs m ts tx ai kw pr ca la) := c in
  match p with
  | Set_id v => mkAudioContent v u t s fn fp d fs m ts tx ai kw pr ca la
  | Set_userId v => mkAudioContent i v t s fn fp d fs m ts tx ai kw pr ca la
  | Set_title v => mkAudioContent i u v s fn fp d fs m ts tx ai kw pr ca la
  | Set_source v => mkAudioContent i u t v fn fp d fs m ts tx ai kw pr ca la
  | Set_fileName v => mkAudioContent i u t s v fp d fs m ts tx ai kw pr ca la
  | Set_filePath v => mkAudioContent i u t s fn v d fs m ts tx ai kw pr ca la
  | Set_duration v => mkAudioContent i u t s fn fp v fs m ts tx ai kw pr ca la
  | Set_fileSize v => mkAudioContent i u t s fn fp d v m ts tx ai kw pr ca la
  | Set_mimeType v => mkAudioContent i u t s fn fp d fs v ts tx ai kw pr ca la
  | Set_transcriptionStatus v => mkAudioContent i u t s fn fp d fs m v tx ai kw pr ca la
  | Set_transcriptionText v => mkAudioContent i u t s fn fp d fs m ts v ai kw pr ca la
  | Set_aiSummary v => mkAudioContent i u t s fn fp d fs m ts tx v kw pr ca la
  | Set_keywords v => mkAudioContent i u t s fn fp d fs m ts tx ai v pr ca la
  | Set_progress v => mkAudioContent i u t s fn fp d fs m ts tx ai kw v ca la
  | Set_createdAt v => mkAudioContent i u t s fn fp d fs m ts tx ai kw pr v la
  | Set_lastAccessedAt v => mkAudioContent i u t s fn fp d fs m ts tx ai kw pr ca v
  end.

(** [{ ...content, ...updates }]: the properties of [updates] are
    written over those of [content], one after the other. *)
Definition spread (content : AudioContent) (updates : PartialAudioContent)
  : AudioContent :=
  fold_left assign updates content.

(** [Highlight] *)
Record Highlight := mkHighlight {
  hl_id : string;
  hl_audioContentId : string;
  hl_userId : string;
  hl_text : string;
  hl_startTime : Z;
  hl_endTime : Z;
  hl_color : option string;
  hl_note : option string;
  hl_createdAt : option Z
}.

(** One property of a [Partial<Highlight>] object literal. *)
Inductive HighlightProperty :=
| Set_hl_id (v : string)
| Set_hl_audioContentId (v : string)
| Set_hl_userId (v : string)
| Set_hl_text (v : string)
| Set_hl_startTime (v : Z)
| Set_hl_endTime (v : Z)
| Set_hl_color (v : option string)
| Set_hl_note (v : option string)
| Set_hl_createdAt (v : option Z).

Definition PartialHighlight := list HighlightProperty.

Definition hl_assign (h : Highlight) (p : HighlightProperty) : Highlight :=
  let '(mkHighlight i a u t s e c n ca) := h in
  match p with
  | Set_hl_id v => mkHighlight v a u t s e c n ca
  | Set_hl_audioContentId v => mkHighlight i v u t s e c n ca
  | Set_hl_userId v => mkHighlight i a v t s e c n ca
  | Set_hl_text v => mkHighlight i a u v s e c n ca
  | Set_hl_startTime v => mkHighlight i a u t v e c n ca
  | Set_hl_endTime v => mkHighlight i a u t s v c n ca
  | Set_hl_color v => mkHighlight i a u t s e v n ca
  | Set_hl_note v => mkHighlight i a u t s e c v ca
  | Set_hl_createdAt v => mkHighlight i a u t s e c n v
  end.

(** [{ ...highlight, ...updates }] *)
Definition hl_spread (highlight : Highlight) (updates : PartialHighlight)
  : Highlight :=
  fold_left hl_assign updates highlight.

(** [InsertHighlight & { userId: string }] *)
Record InsertHighlight := mkInsertHighlight {
  ih_audioContentId : string;
  ih_userId : string;
  ih_text : string;
  ih_startTime : Z;
  ih_endTime : Z;
  ih_color : option string;
  ih_note : option string
}.

(** [TranscriptSegment] *)
Record TranscriptSegment := mkTranscriptSegment {
  seg_id : string;
  seg_audioContentId : string;
  seg_startTime : Z;
  seg_endTime : Z;
  seg_text : string;
  seg_confidence : option Z;
  seg_sequenceNumber : Z
}.

Record InsertTranscriptSegment := mkInsertTranscriptSegment {
  is_audioContentId : string;
  is_startTime : Z;
  is_endTime : Z;
  is_text : string;
  is_confidence : option Z;
  is_sequenceNumber : Z
}.

End Schema.

(* ================================================================== *)
(** * server/storage.ts: the content store                             *)
(* ================================================================== *)

Module Storage.
Import Schema.

(** The four private maps of [MemStorage]. *)
Record MemStorage := mkMemStorage {
  users : JS.Map.t User;
  audioContent : JS.Map.t AudioContent;
  highlights : JS.Map.t Highlight;
  transcriptSegments : JS.Map.t TranscriptSegment
}.

(** [new MemStorage()] *)
Definition empty : MemStorage :=
  mkMemStorage JS.Map.empty JS.Map.empty JS.Map.empty JS.Map.empty.

Definition with_audioContent (st : MemStorage) (m : JS.Map.t AudioContent) :=
  mkMemStorage (users st) m (highlights st) (transcriptSegments st).

Definition with_highlights (st : MemStorage) (m : JS.Map.t Highlight) :=
  mkMemStorage (users st) (audioContent st) m (transcriptSegments st).

Definition with_transcriptSegments (st : MemStorage) (m : JS.Map.t TranscriptSegment) :=
  mkMemStorage (users st) (audioContent st) (highlights st) m.

(** [x || 0] for a timestamp: a [Date] is truthy, [null] is not, and
    [new Date(0).getTime()] is [0]. *)
Definition getTime (d : option Z) : Z :=
  match d with Some t => t | None => 0 end.

(** ** Users *)

Definition getUser (i : string) (st : MemStorage) : option User :=
  JS.Map.get i (users st).

Definition getUserByUsername (name : string) (st : MemStorage) : option User :=
  find (fun user => String.eqb (username user) name) (JS.Map.values (users st)).

Definition createUser (uuid : string) (insertUser : InsertUser) (st : MemStorage)
  : User * MemStorage :=
  let user := mkUser uuid (iu_username insertUser) (iu_password insertUser) in
  (user, mkMemStorage (JS.Map.set uuid user (users st)) (audioContent st)
                      (highlights st) (transcriptSegments st)).

(** ** Audio content *)

Definition getAudioContent (i : string) (st : MemStorage) : option AudioContent :=
  JS.Map.get i (audioContent st).

Definition getAudioContentByUser (user : string) (st : MemStorage)
  : list AudioContent :=
  JS.sort
    (fun a b => getTime (lastAccessedAt b) - getTime (lastAccessedAt a))
    (filter (fun content => String.eqb (userId content) user)
            (JS.Map.values (audioContent st))).

(** [uuid] is the result of [randomUUID()], [now] and [now'] those of the
    two [new Date()]. *)
Definition createAudioContent (uuid : string) (now now' : Z)
    (a : InsertAudioContent) (st : MemStorage) : AudioContent * MemStorage :=
  let content :=
    {| id := uuid;
       userId := ia_userId a;
       title := ia_title a;
       source := ia_source a;
       fileName := ia_fileName a;
       filePath := ia_filePath a;
       duration := ia_duration a;
       fileSize := ia_fileSize a;
       mimeType := ia_mimeType a;
       transcriptionStatus := Some "pending";
       transcriptionText := None;
       aiSummary := None;
       keywords := Some [];
       progress := Some 0;
       createdAt := Some now;
       lastAccessedAt := Some now' |} in
  (content, with_audioContent st (JS.Map.set uuid content (audioContent st))).

Definition updateAudioContent (i : string) (updates : PartialAudioContent)
    (st : MemStorage) : option AudioContent * MemStorage :=
  match JS.Map.get i (audioContent st) with
  | None => (None, st)
  | Some content =>
      let updatedContent := spread content updates in
      (Some updatedContent,
       with_audioContent st (JS.Map.set i updatedContent (audioContent st)))
  end.

Definition deleteAudioContent (i : string) (st : MemStorage) : bool * MemStorage :=
  let '(r, m) := JS.Map.delete i (audioContent st) in
  (r, with_audioContent st m).

(** [x?.toLowerCase().includes(q)] in a condition: [undefined] is false. *)
Definition includes_opt (x : option string) (q : string) : bool :=
  match x with
  | Some s => JS.includes (JS.toLowerCase s) q
  | None => false
  end.

Definition searchAudioContent (user query : string) (st : MemStorage)
  : list AudioContent :=
  let lowerQuery := JS.toLowerCase query in
  filter
    (fun content =>
       String.eqb (userId content) user &&
       (JS.includes (JS.toLowerCase (title content)) lowerQuery ||
        includes_opt (source content) lowerQuery ||
        includes_opt (transcriptionText content) lowerQuery ||
        includes_opt (aiSummary content) lowerQuery))%bool
    (JS.Map.values (audioContent st)).

(** ** Highlights *)

Definition getHighlight (i : string) (st : MemStorage) : option Highlight :=
  JS.Map.get i (highlights st).

Definition getHighlightsByAudioContent (audioContentId : string) (st : MemStorage)
  : list Highlight :=
  JS.sort
    (fun a b => hl_startTime a - hl_startTime b)
    (filter (fun highlight => String.eqb (hl_audioContentId highlight) audioContentId)
            (JS.Map.values (highlights st))).

Definition getHighlightsByUser (user : string) (st : MemStorage) : list Highlight :=
  JS.sort
    (fun a b => getTime (hl_createdAt b) - getTime (hl_createdAt a))
    (filter (fun highlight => String.eqb (hl_userId highlight) user)
            (JS.Map.values (highlights st))).

(** [x || d] for an optional string: [null], [undefined] and the empty
    string give [d]. *)
Definition or_else (x : option string) (d : option string) : option string :=
  match x with
  | Some s => if JS.truthy_string s then Some s else d
  | None => d
  end.

Definition createHighlight (uuid : string) (now : Z) (h : InsertHighlight)
    (st : MemStorage) : Highlight * MemStorage :=
  let newHighlight :=
    {| hl_id := uuid;
       hl_audioContentId := ih_audioContentId h;
       hl_userId := ih_userId h;
       hl_text := ih_text h;
       hl_startTime := ih_startTime h;
       hl_endTime := ih_endTime h;
       hl_color := or_else (ih_color h) (Some "yellow");
       hl_note := or_else (ih_note h) None;
       hl_createdAt := Some now |} in
  (newHighlight, with_highlights st (JS.Map.set uuid newHighlight (highlights st))).

Definition updateHighlight (i : string) (updates : PartialHighlight)
    (st : MemStorage) : option Highlight * MemStorage :=
  match JS.Map.get i (highlights st) with
  | None => (None, st)
  | Some highlight =>
      let updatedHighlight := hl_spread highlight updates in
      (Some updatedHighlight,
       with_highlights st (JS.Map.set i updatedHighlight (highlights st)))
  end.

Definition deleteHighlight (i : string) (st : MemStorage) : bool * MemStorage :=
  let '(r, m) := JS.Map.delete i (highlights st) in
  (r, with_highlights st m).

(** ** Transcript segments *)

Definition getTranscriptSegments (audioContentId : string) (st : MemStorage)
  : list TranscriptSegment :=
  JS.sort
    (fun a b => seg_sequenceNumber a - seg_sequenceNumber b)
    (filter (fun segment => String.eqb (seg_audioContentId segment) audioContentId)
            (JS.Map.values (transcriptSegments st))).

Definition createTranscriptSegment (uuid : string) (s : InsertTranscriptSegment)
    (st : MemStorage) : TranscriptSegment * MemStorage :=
  let newSegment :=
    {| seg_id := uuid;
       seg_audioContentId := is_audioContentId s;
       seg_startTime := is_startTime s;
       seg_endTime := is_endTime s;
       seg_text := is_text s;
       seg_confidence :=
         match is_confidence s with
         | Some n => if n =? 0 then None else Some n
         | None => None
         end;
       seg_sequenceNumber := is_sequenceNumber s |} in
  (newSegment,
   with_transcriptSegments st (JS.Map.set uuid newSegment (transcriptSegments st))).

(** The entries of the audio item are collected, each one is deleted by
    its key, and [true] is returned. *)
Definition deleteTranscriptSegments (audioContentId : string) (st : MemStorage)
  : bool * MemStorage :=
  let segments :=
    filter (fun '(_, segment) => String.eqb (seg_audioContentId segment) audioContentId)
           (JS.Map.entries (transcriptSegments st)) in
  (true,
   with_transcriptSegments st
     (fold_left (fun m '(i, _) => snd (JS.Map.delete i m)) segments
                (transcriptSegments st))).

End Storage.

(* ================================================================== *)
(** * JSON.parse                                                       *)
(* ================================================================== *)

Module JSON.

(** The characters of a string value: UTF-16 code units, since an escape
    [\uXXXX] names any of them. *)
Definition text := list N.

Definition codeUnits (s : string) : text :=
  map N_of_ascii (list_ascii_of_string s).

(** A number literal, kept exactly: [± mantissa * 10 ^ exponent]. *)
Record number := mkNumber {
  negative : bool;
  mantissa : Z;
  exponent : Z
}.

Inductive value :=
| Null
| Bool (b : bool)
| Number (n : number)
| Str (s : text)
| Array (elements : list value)
| Object (members : list (text * value)).

(** ** Tokens *)

Inductive token :=
| TNull | TTrue | TFalse
| TNumber (n : number)
| TString (s : text)
| TLBracket | TRBracket | TLBrace | TRBrace | TComma | TColon.

(** Where the scanner stands inside a number literal: an optional
    minus sign; [0], or a digit from [1] to [9] and more digits; an
    optional fraction, a dot and digits; an optional exponent, [e] or
    [E], an optional sign and digits. *)
Inductive num_state :=
| NMinus | NZero | NInt | NDot | NFrac | NExp | NExpSign | NExpDigits.

Record num_acc := mkNumAcc {
  acc_negative : bool;
  acc_mantissa : Z;
  acc_scale : Z;
  acc_exp_negative : bool;
  acc_exp : Z
}.

Definition number_of (a : num_acc) : number :=
  mkNumber (acc_negative a) (acc_mantissa a)
           ((if acc_exp_negative a then - acc_exp a else acc_exp a) - acc_scale a).

Definition accepting (s : num_state) : bool :=
  match s with
  | NZero | NInt | NFrac | NExpDigits => true
  | NMinus | NDot | NExp | NExpSign => false
  end.

(** The double quote, which opens and closes a string. *)
Definition dquote : ascii := ascii_of_nat 34.

Definition is_e (c : ascii) : bool :=
  (Ascii.eqb c "e" || Ascii.eqb c "E")%bool.

Definition push_digit (a : num_acc) (d : Z) : num_acc :=
  mkNumAcc (acc_negative a) (10 * acc_mantissa a + d) (acc_scale a)
           (acc_exp_negative a) (acc_exp a).

Definition push_frac (a : num_acc) (d : Z) : num_acc :=
  mkNumAcc (acc_negative a) (10 * acc_mantissa a + d) (acc_scale a + 1)
           (acc_exp_negative a) (acc_exp a).

Definition push_exp (a : num_acc) (d : Z) : num_acc :=
  mkNumAcc (acc_negative a) (acc_mantissa a) (acc_scale a)
           (acc_exp_negative a) (10 * acc_exp a + d).

Definition exp_minus (a : num_acc) : num_acc :=
  mkNumAcc (acc_negative a) (acc_mantissa a) (acc_scale a) true (acc_exp a).

(** The number literal goes on with [c], or [c] is not part of it. *)
Definition num_step (s : num_state) (a : num_acc) (c : ascii)
  : option (num_state * num_acc) :=
  match s, JS.digit c with
  | NMinus, Some d => Some (if d =? 0 then NZero else NInt, push_digit a d)
  | NMinus, None => None
  | NZero, Some _ => None
  | NZero, None =>
      if Ascii.eqb c "." then Some (NDot, a)
      else if is_e c then Some (NExp, a) else None
  | NInt, Some d => Some (NInt, push_digit a d)
  | NInt, None =>
      if Ascii.eqb c "." then Some (NDot, a)
      else if is_e c then Some (NExp, a) else None
  | NDot, Some d => Some (NFrac, push_frac a d)
  | NDot, None => None
  | NFrac, Some d => Some (NFrac, push_frac a d)
  | NFrac, None => if is_e c then Some (NExp, a) else None
  | NExp, Some d => Some (NExpDigits, push_exp a d)
  | NExp, None =>
      if Ascii.eqb c "+" then Some (NExpSign, a)
      else if Ascii.eqb c "-" then Some (NExpSign, exp_minus a) else None
  | NExpSign, Some d => Some (NExpDigits, push_exp a d)
  | NExpSign, None => None
  | NExpDigits, Some d => Some (NExpDigits, push_exp a d)
  | NExpDigits, None => None
  end.

Inductive lex_state :=
| LStart
| LLiteral (rest : string) (t : token)
| LNumber (s : num_state) (a : num_acc)
| LString (acc : text)
| LEscape (acc : text)
| LUnicode (acc : text) (v : N) (k : nat).

Definition hex (c : ascii) : option N :=
  let n := N_of_ascii c in
  if ((48 <=? n) && (n <=? 57))%bool%N then Some (n - 48)%N
  else if ((65 <=? n) && (n <=? 70))%bool%N then Some (n - 55)%N
  else if ((97 <=? n) && (n <=? 102))%bool%N then Some (n - 87)%N
  else None.

(** The scanner between two tokens. *)
Definition lex_start (c : ascii) : option (list token * lex_state) :=
  let n := nat_of_ascii c in
  if (Nat.eqb n 9 || Nat.eqb n 10 || Nat.eqb n 13 || Nat.eqb n 32)%bool
  then Some ([], LStart)
  else if Ascii.eqb c dquote then Some ([], LString [])
  else if Ascii.eqb c "[" then Some ([TLBracket], LStart)
  else if Ascii.eqb c "]" then Some ([TRBracket], LStart)
  else if Ascii.eqb c "{" then Some ([TLBrace], LStart)
  else if Ascii.eqb c "}" then Some ([TRBrace], LStart)
  else if Ascii.eqb c "," then Some ([TComma], LStart)
  else if Ascii.eqb c ":" then Some ([TColon], LStart)
  else if Ascii.eqb c "t" then Some ([], LLiteral "rue" TTrue)
  else if Ascii.eqb c "f" then Some ([], LLiteral "alse" TFalse)
  else if Ascii.eqb c "n" then Some ([], LLiteral "ull" TNull)
  else if Ascii.eqb c "-" then
    Some ([], LNumber NMinus (mkNumAcc true 0 0 false 0))
  else match JS.digit c with
       | Some d =>
           Some ([], LNumber (if d =? 0 then NZero else NInt)
                             (mkNumAcc false d 0 false 0))
       | None => None
       end.

Definition lex_step (st : lex_state) (c : ascii)
  : option (list token * lex_state) :=
  match st with
  | LStart => lex_start c
  | LLiteral rest t =>
      match rest with
      | String e EmptyString =>
          if Ascii.eqb c e then Some ([t], LStart) else None
      | String e rest' =>
          if Ascii.eqb c e then Some ([], LLiteral rest' t) else None
      | EmptyString => None
      end
  | LNumber s a =>
      match num_step s a c with
      | Some (s', a') => Some ([], LNumber s' a')
      | None =>
          if accepting s then
            match lex_start c with
            | Some (ts, st') => Some (TNumber (number_of a) :: ts, st')
            | None => None
            end
          else None
      end
  | LString acc =>
      if Ascii.eqb c dquote then Some ([TString (rev acc)], LStart)
      else if Ascii.eqb c "\" then Some ([], LEscape acc)
      else if (N_of_ascii c <? 32)%N then None
      else Some ([], LString (N_of_ascii c :: acc))
  | LEscape acc =>
      if Ascii.eqb c dquote then Some ([], LString (34%N :: acc))
      else if Ascii.eqb c "\" then Some ([], LString (92%N :: acc))
      else if Ascii.eqb c "/" then Some ([], LString (47%N :: acc))
      else if Ascii.eqb c "b" then Some ([], LString (8%N :: acc))
      else if Ascii.eqb c "f" then Some ([], LString (12%N :: acc))
      else if Ascii.eqb c "n" then Some ([], LString (10%N :: acc))
      else if Ascii.eqb c "r" then Some ([], LString (13%N :: acc))
      else if Ascii.eqb c "t" then Some ([], LString (9%N :: acc))
      else if Ascii.eqb c "u" then Some ([], LUnicode acc 0%N 0%nat)
      else None
  | LUnicode acc v k =>
      match hex c with
      | Some h =>
          let v' := (16 * v + h)%N in
          if Nat.eqb k 3 then Some ([], LString (v' :: acc))
          else Some ([], LUnicode acc v' (S k))
      | None => None
      end
  end.

(** The scanner at the end of the text. *)
Definition lex_end (st : lex_state) : option (list token) :=
  match st with
  | LStart => Some []
  | LNumber s a => if accepting s then Some [TNumber (number_of a)] else None
  | LLiteral _ _ | LString _ | LEscape _ | LUnicode _ _ _ => None
  end.

Fixpoint lex (st : lex_state) (s : string) : option (list token) :=
  match s with
  | EmptyString => lex_end st
  | String c s' =>
      match lex_step st c with
      | Some (ts, st') =>
          match lex st' s' with
          | Some ts' => Some (ts ++ ts')%list
          | None => None
          end
      | None => None
      end
  end.

(** ** Values *)

(** The arrays and objects that are open, innermost first; [FKey] is a
    member name whose value is being read. *)
Inductive frame :=
| FArray (acc : list value)
| FObject (acc : list (text * value))
| FKey (k : text).

(** What may come next. *)
Inductive expect :=
| EValue | EValueOrClose | EKeyOrClose | EKey | EColon | EAfter
| EDone (v : value).

Definition put (v : value) (stack : list frame) : option (list frame * expect) :=
  match stack with
  | [] => Some ([], EDone v)
  | FArray acc :: st => Some (FArray (v :: acc) :: st, EAfter)
  | FKey k :: FObject acc :: st => Some (FObject ((k, v) :: acc) :: st, EAfter)
  | _ => None
  end.

Definition close_array (stack : list frame) :=
  match stack with
  | FArray acc :: st => put (Array (rev acc)) st
  | _ => None
  end.

Definition close_object (stack : list frame) :=
  match stack with
  | FObject acc :: st => put (Object (rev acc)) st
  | _ => None
  end.

Definition start_value (t : token) (stack : list frame) :=
  match t with
  | TNull => put Null stack
  | TTrue => put (Bool true) stack
  | TFalse => put (Bool false) stack
  | TNumber n => put (Number n) stack
  | TString s => put (Str s) stack
  | TLBracket => Some (FArray [] :: stack, EValueOrClose)
  | TLBrace => Some (FObject [] :: stack, EKeyOrClose)
  | TRBracket | TRBrace | TComma | TColon => None
  end.

Definition parse_step (st : list frame * expect) (t : token)
  : option (list frame * expect) :=
  let '(stack, e) := st in
  match e with
  | EValue => start_value t stack
  | EValueOrClose =>
      match t with
      | TRBracket => close_array stack
      | _ => start_value t stack
      end
  | EKeyOrClose =>
      match t with
      | TRBrace => close_object stack
      | TString k => Some (FKey k :: stack, EColon)
      | _ => None
      end
  | EKey =>
      match t with
      | TString k => Some (FKey k :: stack, EColon)
      | _ => None
      end
  | EColon =>
      match t with
      | TColon => Some (stack, EValue)
      | _ => None
      end
  | EAfter =>
      match t, stack with
      | TComma, FArray _ :: _ => Some (stack, EValue)
      | TComma, FObject _ :: _ => Some (stack, EKey)
      | TRBracket, _ => close_array stack
      | TRBrace, _ => close_object stack
      | _, _ => None
      end
  | EDone _ => None
  end.

Fixpoint parse_tokens (st : list frame * expect) (ts : list token) : option value :=
  match ts with
  | [] =>
      match st with
      | ([], EDone v) => Some v
      | _ => None
      end
  | t :: ts' =>
      match parse_step st t with
      | Some st' => parse_tokens st' ts'
      | None => None
      end
  end.

(** [JSON.parse(s)]: the value, or [None] where it throws a
    [SyntaxError]. *)
Definition parse (s : string) : option value :=
  match lex LStart s with
  | Some ts => parse_tokens ([], EValue) ts
  | None => None
  end.

(** ** What the program does with a parsed value *)

Definition text_eqb (a b : text) : bool :=
  if list_eq_dec N.eq_dec a b then true else false.

(** The member of an object read by [o[k]]: of two members with one
    name the later one stands. *)
Fixpoint member (k : text) (l : list (text * value)) : option value :=
  match l with
  | [] => None
  | (k', v) :: l' =>
      match member k l' with
      | Some v' => Some v'
      | None => if text_eqb k' k then Some v else None
      end
  end.

(** A number literal denotes zero: its digits are all [0], or its value
    is at most [2^-1075], half the least positive double. *)
Definition is_zero (n : number) : bool :=
  ((mantissa n =? 0) ||
   ((exponent n <? 0) &&
    (mantissa n * 2 ^ 1075 <=? 10 ^ (- exponent n))))%bool.

(** Truthiness. *)
Definition truthy (v : value) : bool :=
  match v with
  | Null => false
  | Bool b => b
  | Number n => negb (is_zero n)
  | Str s => match s with [] => false | _ :: _ => true end
  | Array _ | Object _ => true
  end.

End JSON.

(* ================================================================== *)
(** * server/services/openai.ts: the AI gateway                        *)
(* ================================================================== *)

Module Gateway.

(** What a call to the provider comes to: it resolves to a response, or
    it rejects with an error that has a message. *)
Inductive provider (A : Type) :=
| Resolves (a : A)
| Rejects (message : string).
Arguments Resolves {A} a.
Arguments Rejects {A} message.

(** An error caught in [generateSummary] or [extractKeyPoints]: the
    rejection of the provider, with its message, or an error of the
    engine ([JSON.parse] on a text that is not JSON, a property read on
    [undefined] or [null]). *)
Inductive cause :=
| Message (m : string)
| SyntaxError
| TypeError.

(** What a gateway function comes to: [Throws prefix c] is
    [throw new Error(prefix + error.message)] for the caught error that
    [c] tells of. *)
Inductive outcome (C A : Type) :=
| Returns (a : A)
| Throws (prefix : string) (c : C).
Arguments Returns {C A} a.
Arguments Throws {C A} prefix c.

(** ** transcribeAudio *)

(** [exists_] is [fs.existsSync(audioFilePath)], [transcription] what
    [openai.audio.transcriptions.create] comes to, with the [text] of
    the response.  The [duration] of the result is [undefined] on every
    path, so only the text is returned.  The caught error is told by its
    message. *)
Definition transcribeAudio (exists_ : bool) (transcription : provider string)
    (audioFilePath : string) : outcome string string :=
  if negb exists_ then
    Throws "Failed to transcribe audio: "
           ("Audio file not found: " ++ audioFilePath)
  else
    match transcription with
    | Resolves text => Returns text
    | Rejects m => Throws "Failed to transcribe audio: " m
    end.

(** ** generateSummary *)

Record Summary := mkSummary {
  summary : JSON.value;
  keywords : list JSON.value
}.

(** [x || "{}"] for the content of a message. *)
Definition content_or_empty_object (content : option string) : string :=
  match content with
  | Some s => if JS.truthy_string s then s else "{}"
  | None => "{}"
  end.

(** [result[k]] for a parsed value: [None] where the read throws (on
    [null]), the member of an object, and [undefined] (here [Null], which
    is as falsy and as little an array) for a member that is not there
    and on every other value. *)
Definition read (result : JSON.value) (k : string) : option JSON.value :=
  match result with
  | JSON.Null => None
  | JSON.Object members =>
      match JSON.member (JSON.codeUnits k) members with
      | Some v => Some v
      | None => Some JSON.Null
      end
  | _ => Some JSON.Null
  end.

(** The summary put where the response gives none. *)
Definition placeholder : JSON.value :=
  JSON.Str (JSON.codeUnits "Summary could not be generated").

(** [x || d] *)
Definition or_default (x d : JSON.value) : JSON.value :=
  if JSON.truthy x then x else d.

(** [Array.isArray(x) ? x : []] *)
Definition array_or_empty (x : JSON.value) : list JSON.value :=
  match x with
  | JSON.Array l => l
  | _ => []
  end.

(** [completion] is what [openai.chat.completions.create] comes to for
    the transcript: the [message.content] of each choice of the
    response. *)
Definition generateSummary (completion : string -> provider (list (option string)))
    (transcriptionText : string) : outcome cause Summary :=
  let prefix := "Failed to generate summary: " in
  match completion transcriptionText with
  | Rejects m => Throws prefix (Message m)
  | Resolves choices =>
      match choices with
      | [] => Throws prefix TypeError
      | content :: _ =>
          match JSON.parse (content_or_empty_object content) with
          | None => Throws prefix SyntaxError
          | Some result =>
              match read result "summary", read result "keywords" with
              | Some s, Some k =>
                  Returns
                    {| summary :=
                         or_default s placeholder;
                       keywords := array_or_empty k |}
              | _, _ => Throws prefix TypeError
              end
          end
      end
  end.

(** ** extractKeyPoints *)

Definition extractKeyPoints (completion : string -> provider (list (option string)))
    (transcriptionText : string) : outcome cause (list JSON.value) :=
  let prefix := "Failed to extract key points: " in
  match completion transcriptionText with
  | Rejects m => Throws prefix (Message m)
  | Resolves choices =>
      match choices with
      | [] => Throws prefix TypeError
      | content :: _ =>
          match JSON.parse (content_or_empty_object content) with
          | None => Throws prefix SyntaxError
          | Some result =>
              match read result "keyPoints" with
              | Some k => Returns (array_or_empty k)
              | None => Throws prefix TypeError
              end
          end
      end
  end.

End Gateway.

(* ================================================================== *)
(** * server/routes.ts: the HTTP handlers                              *)
(* ================================================================== *)

Module Routes.
Import Schema Storage.

Definition MOCK_USER_ID : string := "user-123".

(** What is sent back: a JSON message, a record as JSON, or the bytes
    piped from a read stream. *)
Inductive Body :=
| JsonMessage (message : string)
| JsonContent (content : option AudioContent)
| Stream (bytes : list Byte.byte).

(** The status and the headers written by the handlers, but for
    [Content-Type] and [Cache-Control], and the body. *)
Record Response := mkResponse {
  status : Z;
  contentRange : option string;
  acceptRanges : option string;
  contentLength : option (option Z);
  body : Body
}.

(** [res.status(code).json({ message })] *)
Definition json (code : Z) (message : string) : Response :=
  mkResponse code None None None (JsonMessage message).

(** The files on disk: the bytes of a path, if it exists. *)
Definition FileSystem := string -> option (list Byte.byte).

(** A position of [fs.createReadStream]: an integer from [0] to
    [Number.MAX_SAFE_INTEGER]; [NaN] is none. *)
Definition validPosition (x : option Z) : bool :=
  match x with
  | Some n => ((0 <=? n) && (n <=? JS.MAX_SAFE_INTEGER))%bool
  | None => false
  end.

(** The bytes from [start] to [end_], both inclusive, as far as the file
    goes. *)
Definition window (data : list Byte.byte) (start end_ : Z) : list Byte.byte :=
  firstn (Z.to_nat (end_ - start + 1)) (skipn (Z.to_nat start) data).

(** [fs.createReadStream(path, { start, end })] on the bytes of the
    file.  The constructor of the stream checks its options when it is
    called: [start] and [end] have to be integers from [0] to
    [Number.MAX_SAFE_INTEGER], and [start] must not be after [end]; if not,
    it throws a range error (here [None]).  The stream then gives the
    window. *)
Definition createReadStream (data : list Byte.byte) (start end_ : option Z)
  : option (list Byte.byte) :=
  match start, end_ with
  | Some s, Some e =>
      if (validPosition start && validPosition end_ && (s <=? e))%bool
      then Some (window data s e)
      else None
  | _, _ => None
  end.

(** [`${x}`] for a number: [None] is [NaN]. *)
Definition show (x : option Z) : string :=
  match x with
  | Some n => JS.toString n
  | None => "NaN"
  end.

(** [parts[0]] and [parts[1]] of the [Range] header without [bytes=],
    cut at the dashes. *)
Definition rangeParts (range : string) : list string :=
  JS.split "-" (JS.replace "bytes=" "" range).

Definition rangeStart (range : string) : option Z :=
  JS.parseInt (nth 0 (rangeParts range) "").

Definition rangeEnd (range : string) (fileSize : Z) : option Z :=
  match nth_error (rangeParts range) 1 with
  | Some p => if JS.truthy_string p then JS.parseInt p else Some (fileSize - 1)
  | None => Some (fileSize - 1)
  end.

(** [(end - start) + 1]; [NaN] if one of them is. *)
Definition chunksize (start end_ : option Z) : option Z :=
  match start, end_ with
  | Some s, Some e => Some ((e - s) + 1)
  | _, _ => None
  end.

(** [GET /api/audio/:id], with the [Range] header of the request if it
    has one.  The read stream is made before the head is written, inside
    the [try] of the handler, so a stream that is refused is answered by the
    [catch] with status 500. *)
Definition serveAudio (files : FileSystem) (st : MemStorage)
    (i : string) (range : option string) : Response :=
  match getAudioContent i st with
  | None => json 404 "Audio content not found"
  | Some content =>
      match files (filePath content) with
      | None => json 404 "Audio file not found"
      | Some data =>
          let fileSize := Z.of_nat (List.length data) in
          match range with
          | Some (String _ _ as range) =>
              let start := rangeStart range in
              let end_ := rangeEnd range fileSize in
              match createReadStream data start end_ with
              | None => json 500 "Failed to serve audio file"
              | Some file =>
                  {| status := 206;
                     contentRange :=
                       Some ("bytes " ++ show start ++ "-" ++ show end_
                                      ++ "/" ++ JS.toString fileSize);
                     acceptRanges := Some "bytes";
                     contentLength := Some (chunksize start end_);
                     body := Stream file |}
              end
          | _ =>
              {| status := 200;
                 contentRange := None;
                 acceptRanges := Some "bytes";
                 contentLength := Some (Some fileSize);
                 body := Stream data |}
          end
      end
  end.

(** [req.file] of an upload. *)
Record UploadedFile := mkUploadedFile {
  originalname : string;
  path : string;
  size : Z;
  mimetype : string
}.

(** [POST /api/audio-content/upload]: the response, the store, and the
    arguments of the [processAudioFile] that is started. *)
Definition upload (uuid : string) (now now' : Z) (file : option UploadedFile)
    (title_ source_ : option string) (st : MemStorage)
  : Response * MemStorage * option (string * string) :=
  match file with
  | None => (json 400 "No audio file provided", st, None)
  | Some f =>
      match or_else title_ None with
      | None => (json 400 "Title is required", st, None)
      | Some t =>
          let '(audioContent, st') :=
            createAudioContent uuid now now'
              {| ia_userId := MOCK_USER_ID;
                 ia_title := t;
                 ia_source := or_else source_ None;
                 ia_fileName := originalname f;
                 ia_filePath := path f;
                 ia_duration := None;
                 ia_fileSize := Some (size f);
                 ia_mimeType := Some (mimetype f) |} st in
          (mkResponse 200 None None None (JsonContent (Some audioContent)),
           st', Some (id audioContent, path f))
      end
  end.

(** [PATCH /api/audio-content/:id/progress] *)
Definition updateProgress (now : Z) (i : string) (progress_ : option Z)
    (st : MemStorage) : Response * MemStorage :=
  match updateAudioContent i
          [Set_progress progress_; Set_lastAccessedAt (Some now)] st with
  | (None, st') => (json 404 "Audio content not found", st')
  | (Some updated, st') =>
      (mkResponse 200 None None None (JsonContent (Some updated)), st')
  end.

(** [POST /api/audio-content/:id/summary]; [generateSummary] is what the
    call of the gateway comes to for a transcript, at the types of its
    signature. *)
Definition summarize
    (generateSummary : string -> Gateway.outcome Gateway.cause (string * list string))
    (i : string) (st : MemStorage) : Response * MemStorage :=
  match getAudioContent i st with
  | None => (json 404 "Audio content not found", st)
  | Some content =>
      match or_else (transcriptionText content) None with
      | None => (json 400 "Transcription not available", st)
      | Some text =>
          match generateSummary text with
          | Gateway.Throws _ _ => (json 500 "Failed to generate summary", st)
          | Gateway.Returns (summary, keywords_) =>
              let '(updated, st') :=
                updateAudioContent i
                  [Set_aiSummary (Some summary); Set_keywords (Some keywords_)] st in
              (mkResponse 200 None None None (JsonContent updated), st')
          end
      end
  end.

(** [DELETE /api/highlights/:id] *)
Definition removeHighlight (i : string) (st : MemStorage) : Response * MemStorage :=
  match deleteHighlight i st with
  | (false, st') => (json 404 "Highlight not found", st')
  | (true, st') => (json 200 "Highlight deleted successfully", st')
  end.

End Routes.

(* ================================================================== *)
(** * server/routes.ts: the background job                             *)
(* ================================================================== *)

Module Pipeline.
Import Schema Storage.

(** ** Code that works on the store and may throw *)

(** A computation on the store that returns an [A] or throws an [E]; the
    store keeps what was written before the throw. *)
Definition M (E A : Type) : Type := MemStorage -> (A + E) * MemStorage.

Definition ret {E A} (a : A) : M E A := fun st => (inl a, st).

Definition bind {E A B} (m : M E A) (k : A -> M E B) : M E B :=
  fun st =>
    match m st with
    | (inl a, st') => k a st'
    | (inr e, st') => (inr e, st')
    end.

(** [try { m } catch (e) { handler }] *)
Definition try_catch {E E' A} (m : M E A) (handler : E -> M E' A) : M E' A :=
  fun st =>
    match m st with
    | (inl a, st') => (inl a, st')
    | (inr e, st') => handler e st'
    end.

(** [await storage.op(...)]: the methods of [MemStorage] do not throw. *)
Definition storage {E A} (op : MemStorage -> A * MemStorage) : M E A :=
  fun st => let '(a, st') := op st in (inl a, st').

Definition storage_get {E A} (op : MemStorage -> A) : M E A :=
  fun st => (inl (op st), st).

(** [await] on a call of the gateway: its result, or its error thrown
    on. *)
Definition await {C A} (o : Gateway.outcome C A) : M (string * C) A :=
  match o with
  | Gateway.Returns a => ret a
  | Gateway.Throws prefix c => fun st => (inr (prefix, c), st)
  end.

Notation "x <- m ;; k" := (bind m (fun x => k))
  (at level 61, m at next level, right associativity).
Notation "' p <- m ;; k" := (bind m (fun x => let 'p := x in k))
  (at level 61, p pattern, m at next level, right associativity).

(** ** processAudioFile *)

(** The text stored for a failed transcription, from the message of the
    error. *)
Definition errorText (message : string) : string :=
  let errorMessage :=
    if (JS.includes message "quota" || JS.includes message "429")%bool
    then "OpenAI quota exceeded. Please add credits to your OpenAI account."
    else "Transcription failed" in
  "Error: " ++ errorMessage.

Definition Transcriber := string -> option string -> Gateway.outcome string string.
Definition Summarizer := string -> Gateway.outcome Gateway.cause (string * list string).

(** [transcribeAudio] and [generateSummary] are what the calls of the
    gateway come to.  Nothing is thrown out of the transcription
    [try], whose handler only writes to the store, so the outermost
    handler catches an error that cannot be. *)
Definition processAudioFile (transcribeAudio : Transcriber)
    (generateSummary : Summarizer) (contentId filePath : string)
  : M Empty_set unit :=
  try_catch
    (_ <- storage (updateAudioContent contentId
                     [Set_transcriptionStatus (Some "processing")]) ;;
     try_catch
       (content <- storage_get (getAudioContent contentId) ;;
        let originalFilename := option_map fileName content in
        text <- await (transcribeAudio filePath originalFilename) ;;
        _ <- storage (updateAudioContent contentId
                        [Set_transcriptionStatus (Some "completed");
                         Set_transcriptionText (Some text);
                         Set_duration None]) ;;
        try_catch
          ('(summary, keywords_) <- await (generateSummary text) ;;
           _ <- storage (updateAudioContent contentId
                           [Set_aiSummary (Some summary);
                            Set_keywords (Some keywords_)]) ;;
           ret tt)
          (fun summaryError => ret tt))
       (fun transcriptionError =>
          let message := (fst transcriptionError ++ snd transcriptionError)%string in
          _ <- storage (updateAudioContent contentId
                          [Set_transcriptionStatus (Some "error");
                           Set_transcriptionText (Some (errorText message))]) ;;
          ret tt))
    (fun error : Empty_set =>
       _ <- storage (updateAudioContent contentId
                       [Set_transcriptionStatus (Some "error")]) ;;
       ret tt).

(** The store after the job has run from its start to its end with
    nothing in between. *)
Definition run (transcribeAudio : Transcriber) (generateSummary : Summarizer)
    (contentId filePath : string) (st : MemStorage) : MemStorage :=
  snd (processAudioFile transcribeAudio generateSummary contentId filePath st).

(** ** The server: requests and jobs, one step at a time *)

(** Where a job stands between two of its steps: called but not yet
    run, waiting for the transcription, waiting for the summary of a
    text, done. *)
Inductive Job :=
| Created (filePath : string)
| Transcribing
| Summarizing (text : string)
| Finished.

Record Server := mkServer {
  store : MemStorage;
  jobs : JS.Map.t Job
}.

(** The server when it starts: [new MemStorage()], no job. *)
Definition initial : Server := mkServer Storage.empty JS.Map.empty.

(** What happens to the server: a request that writes to the store, or
    a job that goes on after an [await]. *)
Inductive Event :=
| Upload (uuid : string) (now now' : Z) (file : option Routes.UploadedFile)
         (title_ source_ : option string)
| UpdateProgress (now : Z) (contentId : string) (progress_ : option Z)
| Summarize (generateSummary : Summarizer) (contentId : string)
| CreateHighlight (uuid : string) (now : Z) (h : InsertHighlight)
| RemoveHighlight (highlightId : string)
| Start (contentId : string)
| TranscriptionSettled (contentId : string) (r : Gateway.outcome string string)
| SummarySettled (contentId : string)
                 (r : Gateway.outcome Gateway.cause (string * list string)).

(** The job goes on with the result of [transcribeAudio]. *)
Definition transcriptionSettled (contentId : string)
    (r : Gateway.outcome string string) (st : MemStorage) : MemStorage * Job :=
  match r with
  | Gateway.Returns text =>
      (snd (updateAudioContent contentId
              [Set_transcriptionStatus (Some "completed");
               Set_transcriptionText (Some text);
               Set_duration None] st),
       Summarizing text)
  | Gateway.Throws prefix m =>
      (snd (updateAudioContent contentId
              [Set_transcriptionStatus (Some "error");
               Set_transcriptionText (Some (errorText (prefix ++ m)))] st),
       Finished)
  end.

(** The job goes on with the result of [generateSummary]. *)
Definition summarySettled (contentId : string)
    (r : Gateway.outcome Gateway.cause (string * list string))
    (st : MemStorage) : MemStorage :=
  match r with
  | Gateway.Returns (summary, keywords_) =>
      snd (updateAudioContent contentId
             [Set_aiSummary (Some summary); Set_keywords (Some keywords_)] st)
  | Gateway.Throws _ _ => st
  end.

(** One step.  [None]: the event cannot happen here, an upload with an
    identifier that is in use ([randomUUID] gives a new one), or a step
    of a job that is not at this point. *)
Definition step (e : Event) (s : Server) : option Server :=
  match e with
  | Upload uuid now now' file title_ source_ =>
      if JS.Map.has uuid (audioContent (store s)) then None
      else
        match Routes.upload uuid now now' file title_ source_ (store s) with
        | (_, st', Some (contentId, filePath)) =>
            Some (mkServer st' (JS.Map.set contentId (Created filePath) (jobs s)))
        | (_, st', None) => Some (mkServer st' (jobs s))
        end
  | UpdateProgress now contentId progress_ =>
      Some (mkServer (snd (Routes.updateProgress now contentId progress_ (store s)))
                     (jobs s))
  | Summarize generateSummary contentId =>
      Some (mkServer (snd (Routes.summarize generateSummary contentId (store s)))
                     (jobs s))
  | CreateHighlight uuid now h =>
      Some (mkServer (snd (createHighlight uuid now h (store s))) (jobs s))
  | RemoveHighlight highlightId =>
      Some (mkServer (snd (Routes.removeHighlight highlightId (store s))) (jobs s))
  | Start contentId =>
      match JS.Map.get contentId (jobs s) with
      | Some (Created _) =>
          Some (mkServer
                  (snd (updateAudioContent contentId
                          [Set_transcriptionStatus (Some "processing")] (store s)))
                  (JS.Map.set contentId Transcribing (jobs s)))
      | _ => None
      end
  | TranscriptionSettled contentId r =>
      match JS.Map.get contentId (jobs s) with
      | Some Transcribing =>
          let '(st', job) := transcriptionSettled contentId r (store s) in
          Some (mkServer st' (JS.Map.set contentId job (jobs s)))
      | _ => None
      end
  | SummarySettled contentId r =>
      match JS.Map.get contentId (jobs s) with
      | Some (Summarizing _) =>
          Some (mkServer (summarySettled contentId r (store s))
                         (JS.Map.set contentId Finished (jobs s)))
      | _ => None
      end
  end.

(** The events of a list, one after the other. *)
Fixpoint steps (es : list Event) (s : Server) : option Server :=
  match es with
  | [] => Some s
  | e :: es' =>
      match step e s with
      | Some s' => steps es' s'
      | None => None
      end
  end.

(** ** The status of a record *)

Definition status_eqb (x : option string) (s : string) : bool :=
  match x with
  | Some y => String.eqb y s
  | None => false
  end.

(** One of [pending], [processing], [completed], [error]. *)
Definition known (x : option string) : bool :=
  (status_eqb x "pending" || status_eqb x "processing" ||
   status_eqb x "completed" || status_eqb x "error")%bool.

(** [completed] or [error]. *)
Definition terminal (x : option string) : bool :=
  (status_eqb x "completed" || status_eqb x "error")%bool.

(** The status a record has while its job is at a point. *)
Definition job_status (j : Job) (x : option string) : Prop :=
  match j with
  | Created _ => x = Some "pending"
  | Transcribing => x = Some "processing"
  | Summarizing _ => x = Some "completed"
  | Finished => x = Some "completed" \/ x = Some "error"
  end.

(** Every record has a job, every job a record, and the record has the
    status of the point where its job is. *)
Definition consistent (s : Server) : Prop :=
  forall i,
    match getAudioContent i (store s), JS.Map.get i (jobs s) with
    | Some c, Some j => job_status j (transcriptionStatus c)
    | None, None => True
    | _, _ => False
    end.

(** From one store to a later one, a record whose status is [completed]
    or [error] is still there with the status it had. *)
Definition terminal_kept (st st' : MemStorage) : Prop :=
  forall i c,
    getAudioContent i st = Some c ->
    terminal (transcriptionStatus c) = true ->
    exists c',
      getAudioContent i st' = Some c' /\
      transcriptionStatus c' = transcriptionStatus c.

End Pipeline.

(* ================================================================== *)
(** * Stores, files and calls used in the examples                     *)
(* ================================================================== *)

Module Examples.

(** The store and the files of the examples: one record, [a1], whose file
    has ten bytes. *)
Definition example_store : Storage.MemStorage :=
  snd (Storage.createAudioContent "a1" 0 0
         (Schema.mkInsertAudioContent Routes.MOCK_USER_ID "Lecture 1" None "talk.mp3" "uploads/f1"
                               None (Some 10) (Some "audio/mpeg"))
         Storage.empty).

Definition example_files (bytes : nat) : Routes.FileSystem :=
  fun path => if String.eqb path "uploads/f1" then Some (repeat Byte.x00 bytes) else None.

(** A provider that answers every transcript with one choice of the given
    content. *)
Definition answers (content : string)
  : string -> Gateway.provider (list (option string)) :=
  fun _ => Gateway.Resolves [Some content].

(** A text between double quotes. *)
Definition quoted (s : string) : string :=
  String JSON.dquote (s ++ String JSON.dquote "").

(** The JSON text of an object with a title and nothing else. *)
Definition titled_object : string :=
  "{ " ++ quoted "title" ++ ": " ++ quoted "Birds" ++ " }".

(** The JSON text of an object with a summary and two keywords, as the
    provider is asked to give it. *)
Definition summary_object : string :=
  "{ " ++ quoted "summary" ++ ": " ++ quoted "A talk about birds" ++ ", "
       ++ quoted "keywords" ++ ": [" ++ quoted "birds" ++ ", "
       ++ quoted "migration" ++ "] }".

(** A transcription that gives the text. *)
Definition transcribes (text : string) : Pipeline.Transcriber :=
  fun _ _ => Gateway.Returns text.

(** A transcription that the provider rejects with the message. *)
Definition transcription_rejected (message : string) : Pipeline.Transcriber :=
  fun audioFilePath _ =>
    Gateway.transcribeAudio true (Gateway.Rejects message) audioFilePath.

(** A summary that the provider rejects. *)
Definition summary_rejected : Pipeline.Summarizer :=
  fun _ => Gateway.Throws "Failed to generate summary: "
                          (Gateway.Message "503 Service Unavailable").

(** A summary that is given. *)
Definition summarizes : Pipeline.Summarizer :=
  fun _ => Gateway.Returns ("A talk about birds", ["birds"; "migration"]).

(** The upload of [talk.mp3] under the title [Lecture 1]. *)
Definition upload_a1 : Pipeline.Event :=
  Pipeline.Upload "a1" 1000 1000
    (Some (Routes.mkUploadedFile "talk.mp3" "uploads/f1" 10 "audio/mpeg"))
    (Some "Lecture 1") None.

(** The upload and its job as far as the transcription. *)
Definition events_to_completed : list Pipeline.Event :=
  [upload_a1;
   Pipeline.Start "a1";
   Pipeline.UpdateProgress 2000 "a1" (Some 3);
   Pipeline.TranscriptionSettled "a1" (Gateway.Returns "Hello")].

(** What comes after: the summary fails, the user asks for one and moves
    on in the audio. *)
Definition events_after_completed : list Pipeline.Event :=
  [Pipeline.SummarySettled "a1"
     (Gateway.Throws "Failed to generate summary: " Gateway.SyntaxError);
   Pipeline.Summarize summarizes "a1";
   Pipeline.UpdateProgress 3000 "a1" (Some 7)].

(** A store with three records of one user, made at the times 5, 9 and
    5, and one record of another user. *)
Definition library : Storage.MemStorage :=
  let make uuid user t st :=
    snd (Storage.createAudioContent uuid t t
           (Schema.mkInsertAudioContent user uuid None "f.mp3" "uploads/f"
                                        None None None) st) in
  make "b1" "user-9" 7
    (make "a3" "user-123" 5
       (make "a2" "user-123" 9
          (make "a1" "user-123" 5 Storage.empty))).

(** The store of the examples with one highlight, [h1]. *)
Definition highlighted : Storage.MemStorage :=
  snd (Storage.createHighlight "h1" 1
         (Schema.mkInsertHighlight "a1" "user-123" "birds migrate" 3 8 None None)
         example_store).

End Examples.

(* ================================================================== *)
(** * server/routes.ts: the other handlers and the order of the routes *)
(* ================================================================== *)

Module Handlers.
Import Schema Storage.

(** What a handler answers: a status with a message, or, with status 200,
    the JSON of what it found. *)
Inductive Reply :=
| Message (status : Z) (message : string)
| Content (content : AudioContent)
| Contents (contents : list AudioContent)
| Highlights (highlights : list Highlight)
| Created (highlight : Highlight)
| Segments (segments : list TranscriptSegment)
| KeyPoints (keyPoints : list string).

(** [GET /api/audio-content] *)
Definition getAll (st : MemStorage) : Reply :=
  Contents (getAudioContentByUser Routes.MOCK_USER_ID st).

(** [GET /api/audio-content/:id] *)
Definition getOne (i : string) (st : MemStorage) : Reply :=
  match getAudioContent i st with
  | None => Message 404 "Audio content not found"
  | Some content => Content content
  end.

(** [GET /api/audio-content/search], with the one value of [q] in the
    query if it has one. *)
Definition search (q : option string) (st : MemStorage) : Reply :=
  match or_else q None with
  | None => Message 400 "Search query is required"
  | Some query => Contents (searchAudioContent Routes.MOCK_USER_ID query st)
  end.

(** [GET /api/audio-content/:id/transcript] *)
Definition transcript (i : string) (st : MemStorage) : Reply :=
  Segments (getTranscriptSegments i st).

(** [GET /api/audio-content/:id/highlights] *)
Definition highlightsOf (i : string) (st : MemStorage) : Reply :=
  Highlights (getHighlightsByAudioContent i st).

(** [POST /api/highlights] with a body that the schema accepts:
    [{ ...validatedData, userId: MOCK_USER_ID }] is stored. *)
Definition addHighlight (uuid : string) (now : Z) (validatedData : InsertHighlight)
    (st : MemStorage) : Reply * MemStorage :=
  let '(highlight, st') :=
    createHighlight uuid now
      {| ih_audioContentId := ih_audioContentId validatedData;
         ih_userId := Routes.MOCK_USER_ID;
         ih_text := ih_text validatedData;
         ih_startTime := ih_startTime validatedData;
         ih_endTime := ih_endTime validatedData;
         ih_color := ih_color validatedData;
         ih_note := ih_note validatedData |} st in
  (Created highlight, st').

(** [POST /api/audio-content/:id/key-points]; [extractKeyPoints] is what
    the call of the gateway comes to for a transcript, at the types of its
    signature.  Nothing is written to the store. *)
Definition keyPoints
    (extractKeyPoints : string -> Gateway.outcome Gateway.cause (list string))
    (i : string) (st : MemStorage) : Reply :=
  match getAudioContent i st with
  | None => Message 404 "Audio content not found"
  | Some content =>
      match or_else (transcriptionText content) None with
      | None => Message 400 "Transcription not available"
      | Some text =>
          match extractKeyPoints text with
          | Gateway.Throws _ _ => Message 500 "Failed to extract key points"
          | Gateway.Returns points => KeyPoints points
          end
      end
  end.

(** ** The routes, in the order [registerRoutes] adds them *)

Inductive Method := GET | HEAD | POST | PATCH | DELETE | OTHER.

(** A piece of a route between two slashes: a text, or a parameter. *)
Inductive Piece :=
| Lit (text : string)
| Param.

Inductive Handler :=
| H_getAll | H_getOne | H_audio | H_upload | H_search | H_progress
| H_transcript | H_highlights | H_addHighlight | H_removeHighlight
| H_summary | H_keyPoints.

Definition routes : list (Method * list Piece * Handler) :=
  [ (GET, [Lit "api"; Lit "audio-content"], H_getAll);
    (GET, [Lit "api"; Lit "audio-content"; Param], H_getOne);
    (GET, [Lit "api"; Lit "audio"; Param], H_audio);
    (POST, [Lit "api"; Lit "audio-content"; Lit "upload"], H_upload);
    (GET, [Lit "api"; Lit "audio-content"; Lit "search"], H_search);
    (PATCH, [Lit "api"; Lit "audio-content"; Param; Lit "progress"], H_progress);
    (GET, [Lit "api"; Lit "audio-content"; Param; Lit "transcript"], H_transcript);
    (GET, [Lit "api"; Lit "audio-content"; Param; Lit "highlights"], H_highlights);
    (POST, [Lit "api"; Lit "highlights"], H_addHighlight);
    (DELETE, [Lit "api"; Lit "highlights"; Param], H_removeHighlight);
    (POST, [Lit "api"; Lit "audio-content"; Param; Lit "summary"], H_summary);
    (POST, [Lit "api"; Lit "audio-content"; Param; Lit "key-points"], H_keyPoints) ].

(** The pieces of the path of a request: the texts between its slashes,
    without the empty one before the first slash and without one empty
    piece after a slash at the end, which a route allows. *)
Definition dropLastEmpty (l : list string) : list string :=
  match rev l with
  | EmptyString :: r => rev r
  | _ => l
  end.

Definition pieces (path : string) : list string :=
  match JS.split "/" path with
  | EmptyString :: l => dropLastEmpty l
  | l => l
  end.

(** A route takes a path when they have as many pieces, a text of the
    route is the piece up to the case of letters, and a parameter is a
    piece that is not empty; the values of the parameters are returned. *)
Fixpoint takes (route : list Piece) (path : list string) : option (list string) :=
  match route, path with
  | [], [] => Some []
  | Lit text :: route', p :: path' =>
      if String.eqb (JS.toLowerCase text) (JS.toLowerCase p)
      then takes route' path' else None
  | Param :: route', p :: path' =>
      if JS.truthy_string p
      then option_map (cons p) (takes route' path') else None
  | _, _ => None
  end.

(** A route added with [app.get] also answers [HEAD]. *)
Definition method_eqb (route request : Method) : bool :=
  match route, request with
  | GET, GET | GET, HEAD | POST, POST | PATCH, PATCH | DELETE, DELETE => true
  | _, _ => false
  end.

(** The handler that answers a request: the first route, in the order
    they were added, of the method that takes the path. *)
Fixpoint first_route (rs : list (Method * list Piece * Handler)) (m : Method)
    (path : list string) : option (Handler * list string) :=
  match rs with
  | [] => None
  | (rm, route, h) :: rs' =>
      match (if method_eqb rm m then takes route path else None) with
      | Some params => Some (h, params)
      | None => first_route rs' m path
      end
  end.

Definition dispatch (m : Method) (path : string) : option (Handler * list string) :=
  first_route routes m (pieces path).

End Handlers.

(* ================================================================== *)
(** * The shape of a store                                             *)
(* ================================================================== *)

Module Shape.

(** A store whose four maps have one entry per key, as every [Map]
    has. *)
Definition well_formed (st : Storage.MemStorage) : Prop :=
  NoDup (JS.Map.keys (Storage.users st)) /\
  NoDup (JS.Map.keys (Storage.audioContent st)) /\
  NoDup (JS.Map.keys (Storage.highlights st)) /\
  NoDup (JS.Map.keys (Storage.transcriptSegments st)).

End Shape.

(* ================================================================== *)
(** * client: what is shown of a record                                *)
(* ================================================================== *)

Module Client.

(** [s.padStart(n, c)] for a one-character filler. *)
Definition padStart (n : nat) (c : ascii) (s : string) : string :=
  (string_of_list_ascii (repeat c (n - String.length s)) ++ s)%string.

(** [formatTime] of the highlights and [formatTimestamp] of the
    transcript, for a whole number of seconds:
    [Math.floor(seconds / 60)], a colon, and [seconds % 60] filled to two
    characters with [0]. *)
Definition formatTime (seconds : Z) : string :=
  let minutes := seconds / 60 in
  let remainingSeconds := Z.rem seconds 60 in
  (JS.toString minutes ++ ":" ++ padStart 2 "0" (JS.toString remainingSeconds))%string.

(** [formatDuration] of the library, for a whole number of seconds;
    [0] is falsy. *)
Definition formatDuration (seconds : Z) : string :=
  if seconds =? 0 then "Unknown"
  else
    let hours := seconds / 3600 in
    let minutes := Z.rem seconds 3600 / 60 in
    if 0 <? hours
    then (JS.toString hours ++ "h " ++ JS.toString minutes ++ "m")%string
    else (JS.toString minutes ++ "m")%string.

(** [content.duration || 0] *)
Definition durationOrZero (duration : option Z) : Z :=
  match duration with Some d => d | None => 0 end.

(** [text.split('. ')]: the pieces between the places where a full stop
    is followed by a space, from left to right. *)
Fixpoint splitSentences (text : string) : list string :=
  match text with
  | EmptyString => [EmptyString]
  | String c rest =>
      let go_on :=
        match splitSentences rest with
        | p :: ps => String c p :: ps
        | [] => [String c EmptyString]
        end in
      match rest with
      | String d rest' =>
          if (Ascii.eqb c "." && Ascii.eqb d " ")%bool
          then EmptyString :: splitSentences rest'
          else go_on
      | EmptyString => go_on
      end
  end.

(** A segment of the transcript view. *)
Record Segment := mkSegment {
  segment_id : string;
  timestamp : string;
  text : string;
  isActive : bool
}.

(** [sentences.map((sentence, index) => ...)], from [index] on: every
    sentence but the last gets its full stop back, and a time fifteen
    seconds after the one before. *)
Fixpoint toSegments (index : Z) (sentences : list string) : list Segment :=
  match sentences with
  | [] => []
  | sentence :: more =>
      {| segment_id := ("segment-" ++ JS.toString index)%string;
         timestamp := formatTime (index * 15);
         text := match more with
                 | [] => sentence
                 | _ :: _ => (sentence ++ ".")%string
                 end;
         isActive := index =? 2 |}
      :: toSegments (index + 1) more
  end.

(** The segments shown for a transcript that is there. *)
Definition segments (transcriptionText : string) : list Segment :=
  toSegments 0 (splitSentences transcriptionText).

End Client.

(* ================================================================== *)
(** * Stores and requests used in further examples                     *)
(* ================================================================== *)

Module Samples.

(** A record as an upload gives it to the store. *)
Definition talk : Schema.InsertAudioContent :=
  Schema.mkInsertAudioContent Routes.MOCK_USER_ID "Lecture 2" (Some "Course")
                              "talk2.mp3" "uploads/f2" None (Some 20)
                              (Some "audio/mpeg").

(** A key-point extraction that is given. *)
Definition extracts : string -> Gateway.outcome Gateway.cause (list string) :=
  fun _ => Gateway.Returns ["birds migrate"].

End Samples.

(* ================================================================== *)
(** * What the specification's words mean                              *)
(* ================================================================== *)

Module Spec.

(** [q] is a substring of [s]. *)
Definition substring (q s : string) : Prop :=
  exists a b, s = (a ++ q ++ b)%string.

(** [a] and [b] are the same text when the case of letters is left
    aside. *)
Definition same_ci (a b : string) : Prop :=
  JS.toLowerCase a = JS.toLowerCase b.

(** [q] is a substring of [s] when the case of letters is left aside: a
    part of [s] is the same text as [q]. *)
Definition substring_ci (q s : string) : Prop :=
  exists a m b, s = (a ++ m ++ b)%string /\ same_ci m q.

(** [q] is a substring of a field that may be [null]. *)
Definition substring_ci_opt (q : string) (x : option string) : Prop :=
  exists s, x = Some s /\ substring_ci q s.

(** [s] is written with decimal digits only. *)
Fixpoint decimal (s : string) : bool :=
  match s with
  | EmptyString => true
  | String c s' =>
      match JS.digit c with
      | Some _ => decimal s'
      | None => false
      end
  end.

(** The [Range] header for the bytes from [first] to [last]. *)
Definition byte_range (first last : Z) : string :=
  "bytes=" ++ JS.toString first ++ "-" ++ JS.toString last.

(** The [Range] header for the bytes from [first] on. *)
Definition byte_range_from (first : Z) : string :=
  "bytes=" ++ JS.toString first ++ "-".

End Spec.

(* ================================================================== *)
(** * Facts about the library functions                                *)
(* ================================================================== *)

Lemma startsWith_spec (s q : string) :
  JS.startsWith s q = true <-> exists r, s = (q ++ r)%string.
Proof.
  revert s. induction q as [|b q IH]; intros s; simpl.
  - split; [intros _; exists s; reflexivity | reflexivity].
  - destruct s as [|a s].
    + split; [discriminate | intros [r Hr]; discriminate].
    + rewrite andb_true_iff, Ascii.eqb_eq, IH. split.
      * intros [-> [r ->]]. exists r. reflexivity.
      * intros [r Hr]. injection Hr as -> ->. split; [reflexivity | exists r; reflexivity].
Qed.

Lemma includes_spec (s q : string) :
  JS.includes s q = true <-> Spec.substring q s.
Proof.
  unfold Spec.substring. induction s as [|c s IH]; simpl.
  - rewrite orb_false_r, startsWith_spec. split.
    + intros [r Hr]. exists EmptyString, r. exact Hr.
    + intros [a [b H]]. destruct a; [exists b; exact H | discriminate].
  - rewrite orb_true_iff, IH. split.
    + intros [H | [a [b ->]]].
      * apply startsWith_spec in H. destruct H as [r Hr].
        exists EmptyString, r. exact Hr.
      * exists (String c a), b. reflexivity.
    + intros [a [b H]]. destruct a as [|c' a]; simpl in H.
      * left. apply startsWith_spec. exists b. exact H.
      * right. injection H as _ ->. exists a, b. reflexivity.
Qed.

Lemma includes_false (s q : string) :
  JS.includes s q = false <-> ~ Spec.substring q s.
Proof.
  rewrite <- includes_spec. destruct (JS.includes s q); split; congruence.
Qed.

Lemma toLowerCase_app (a b : string) :
  JS.toLowerCase (a ++ b) = (JS.toLowerCase a ++ JS.toLowerCase b)%string.
Proof. induction a as [|c a IH]; simpl; [reflexivity | rewrite IH; reflexivity]. Qed.

Lemma toLowerCase_app_inv (s x y : string) :
  JS.toLowerCase s = (x ++ y)%string ->
  exists a b, s = (a ++ b)%string /\ JS.toLowerCase a = x /\ JS.toLowerCase b = y.
Proof.
  revert s. induction x as [|c x IH]; intros s H; simpl in H.
  - exists EmptyString, s. repeat split. exact H.
  - destruct s as [|c0 s]; simpl in H; [discriminate|].
    injection H as Hc Hs. destruct (IH s Hs) as [a [b [-> [Ha Hb]]]].
    exists (String c0 a), b. simpl. rewrite Ha, Hc. repeat split. exact Hb.
Qed.

(** Leaving the case of letters aside is comparing the texts in small
    letters, as the search does. *)
Lemma substring_ci_lower (q s : string) :
  Spec.substring_ci q s <->
  Spec.substring (JS.toLowerCase q) (JS.toLowerCase s).
Proof.
  unfold Spec.substring_ci, Spec.substring, Spec.same_ci. split.
  - intros [a [m [b [-> Hm]]]].
    exists (JS.toLowerCase a), (JS.toLowerCase b).
    rewrite !toLowerCase_app, Hm. reflexivity.
  - intros [x [y H]].
    destruct (toLowerCase_app_inv _ _ _ H) as [a [r [-> [Ha Hr]]]].
    destruct (toLowerCase_app_inv _ _ _ Hr) as [m [b [-> [Hm Hb]]]].
    exists a, m, b. split; [reflexivity | exact Hm].
Qed.

(** ** Numbers and their decimal text *)

Lemma digits_cons (c : ascii) (k acc : Z) (s : string) :
  JS.digit c = Some k -> JS.digits acc (String c s) = JS.digits (10 * acc + k) s.
Proof. intros H. simpl. rewrite H. reflexivity. Qed.

Lemma digits_stop (acc : Z) (s : string) :
  match s with
  | EmptyString => True
  | String c _ => JS.digit c = None
  end ->
  JS.digits acc s = acc.
Proof. destruct s as [|c s]; simpl; [reflexivity | intros ->; reflexivity]. Qed.

Ltac read_digit :=
  match goal with
  | |- context [JS.digits _ (String ?c _)] =>
      let k := eval vm_compute in (JS.digit c) in
      match k with
      | Some ?v => rewrite (digits_cons c v) by reflexivity
      end
  end.

Lemma digits_uint_acc (d : Decimal.uint) (p : positive) (rest : string) :
  JS.digits (Z.pos p) (NilEmpty.string_of_uint d ++ rest) =
  JS.digits (Z.pos (Pos.of_uint_acc d p)) rest.
Proof.
  revert p. induction d; intros p; cbn [NilEmpty.string_of_uint String.append Pos.of_uint_acc];
    [reflexivity | ..]; read_digit; rewrite <- IHd; f_equal; lia.
Qed.

Lemma digits_uint (d : Decimal.uint) (rest : string) :
  JS.digits 0 (NilEmpty.string_of_uint d ++ rest) =
  JS.digits (Z.of_N (Pos.of_uint d)) rest.
Proof.
  induction d; cbn [NilEmpty.string_of_uint String.append Pos.of_uint];
    [reflexivity | ..]; read_digit;
    [exact IHd | ..]; cbn [Z.of_N]; rewrite <- digits_uint_acc; f_equal.
Qed.

Lemma toString_pos (p : positive) :
  JS.toString (Z.pos p) = NilEmpty.string_of_uint (Pos.to_uint p).
Proof.
  unfold JS.toString. cbn [Z.to_int NilZero.string_of_int].
  pose proof (Unsigned.to_uint_nonnil p) as H.
  unfold NilZero.string_of_uint. destruct (Pos.to_uint p); congruence.
Qed.

Lemma digits_toString (n : Z) (rest : string) :
  0 <= n -> JS.digits 0 (JS.toString n ++ rest) = JS.digits n rest.
Proof.
  intros Hn. destruct n as [|p|p]; [reflexivity | | lia].
  rewrite toString_pos, digits_uint, Unsigned.of_to. reflexivity.
Qed.

Lemma decimal_uint (d : Decimal.uint) : Spec.decimal (NilEmpty.string_of_uint d) = true.
Proof. induction d; simpl; auto. Qed.

Lemma toString_decimal (n : Z) :
  0 <= n -> Spec.decimal (JS.toString n) = true /\ JS.toString n <> "".
Proof.
  intros Hn. destruct n as [|p|p]; [split; [reflexivity | discriminate] | | lia].
  rewrite toString_pos. split; [apply decimal_uint|].
  pose proof (Unsigned.to_uint_nonnil p) as H.
  destruct (Pos.to_uint p); simpl; congruence.
Qed.

Lemma parseInt_digit_first (c : ascii) (s : string) :
  JS.digit c <> None -> JS.parseInt (String c s) = Some (JS.digits 0 (String c s)).
Proof.
  destruct c as [[|] [|] [|] [|] [|] [|] [|] [|]];
    try (intros H; exfalso; apply H; reflexivity);
    intros _; unfold JS.parseInt; cbn [JS.trimStart JS.isWhiteSpace];
    simpl; rewrite ?Z.add_0_r; try reflexivity;
    destruct (JS.digits _ s); reflexivity.
Qed.

Lemma parseInt_toString (n : Z) : 0 <= n -> JS.parseInt (JS.toString n) = Some n.
Proof.
  intros Hn. destruct (toString_decimal n Hn) as [Hd Hne].
  pose proof (digits_toString n "" Hn) as E.
  change (JS.digits n "") with n in E.
  replace (JS.toString n ++ "")%string with (JS.toString n) in E.
  - destruct (JS.toString n) as [|c s]; [congruence|].
    rewrite parseInt_digit_first, E; [reflexivity|].
    simpl in Hd. destruct (JS.digit c); [discriminate | discriminate].
  - clear. induction (JS.toString n) as [|c s IH]; simpl; [reflexivity | f_equal; exact IH].
Qed.

(** ** Map *)

Section MapFacts.
Context {V : Type}.
Implicit Types (m : JS.Map.t V) (k : string) (v : V).

Lemma get_set_same m k v : JS.Map.get k (JS.Map.set k v m) = Some v.
Proof.
  induction m as [|[k' v'] m IH]; simpl.
  - rewrite String.eqb_refl. reflexivity.
  - destruct (String.eqb k' k) eqn:E; simpl.
    + rewrite String.eqb_refl. reflexivity.
    + rewrite E. exact IH.
Qed.

Lemma get_set_other m k k' v :
  k' <> k -> JS.Map.get k' (JS.Map.set k v m) = JS.Map.get k' m.
Proof.
  intros Hne. induction m as [|[k0 v0] m IH]; simpl.
  - destruct (String.eqb_spec k k'); [congruence | reflexivity].
  - destruct (String.eqb_spec k0 k) as [-> | Hk]; simpl.
    + destruct (String.eqb_spec k k'); [congruence | reflexivity].
    + rewrite IH. reflexivity.
Qed.

Lemma keys_set_present m k v v0 :
  JS.Map.get k m = Some v0 -> JS.Map.keys (JS.Map.set k v m) = JS.Map.keys m.
Proof.
  unfold JS.Map.keys.
  induction m as [|[k' v'] m IH]; simpl; [discriminate|].
  destruct (String.eqb_spec k' k) as [-> | Hk]; simpl.
  - reflexivity.
  - intros H. rewrite IH by exact H. reflexivity.
Qed.

Lemma set_absent m k v :
  JS.Map.get k m = None -> JS.Map.set k v m = (m ++ [(k, v)])%list.
Proof.
  induction m as [|[k' v'] m IH]; simpl; [reflexivity|].
  destruct (String.eqb k' k); [discriminate|].
  intros H. rewrite IH by exact H. reflexivity.
Qed.

Lemma get_In m k v : JS.Map.get k m = Some v -> In v (JS.Map.values m).
Proof.
  induction m as [|[k' v'] m IH]; simpl; [discriminate|].
  destruct (String.eqb k' k).
  - intros H. injection H as ->. left. reflexivity.
  - intros H. right. apply IH. exact H.
Qed.

Lemma get_remove_same m k : JS.Map.get k (JS.Map.remove k m) = None.
Proof.
  induction m as [|[k' v'] m IH]; simpl; [reflexivity|].
  destruct (String.eqb k' k) eqn:E; simpl; [exact IH|].
  rewrite E. exact IH.
Qed.

Lemma get_remove_other m k k' :
  k' <> k -> JS.Map.get k' (JS.Map.remove k m) = JS.Map.get k' m.
Proof.
  intros Hne. induction m as [|[k0 v0] m IH]; simpl; [reflexivity|].
  destruct (String.eqb_spec k0 k) as [-> | Hk]; simpl.
  - rewrite IH. destruct (String.eqb_spec k k'); [congruence | reflexivity].
  - rewrite IH. reflexivity.
Qed.

Lemma remove_absent m k : JS.Map.get k m = None -> JS.Map.remove k m = m.
Proof.
  induction m as [|[k' v'] m IH]; simpl; [reflexivity|].
  destruct (String.eqb k' k); [discriminate|].
  intros H. rewrite IH by exact H. reflexivity.
Qed.

Lemma get_None_notin m k : JS.Map.get k m = None -> ~ In k (JS.Map.keys m).
Proof.
  unfold JS.Map.keys. induction m as [|[k' v'] m IH]; simpl; [tauto|].
  destruct (String.eqb_spec k' k) as [-> | Hk]; [discriminate|].
  intros H [E | Hin]; [congruence | exact (IH H Hin)].
Qed.

(** A map keeps one entry per key. *)
Lemma set_NoDup m k v :
  NoDup (JS.Map.keys m) -> NoDup (JS.Map.keys (JS.Map.set k v m)).
Proof.
  intros Hnd. destruct (JS.Map.get k m) as [v0|] eqn:Hget.
  - rewrite (keys_set_present m k v v0 Hget). exact Hnd.
  - rewrite set_absent by exact Hget. unfold JS.Map.keys in *.
    rewrite map_app. simpl.
    apply NoDup_app; [exact Hnd | repeat constructor; simpl; tauto |].
    intros x Hx [E | []]. subst x. exact (get_None_notin m k Hget Hx).
Qed.

Lemma remove_NoDup m k :
  NoDup (JS.Map.keys m) -> NoDup (JS.Map.keys (JS.Map.remove k m)).
Proof.
  unfold JS.Map.keys. induction m as [|[k' v'] m IH]; simpl; [tauto|].
  intros Hnd. inversion Hnd as [|? ? Hnotin Hnd']; subst.
  destruct (String.eqb k' k); simpl; [apply IH; exact Hnd'|].
  constructor; [|apply IH; exact Hnd'].
  intros Hin. apply Hnotin. clear - Hin.
  induction m as [|[k0 v0] m IHm]; simpl in *; [tauto|].
  destruct (String.eqb k0 k); simpl in *; tauto.
Qed.

Lemma remove_filter m k :
  JS.Map.remove k m = filter (fun e => negb (String.eqb (fst e) k)) m.
Proof.
  induction m as [|[k' v'] m IH]; simpl; [reflexivity|].
  destruct (String.eqb k' k); simpl; rewrite IH; reflexivity.
Qed.
End MapFacts.

(** ** Array.prototype.sort *)

Section SortFacts.
Context {A : Type}.
Variable compareFn : A -> A -> Z.
(** The comparison is that of a key: [a] may come first when its key is
    not the larger one. *)
Variable key : A -> Z.
Hypothesis compare_key : forall a b, compareFn a b <= 0 <-> key a <= key b.

Lemma insert_perm (x : A) (l : list A) :
  Permutation (x :: l) (JS.insert compareFn x l).
Proof.
  induction l as [|y l IH]; simpl; [reflexivity|].
  destruct (compareFn x y <=? 0); [reflexivity|].
  rewrite perm_swap. apply perm_skip. exact IH.
Qed.

Lemma sort_perm (l : list A) : Permutation l (JS.sort compareFn l).
Proof.
  induction l as [|x l IH]; simpl; [reflexivity|].
  rewrite <- insert_perm. apply perm_skip. exact IH.
Qed.

Lemma insert_sorted (x : A) (l : list A) :
  StronglySorted (fun a b => key a <= key b) l ->
  StronglySorted (fun a b => key a <= key b) (JS.insert compareFn x l).
Proof.
  induction 1 as [|y l Hs IH Hy]; simpl.
  - constructor; [constructor | constructor].
  - destruct (Z.leb_spec (compareFn x y) 0) as [Hle | Hgt].
    + apply compare_key in Hle. constructor.
      * constructor; assumption.
      * constructor; [exact Hle|].
        rewrite Forall_forall in Hy |- *. intros z Hz.
        specialize (Hy z Hz). lia.
    + assert (key y <= key x).
      { destruct (Z.le_gt_cases (key x) (key y)) as [Hc | Hc]; [|lia].
        apply compare_key in Hc. lia. }
      constructor; [exact IH|].
      rewrite Forall_forall in Hy |- *. intros z Hz.
      apply Permutation_in with (l' := x :: l) in Hz;
        [| symmetry; apply insert_perm].
      destruct Hz as [<- | Hz]; [assumption | apply Hy; assumption].
Qed.

Lemma sort_sorted (l : list A) :
  StronglySorted (fun a b => key a <= key b) (JS.sort compareFn l).
Proof.
  induction l as [|x l IH]; simpl; [constructor|].
  apply insert_sorted. exact IH.
Qed.

(** Stability: the elements of one key keep the order they had. *)
Lemma insert_stable (t : Z) (x : A) (l : list A) :
  filter (fun a => key a =? t) (JS.insert compareFn x l) =
  filter (fun a => key a =? t) (x :: l).
Proof.
  induction l as [|y l IH]; simpl; [reflexivity|].
  destruct (Z.leb_spec (compareFn x y) 0) as [Hle | Hgt]; [reflexivity|].
  simpl in *. rewrite IH.
  destruct (Z.eqb_spec (key x) t) as [Hx | Hx]; [|reflexivity].
  destruct (Z.eqb_spec (key y) t) as [Hy | Hy]; [|reflexivity].
  exfalso. assert (key x <= key y) as Hc by lia.
  apply compare_key in Hc. lia.
Qed.

Lemma sort_stable (t : Z) (l : list A) :
  filter (fun a => key a =? t) (JS.sort compareFn l) =
  filter (fun a => key a =? t) l.
Proof.
  induction l as [|x l IH]; simpl; [reflexivity|].
  rewrite insert_stable. simpl. rewrite IH. reflexivity.
Qed.

(** The three properties leave one list only, so [JS.sort] gives what
    every stable sort gives. *)
Lemma stable_sorted_unique (l l1 l2 : list A) :
  StronglySorted (fun a b => key a <= key b) l1 ->
  StronglySorted (fun a b => key a <= key b) l2 ->
  (forall t, filter (fun a => key a =? t) l1 = filter (fun a => key a =? t) l) ->
  (forall t, filter (fun a => key a =? t) l2 = filter (fun a => key a =? t) l) ->
  l1 = l2.
Proof.
  intros S1 S2 F1 F2.
  assert (F : forall t, filter (fun a => key a =? t) l1 =
                        filter (fun a => key a =? t) l2)
    by (intros t; rewrite F1, F2; reflexivity).
  clear F1 F2 l. revert l2 S2 F.
  induction S1 as [|x l1 S1 IH Hx]; intros l2 S2 F.
  - destruct l2 as [|y l2]; [reflexivity|].
    specialize (F (key y)). simpl in F. rewrite Z.eqb_refl in F. discriminate.
  - destruct S2 as [|y l2 S2 Hy].
    + specialize (F (key x)). simpl in F. rewrite Z.eqb_refl in F. discriminate.
    + assert (Hin : forall (u : A) (la lb : list A),
                 (forall t, filter (fun a => key a =? t) la =
                            filter (fun a => key a =? t) lb) ->
                 In u la -> In u lb).
      { intros u la lb E Hu.
        assert (In u (filter (fun a => key a =? key u) la)) as H
          by (apply filter_In; split; [exact Hu | apply Z.eqb_refl]).
        rewrite E in H. apply filter_In in H. tauto. }
      assert (Hxy : key x = key y).
      { assert (In x (y :: l2)) as H1 by (apply (Hin x _ _ F); left; reflexivity).
        assert (In y (x :: l1)) as H2
          by (apply (Hin y (y :: l2) (x :: l1));
              [intros t; symmetry; apply F | left; reflexivity]).
        rewrite Forall_forall in Hx, Hy.
        destruct H1 as [-> | H1]; [reflexivity|].
        destruct H2 as [<- | H2]; [reflexivity|].
        specialize (Hy x H1). specialize (Hx y H2). lia. }
      pose proof (F (key x)) as Fx. simpl in Fx.
      rewrite Z.eqb_refl in Fx. rewrite <- Hxy, Z.eqb_refl in Fx.
      injection Fx as -> _. f_equal. apply IH; [exact S2|].
      intros t. specialize (F t). simpl in F.
      destruct (key y =? t); [injection F as F|]; exact F.
Qed.
End SortFacts.

(* ================================================================== *)
(** * The content store                                                *)
(* ================================================================== *)

Import Schema Storage.

(** ** Partial updates *)

Lemma property_assign_same (c : AudioContent) (p : AudioContentProperty) :
  property (key_of p) (assign c p) = value_of p.
Proof. destruct c, p; reflexivity. Qed.

Lemma property_assign_other (c : AudioContent) (p : AudioContentProperty)
    (k : AudioContentKey) :
  key_of p <> k -> property k (assign c p) = property k c.
Proof. destruct c, p, k; simpl; intros H; solve [reflexivity | congruence]. Qed.

Lemma property_spread_other (updates : PartialAudioContent) (c : AudioContent)
    (k : AudioContentKey) :
  ~ In k (map key_of updates) -> property k (spread c updates) = property k c.
Proof.
  unfold spread. revert c.
  induction updates as [|p updates IH]; intros c H; simpl; [reflexivity|].
  simpl in H. rewrite IH by tauto. apply property_assign_other. tauto.
Qed.

Lemma property_spread_last (pre post : PartialAudioContent)
    (p : AudioContentProperty) (c : AudioContent) :
  ~ In (key_of p) (map key_of post) ->
  property (key_of p) (spread c (pre ++ p :: post)%list) = value_of p.
Proof.
  intros H. unfold spread. rewrite fold_left_app. simpl.
  fold (spread (assign (fold_left assign pre c) p) post).
  rewrite property_spread_other by exact H.
  apply property_assign_same.
Qed.

Lemma getAudioContent_update_same (i : string) (updates : PartialAudioContent)
    (st : MemStorage) (content : AudioContent) :
  getAudioContent i st = Some content ->
  getAudioContent i (snd (updateAudioContent i updates st)) =
  Some (spread content updates).
Proof.
  unfold getAudioContent, updateAudioContent. intros ->. simpl.
  apply get_set_same.
Qed.

Lemma getAudioContent_update_other (i j : string) (updates : PartialAudioContent)
    (st : MemStorage) :
  j <> i ->
  getAudioContent j (snd (updateAudioContent i updates st)) = getAudioContent j st.
Proof.
  unfold getAudioContent, updateAudioContent. intros Hne.
  destruct (JS.Map.get i (audioContent st)); simpl; [|reflexivity].
  apply get_set_other. exact Hne.
Qed.

Lemma updateAudioContent_absent (i : string) (updates : PartialAudioContent)
    (st : MemStorage) :
  getAudioContent i st = None -> updateAudioContent i updates st = (None, st).
Proof. unfold getAudioContent, updateAudioContent. intros ->. reflexivity. Qed.

(** C9. [updateAudioContent] on a record that exists returns the record
    with the properties of the update written over it: a property the
    update does not name keeps its value, a property it names takes the
    value given (the last one, if it is named twice); the merged record is
    what the store then holds under the identifier, the other records, the
    order of the records and the other maps are as before.  On an
    identifier that is absent it returns [undefined] (here [None], which no
    update of a record returns) and leaves the store as it is. *)
Theorem updateAudioContent_partial_merge (st : MemStorage) (i : string)
    (updates : PartialAudioContent) :
  (forall content, getAudioContent i st = Some content ->
     exists merged st',
       updateAudioContent i updates st = (Some merged, st') /\
       merged = spread content updates /\
       (forall k, ~ In k (map key_of updates) ->
                  property k merged = property k content) /\
       (forall pre p post,
          updates = (pre ++ p :: post)%list ->
          ~ In (key_of p) (map key_of post) ->
          property (key_of p) merged = value_of p) /\
       getAudioContent i st' = Some merged /\
       (forall j, j <> i -> getAudioContent j st' = getAudioContent j st) /\
       JS.Map.keys (audioContent st') = JS.Map.keys (audioContent st) /\
       users st' = users st /\ highlights st' = highlights st /\
       transcriptSegments st' = transcriptSegments st) /\
  (getAudioContent i st = None ->
     updateAudioContent i updates st = (None, st)).
Proof.
  split.
  - intros content Hc.
    exists (spread content updates), (snd (updateAudioContent i updates st)).
    repeat split.
    + unfold getAudioContent in Hc. unfold updateAudioContent. rewrite Hc.
      reflexivity.
    + intros k Hk. apply property_spread_other. exact Hk.
    + intros pre p post -> Hp. apply property_spread_last. exact Hp.
    + apply getAudioContent_update_same. exact Hc.
    + intros j Hj. apply getAudioContent_update_other. exact Hj.
    + unfold getAudioContent in Hc. unfold updateAudioContent. rewrite Hc. simpl.
      eapply keys_set_present. exact Hc.
    + unfold getAudioContent in Hc. unfold updateAudioContent. rewrite Hc.
      reflexivity.
    + unfold getAudioContent in Hc. unfold updateAudioContent. rewrite Hc.
      reflexivity.
    + unfold getAudioContent in Hc. unfold updateAudioContent. rewrite Hc.
      reflexivity.
  - apply updateAudioContent_absent.
Qed.

(** C9 at a progress update of the record [a1]: the title is as before. *)
Lemma updateAudioContent_partial_merge_example :
  exists merged st',
    updateAudioContent "a1" [Set_progress (Some 42)] Examples.example_store =
    (Some merged, st') /\
    property K_progress merged = V_integer (Some 42) /\
    property K_title merged = V_string "Lecture 1" /\
    updateAudioContent "a2" [Set_progress (Some 42)] Examples.example_store =
    (None, Examples.example_store).
Proof.
  destruct (updateAudioContent_partial_merge
              Examples.example_store "a1" [Set_progress (Some 42)]) as [H _].
  destruct (H _ eq_refl) as [merged [st' [Hu [_ [Hother [Hnamed _]]]]]].
  exists merged, st'. split; [exact Hu|]. split; [|split].
  - apply (Hnamed [] (Set_progress (Some 42)) []); [reflexivity | simpl; tauto].
  - rewrite (Hother K_title); [reflexivity|]. simpl. intuition discriminate.
  - destruct (updateAudioContent_partial_merge
                Examples.example_store "a2" [Set_progress (Some 42)]) as [_ H'].
    apply H'. reflexivity.
Defined.

(** [updateHighlight] merges in the same way. *)
Lemma updateHighlight_partial_merge (st : MemStorage) (i : string)
    (updates : PartialHighlight) :
  (forall highlight, getHighlight i st = Some highlight ->
     fst (updateHighlight i updates st) = Some (hl_spread highlight updates) /\
     getHighlight i (snd (updateHighlight i updates st)) =
     Some (hl_spread highlight updates) /\
     (forall j, j <> i ->
        getHighlight j (snd (updateHighlight i updates st)) = getHighlight j st) /\
     audioContent (snd (updateHighlight i updates st)) = audioContent st) /\
  (getHighlight i st = None -> updateHighlight i updates st = (None, st)).
Proof.
  unfold getHighlight, updateHighlight. split.
  - intros highlight ->. simpl. split; [reflexivity|]. split; [apply get_set_same|].
    split; [|reflexivity]. intros j Hj. apply get_set_other. exact Hj.
  - intros ->. reflexivity.
Qed.

(** ** Deletion *)

Lemma fold_remove_filter {V : Type} (ks : list (string * V)) (m : JS.Map.t V) :
  fold_left (fun m '(i, _) => snd (JS.Map.delete i m)) ks m =
  filter (fun e => negb (existsb (String.eqb (fst e)) (map fst ks))) m.
Proof.
  revert m. induction ks as [|[k v] ks IH]; intros m; simpl.
  - induction m as [|e m IHm]; simpl; [reflexivity | f_equal; exact IHm].
  - rewrite IH, remove_filter. clear IH.
    induction m as [|[k' v'] m IHm]; simpl; [reflexivity|].
    rewrite (String.eqb_sym k' k).
    destruct (String.eqb k k'); simpl; [exact IHm|].
    destruct (existsb (String.eqb k') (map fst ks)); simpl;
      [exact IHm | f_equal; exact IHm].
Qed.

Lemma NoDup_keys_functional {V : Type} (m : JS.Map.t V) (k : string) (v v' : V) :
  NoDup (JS.Map.keys m) -> In (k, v) m -> In (k, v') m -> v = v'.
Proof.
  unfold JS.Map.keys. induction m as [|[k0 v0] m IH]; simpl; [tauto|].
  intros Hnd. inversion Hnd as [|? ? Hnotin Hnd']; subst.
  intros [H1 | H1] [H2 | H2].
  - congruence.
  - injection H1 as -> ->. exfalso. apply Hnotin.
    apply (in_map fst) in H2. exact H2.
  - injection H2 as -> ->. exfalso. apply Hnotin.
    apply (in_map fst) in H1. exact H1.
  - apply IH; assumption.
Qed.

Lemma filter_none {A : Type} (f : A -> bool) (l : list A) :
  (forall x, In x l -> f x = false) -> filter f l = [].
Proof.
  induction l as [|x l IH]; simpl; intros H; [reflexivity|].
  rewrite (H x) by (left; reflexivity). apply IH. intros y Hy. apply H. right. exact Hy.
Qed.

Lemma deleteTranscriptSegments_map (a : string) (st : MemStorage) :
  transcriptSegments (snd (deleteTranscriptSegments a st)) =
  filter (fun e =>
            negb (existsb (String.eqb (fst e))
                    (map fst (filter (fun '(_, segment) =>
                                        String.eqb (seg_audioContentId segment) a)
                                     (transcriptSegments st)))))
         (transcriptSegments st).
Proof.
  unfold deleteTranscriptSegments, JS.Map.entries. simpl.
  apply fold_remove_filter.
Qed.

Lemma deleteTranscriptSegments_removes (a : string) (st : MemStorage)
    (seg : TranscriptSegment) :
  In seg (JS.Map.values (transcriptSegments (snd (deleteTranscriptSegments a st)))) ->
  seg_audioContentId seg <> a.
Proof.
  rewrite deleteTranscriptSegments_map. unfold JS.Map.values.
  intros H. apply in_map_iff in H. destruct H as [[k s] [Hs H]]. simpl in Hs. subst s.
  apply filter_In in H. destruct H as [Hin Hk]. simpl in Hk.
  intros Ha. apply negb_true_iff in Hk.
  assert (existsb (String.eqb k)
            (map fst (filter (fun '(_, segment) =>
                                String.eqb (seg_audioContentId segment) a)
                             (transcriptSegments st))) = true) as Hex; [|congruence].
  apply existsb_exists. exists k. split; [|apply String.eqb_refl].
  apply in_map_iff. exists (k, seg). split; [reflexivity|].
  apply filter_In. split; [exact Hin|]. apply String.eqb_eq. exact Ha.
Qed.

Lemma deleteTranscriptSegments_keeps (a : string) (st : MemStorage) :
  NoDup (JS.Map.keys (transcriptSegments st)) ->
  transcriptSegments (snd (deleteTranscriptSegments a st)) =
  filter (fun e => negb (String.eqb (seg_audioContentId (snd e)) a))
         (transcriptSegments st).
Proof.
  intros Hnd. rewrite deleteTranscriptSegments_map.
  apply filter_ext_in. intros [k s] Hin. simpl. f_equal.
  destruct (String.eqb_spec (seg_audioContentId s) a) as [Ha | Ha].
  - apply existsb_exists. exists k. split; [|apply String.eqb_refl].
    apply in_map_iff. exists (k, s). split; [reflexivity|].
    apply filter_In. split; [exact Hin|]. apply String.eqb_eq. exact Ha.
  - apply not_true_is_false. intros Hex. apply existsb_exists in Hex.
    destruct Hex as [k' [Hk' Heq]]. apply String.eqb_eq in Heq. subst k'.
    apply in_map_iff in Hk'. destruct Hk' as [[k' s'] [Hfst Hf]]. simpl in Hfst. subst k'.
    apply filter_In in Hf. destruct Hf as [Hin' Hpar]. apply String.eqb_eq in Hpar.
    assert (s = s') by (eapply NoDup_keys_functional; eassumption).
    subst s'. contradiction.
Qed.

Lemma with_highlights_same (st : MemStorage) : with_highlights st (highlights st) = st.
Proof. destruct st; reflexivity. Qed.

Lemma with_audioContent_same (st : MemStorage) :
  with_audioContent st (audioContent st) = st.
Proof. destruct st; reflexivity. Qed.

(** C6, as the code has it.  [deleteHighlight] and [deleteAudioContent]
    return [false] and leave the store as it is for an identifier that is
    not there, and return [true] and take the record away, and no other,
    for one that is.  [deleteTranscriptSegments] returns [true] for every
    identifier, with or without segments: after it the audio item has no
    segment, and in a map with one entry per key the segments of the other
    items are all kept, in their order. *)
Theorem delete_reports (st : MemStorage) (i : string) :
  (getHighlight i st = None -> deleteHighlight i st = (false, st)) /\
  (forall h, getHighlight i st = Some h ->
     fst (deleteHighlight i st) = true /\
     getHighlight i (snd (deleteHighlight i st)) = None /\
     forall j, j <> i ->
       getHighlight j (snd (deleteHighlight i st)) = getHighlight j st) /\
  (getAudioContent i st = None -> deleteAudioContent i st = (false, st)) /\
  (forall c, getAudioContent i st = Some c ->
     fst (deleteAudioContent i st) = true /\
     getAudioContent i (snd (deleteAudioContent i st)) = None /\
     forall j, j <> i ->
       getAudioContent j (snd (deleteAudioContent i st)) = getAudioContent j st) /\
  fst (deleteTranscriptSegments i st) = true /\
  getTranscriptSegments i (snd (deleteTranscriptSegments i st)) = [] /\
  (NoDup (JS.Map.keys (transcriptSegments st)) ->
   JS.Map.values (transcriptSegments (snd (deleteTranscriptSegments i st))) =
   filter (fun segment => negb (String.eqb (seg_audioContentId segment) i))
          (JS.Map.values (transcriptSegments st))).
Proof.
  repeat split.
  - unfold getHighlight, deleteHighlight, JS.Map.delete, JS.Map.has.
    intros H. rewrite H, remove_absent by exact H.
    rewrite with_highlights_same. reflexivity.
  - unfold getHighlight, deleteHighlight, JS.Map.delete, JS.Map.has in *.
    rewrite H. reflexivity.
  - unfold getHighlight, deleteHighlight, JS.Map.delete. simpl.
    apply get_remove_same.
  - intros j Hj. unfold getHighlight, deleteHighlight, JS.Map.delete. simpl.
    apply get_remove_other. exact Hj.
  - unfold getAudioContent, deleteAudioContent, JS.Map.delete, JS.Map.has.
    intros H. rewrite H, remove_absent by exact H.
    rewrite with_audioContent_same. reflexivity.
  - unfold getAudioContent, deleteAudioContent, JS.Map.delete, JS.Map.has in *.
    rewrite H. reflexivity.
  - unfold getAudioContent, deleteAudioContent, JS.Map.delete. simpl.
    apply get_remove_same.
  - intros j Hj. unfold getAudioContent, deleteAudioContent, JS.Map.delete. simpl.
    apply get_remove_other. exact Hj.
  - unfold getTranscriptSegments. rewrite filter_none; [reflexivity|].
    intros seg Hseg. apply deleteTranscriptSegments_removes in Hseg.
    apply String.eqb_neq. exact Hseg.
  - intros Hnd. rewrite deleteTranscriptSegments_keeps by exact Hnd.
    unfold JS.Map.values. clear Hnd.
    induction (transcriptSegments st) as [|[k s] m IH]; simpl; [reflexivity|].
    destruct (String.eqb (seg_audioContentId s) i); simpl; [exact IH|].
    f_equal. exact IH.
Qed.

(** C6 as it is written fails: in a store whose only segment belongs to
    the audio item [a2], [deleteTranscriptSegments] of [a1], which is
    neither an audio item nor the parent of a segment, returns [true]. *)
Lemma deleteTranscriptSegments_absent_true :
  let st :=
    snd (createTranscriptSegment "s1"
           (mkInsertTranscriptSegment "a2" 0 5 "hello" None 1) Storage.empty) in
  getAudioContent "a1" st = None /\
  getTranscriptSegments "a1" st = [] /\
  fst (deleteTranscriptSegments "a1" st) = true.
Proof. repeat split. Qed.

(** C6, as the code has it, at a store with the highlight [h1]. *)
Lemma delete_reports_example :
  fst (deleteHighlight "h1" Examples.highlighted) = true /\
  deleteHighlight "h2" Examples.highlighted = (false, Examples.highlighted) /\
  fst (deleteTranscriptSegments "h2" Examples.highlighted) = true.
Proof.
  destruct (delete_reports Examples.highlighted "h1") as [_ [Hpresent _]].
  destruct (delete_reports Examples.highlighted "h2")
    as [Habsent [_ [_ [_ [Hsegments _]]]]].
  destruct (Hpresent _ eq_refl) as [Htrue _].
  split; [exact Htrue|]. split; [apply Habsent; reflexivity | exact Hsegments].
Defined.

(** ** Queries *)

(** C7. [getAudioContentByUser] returns the records of the user, each as
    often as the store has it, with the later [lastAccessedAt] first (a
    [null] one counts as time [0]), and records of one [lastAccessedAt] in
    the order of their insertion into the map. *)
Theorem getAudioContentByUser_sorted_stable (user : string) (st : MemStorage) :
  let owned :=
    filter (fun c => String.eqb (userId c) user) (JS.Map.values (audioContent st)) in
  let result := getAudioContentByUser user st in
  (forall c, In c result <->
             In c (JS.Map.values (audioContent st)) /\ userId c = user) /\
  Permutation owned result /\
  StronglySorted
    (fun a b => getTime (lastAccessedAt a) >= getTime (lastAccessedAt b)) result /\
  (forall t,
     filter (fun c => getTime (lastAccessedAt c) =? t) result =
     filter (fun c => getTime (lastAccessedAt c) =? t) owned).
Proof.
  intros owned result.
  set (cmp := fun a b : AudioContent =>
                getTime (lastAccessedAt b) - getTime (lastAccessedAt a)).
  set (key := fun a : AudioContent => - getTime (lastAccessedAt a)).
  assert (Hkey : forall a b, cmp a b <= 0 <-> key a <= key b)
    by (intros a b; unfold cmp, key; lia).
  assert (Hperm : Permutation owned result) by apply sort_perm.
  split; [|split; [|split]].
  - intros c. split.
    + intros H. apply Permutation_in with (l' := owned) in H;
        [|symmetry; exact Hperm].
      apply filter_In in H. rewrite String.eqb_eq in H. exact H.
    + intros [H1 H2]. apply Permutation_in with (l := owned); [exact Hperm|].
      apply filter_In. split; [exact H1 | apply String.eqb_eq; exact H2].
  - exact Hperm.
  - pose proof (sort_sorted cmp key Hkey owned) as Hs.
    fold result in Hs.
    eapply StronglySorted_ind with
      (P := fun l => StronglySorted
                       (fun a b => getTime (lastAccessedAt a) >=
                                   getTime (lastAccessedAt b)) l);
      [constructor | | exact Hs].
    intros a l _ IH Ha. constructor; [exact IH|].
    eapply Forall_impl; [|exact Ha]. intros b Hb. unfold key in Hb. lia.
  - intros t.
    pose proof (sort_stable cmp key Hkey (- t) owned) as Hst.
    fold result in Hst.
    assert (E : forall l,
               filter (fun c => getTime (lastAccessedAt c) =? t) l =
               filter (fun a => key a =? - t) l).
    { intros l. apply filter_ext. intros a. unfold key.
      destruct (Z.eqb_spec (getTime (lastAccessedAt a)) t);
        destruct (Z.eqb_spec (- getTime (lastAccessedAt a)) (- t)); lia. }
    rewrite !E. exact Hst.
Qed.

(** C7 at a store where the user has [a1] and [a3] of time 5 and [a2]
    of time 9, inserted in the order [a1], [a2], [a3]. *)
Lemma getAudioContentByUser_sorted_stable_example :
  map id (getAudioContentByUser "user-123" Examples.library) = ["a2"; "a1"; "a3"] /\
  map id (filter (fun c => getTime (lastAccessedAt c) =? 5)
                 (getAudioContentByUser "user-123" Examples.library)) = ["a1"; "a3"].
Proof.
  split; [reflexivity|].
  destruct (getAudioContentByUser_sorted_stable "user-123" Examples.library)
    as [_ [_ [_ Hstable]]].
  rewrite (Hstable 5). reflexivity.
Defined.

(** [getHighlightsByAudioContent] returns the highlights of the audio
    item with the earlier [startTime] first, highlights of one [startTime]
    in the order of their insertion. *)
Theorem getHighlightsByAudioContent_sorted (audioContentId : string)
    (st : MemStorage) :
  let owned :=
    filter (fun h => String.eqb (hl_audioContentId h) audioContentId)
           (JS.Map.values (highlights st)) in
  let result := getHighlightsByAudioContent audioContentId st in
  Permutation owned result /\
  StronglySorted (fun a b => hl_startTime a <= hl_startTime b) result /\
  (forall t,
     filter (fun h => hl_startTime h =? t) result =
     filter (fun h => hl_startTime h =? t) owned).
Proof.
  intros owned result.
  assert (Hkey : forall a b : Highlight,
             hl_startTime a - hl_startTime b <= 0 <-> hl_startTime a <= hl_startTime b)
    by (intros a b; lia).
  split; [apply sort_perm|]. split.
  - apply (sort_sorted _ hl_startTime Hkey).
  - intros t. apply (sort_stable _ hl_startTime Hkey).
Qed.

(** [getTranscriptSegments] returns the segments of the audio item with
    the smaller [sequenceNumber] first, segments of one number in the
    order of their insertion. *)
Theorem getTranscriptSegments_sorted (audioContentId : string) (st : MemStorage) :
  let owned :=
    filter (fun s => String.eqb (seg_audioContentId s) audioContentId)
           (JS.Map.values (transcriptSegments st)) in
  let result := getTranscriptSegments audioContentId st in
  Permutation owned result /\
  StronglySorted (fun a b => seg_sequenceNumber a <= seg_sequenceNumber b) result /\
  (forall t,
     filter (fun s => seg_sequenceNumber s =? t) result =
     filter (fun s => seg_sequenceNumber s =? t) owned).
Proof.
  intros owned result.
  assert (Hkey : forall a b : TranscriptSegment,
             seg_sequenceNumber a - seg_sequenceNumber b <= 0 <->
             seg_sequenceNumber a <= seg_sequenceNumber b)
    by (intros a b; lia).
  split; [apply sort_perm|]. split.
  - apply (sort_sorted _ seg_sequenceNumber Hkey).
  - intros t. apply (sort_stable _ seg_sequenceNumber Hkey).
Qed.

Lemma includes_opt_spec (x : option string) (q : string) :
  includes_opt x (JS.toLowerCase q) = true <-> Spec.substring_ci_opt q x.
Proof.
  unfold includes_opt, Spec.substring_ci_opt.
  destruct x as [s|].
  - rewrite includes_spec, <- substring_ci_lower. split.
    + intros H. exists s. split; [reflexivity | exact H].
    + intros [s' [E H]]. injection E as ->. exact H.
  - split; [discriminate | intros [s' [E _]]; discriminate].
Qed.

(** C8. [searchAudioContent] keeps, in the order of the store, the records
    of the user in which the query is a substring of the title, the source,
    the transcript text or the summary, the case of letters left aside; a
    record just created with the title [Lecture 1] and no source is among
    those found for [lecture]. *)
Theorem searchAudioContent_exact (user : string) (st : MemStorage) :
  (forall query,
     exists found : AudioContent -> bool,
       searchAudioContent user query st =
       filter found (JS.Map.values (audioContent st)) /\
       forall c,
         found c = true <->
         userId c = user /\
         (Spec.substring_ci query (title c) \/
          Spec.substring_ci_opt query (source c) \/
          Spec.substring_ci_opt query (transcriptionText c) \/
          Spec.substring_ci_opt query (aiSummary c))) /\
  (forall uuid now now' a,
     ia_userId a = user -> ia_title a = "Lecture 1" -> ia_source a = None ->
     In (fst (createAudioContent uuid now now' a st))
        (searchAudioContent user "lecture"
           (snd (createAudioContent uuid now now' a st)))).
Proof.
  split.
  - intros query. eexists. split; [reflexivity|].
    intros c. simpl.
    rewrite andb_true_iff, !orb_true_iff, String.eqb_eq, includes_spec,
      !includes_opt_spec, <- substring_ci_lower.
    tauto.
  - intros uuid now now' a Hu Ht Hs.
    unfold searchAudioContent. apply filter_In. split.
    + simpl. apply (get_In _ uuid). apply get_set_same.
    + simpl. rewrite Hu, Ht, String.eqb_refl. reflexivity.
Qed.

(** C8 at the empty store: the record made with the title [Lecture 1]
    is found for [lecture]. *)
Lemma searchAudioContent_exact_example :
  map title (searchAudioContent "user-123" "lecture" Examples.example_store) =
  ["Lecture 1"] /\
  In (fst (createAudioContent "a1" 0 0
             (mkInsertAudioContent "user-123" "Lecture 1" None "talk.mp3" "uploads/f1"
                                   None (Some 10) (Some "audio/mpeg"))
             Storage.empty))
     (searchAudioContent "user-123" "lecture" Examples.example_store).
Proof.
  split; [reflexivity|].
  destruct (searchAudioContent_exact "user-123" Storage.empty) as [_ H].
  apply (H "a1" 0 0
           (mkInsertAudioContent "user-123" "Lecture 1" None "talk.mp3" "uploads/f1"
                                 None (Some 10) (Some "audio/mpeg")));
    reflexivity.
Defined.

(* ================================================================== *)
(** * Serving audio                                                    *)
(* ================================================================== *)

Import Routes.

Lemma window_length (data : list Byte.byte) (s e : Z) :
  0 <= s -> s <= e -> e < Z.of_nat (List.length data) ->
  Z.of_nat (List.length (window data s e)) = e - s + 1.
Proof.
  intros Hs He Hlen. unfold window.
  rewrite length_firstn, length_skipn. lia.
Qed.

Lemma serveAudio_range_response (files : FileSystem) (st : MemStorage) (i : string)
    (content : AudioContent) (data : list Byte.byte) (c : ascii) (range : string) :
  getAudioContent i st = Some content ->
  files (filePath content) = Some data ->
  serveAudio files st i (Some (String c range)) =
  let fileSize := Z.of_nat (List.length data) in
  let start := rangeStart (String c range) in
  let end_ := rangeEnd (String c range) fileSize in
  match createReadStream data start end_ with
  | None => json 500 "Failed to serve audio file"
  | Some file =>
      mkResponse 206
        (Some ("bytes " ++ show start ++ "-" ++ show end_ ++ "/" ++ JS.toString fileSize))
        (Some "bytes") (Some (chunksize start end_)) (Stream file)
  end.
Proof. intros Hc Hf. unfold serveAudio. rewrite Hc, Hf. reflexivity. Qed.

(** ** Reading the header *)

Lemma digit_not_dash (c : ascii) : JS.digit c <> None -> Ascii.eqb c "-" = false.
Proof.
  intros H. destruct (Ascii.eqb_spec c "-") as [-> | _]; [|reflexivity].
  exfalso. apply H. reflexivity.
Qed.

Lemma split_decimal (s : string) :
  Spec.decimal s = true -> JS.split "-" s = [s].
Proof.
  induction s as [|c s IH]; simpl; [reflexivity|].
  destruct (JS.digit c) eqn:Hc; [|discriminate].
  intros H. rewrite digit_not_dash by congruence.
  rewrite IH by exact H. reflexivity.
Qed.

Lemma split_decimal_dash (s rest : string) :
  Spec.decimal s = true ->
  JS.split "-" (s ++ String "-" rest) = s :: JS.split "-" rest.
Proof.
  induction s as [|c s IH]; simpl; [reflexivity|].
  destruct (JS.digit c) eqn:Hc; [|discriminate].
  intros H. rewrite digit_not_dash by congruence.
  rewrite IH by exact H. reflexivity.
Qed.

(** A header [bytes=first-last] written with two numbers is read as
    these numbers, and a header [bytes=first-] as the first one and the
    last byte of the file. *)
Lemma byte_range_read (first last fileSize : Z) :
  0 <= first -> 0 <= last ->
  rangeStart (Spec.byte_range first last) = Some first /\
  rangeEnd (Spec.byte_range first last) fileSize = Some last /\
  rangeStart (Spec.byte_range_from first) = Some first /\
  rangeEnd (Spec.byte_range_from first) fileSize = Some (fileSize - 1).
Proof.
  intros Hf Hl.
  destruct (toString_decimal first Hf) as [Hdf _].
  destruct (toString_decimal last Hl) as [Hdl Hnl].
  unfold rangeStart, rangeEnd, rangeParts, Spec.byte_range, Spec.byte_range_from.
  cbn [JS.replace JS.startsWith String.append Ascii.eqb Bool.eqb andb
       String.length JS.drop].
  rewrite !split_decimal_dash by exact Hdf.
  rewrite split_decimal by exact Hdl.
  cbn [nth nth_error JS.split JS.truthy_string].
  rewrite !parseInt_toString by assumption.
  destruct (JS.toString last); [congruence|]. repeat split.
Qed.

Lemma serveAudio_numbers (files : FileSystem) (st : MemStorage) (i : string)
    (content : AudioContent) (data : list Byte.byte) (range : string)
    (start end_ : Z) :
  getAudioContent i st = Some content ->
  files (filePath content) = Some data ->
  range <> "" ->
  rangeStart range = Some start ->
  rangeEnd range (Z.of_nat (List.length data)) = Some end_ ->
  serveAudio files st i (Some range) =
  if ((0 <=? start) && (start <=? JS.MAX_SAFE_INTEGER) &&
      ((0 <=? end_) && (end_ <=? JS.MAX_SAFE_INTEGER)) && (start <=? end_))%bool
  then mkResponse 206
         (Some ("bytes " ++ JS.toString start ++ "-" ++ JS.toString end_ ++ "/"
                        ++ JS.toString (Z.of_nat (List.length data))))
         (Some "bytes") (Some (Some (end_ - start + 1)))
         (Stream (window data start end_))
  else json 500 "Failed to serve audio file".
Proof.
  intros Hc Hf Hne Hs He.
  destruct range as [|c range]; [congruence|].
  rewrite (serveAudio_range_response files st i content data) by assumption.
  cbv zeta. rewrite Hs, He. unfold createReadStream, validPosition.
  destruct ((0 <=? start) && (start <=? JS.MAX_SAFE_INTEGER) &&
            ((0 <=? end_) && (end_ <=? JS.MAX_SAFE_INTEGER)) && (start <=? end_))%bool;
    reflexivity.
Qed.

Lemma byte_range_not_empty (first last : Z) : Spec.byte_range first last <> "".
Proof. unfold Spec.byte_range. discriminate. Qed.

(** C4. For a record that exists and whose file is there, the request
    with [Range: bytes=0-99] on a file of 1000 bytes is answered with
    status 206, [Content-Range: bytes 0-99/1000], [Content-Length: 100] and
    the first 100 bytes of the file.  In general a request for the bytes
    from [first] to [last], with [0 <= first <= last] in the range of
    safe integers, is answered with 206 and [Content-Length] equal to
    [last - first + 1]; and whenever a request with a [Range] is answered
    with 206, the range was read as numbers [start <= end],
    [Content-Length] is [end - start + 1] and the body is the window from
    [start] to [end], which has [end - start + 1] bytes when [end] is
    inside the file. *)
Theorem serveAudio_partial_content (files : FileSystem) (st : MemStorage)
    (i : string) (content : AudioContent) (data : list Byte.byte) :
  getAudioContent i st = Some content ->
  files (filePath content) = Some data ->
  (List.length data = 1000%nat ->
   serveAudio files st i (Some "bytes=0-99") =
   mkResponse 206 (Some "bytes 0-99/1000") (Some "bytes") (Some (Some 100))
              (Stream (firstn 100 data))) /\
  (forall first last,
     0 <= first -> first <= last -> last <= JS.MAX_SAFE_INTEGER ->
     serveAudio files st i (Some (Spec.byte_range first last)) =
     mkResponse 206
       (Some ("bytes " ++ JS.toString first ++ "-" ++ JS.toString last ++ "/"
                      ++ JS.toString (Z.of_nat (List.length data))))
       (Some "bytes") (Some (Some (last - first + 1)))
       (Stream (window data first last))) /\
  (forall range,
     status (serveAudio files st i (Some range)) = 206 ->
     exists start end_,
       rangeStart range = Some start /\
       rangeEnd range (Z.of_nat (List.length data)) = Some end_ /\
       start <= end_ /\
       contentLength (serveAudio files st i (Some range)) =
       Some (Some (end_ - start + 1)) /\
       contentRange (serveAudio files st i (Some range)) =
       Some ("bytes " ++ JS.toString start ++ "-" ++ JS.toString end_ ++ "/"
                      ++ JS.toString (Z.of_nat (List.length data))) /\
       body (serveAudio files st i (Some range)) = Stream (window data start end_) /\
       (end_ < Z.of_nat (List.length data) ->
        Z.of_nat (List.length (window data start end_)) = end_ - start + 1)).
Proof.
  intros Hc Hf. split; [|split].
  - intros Hlen.
    rewrite (serveAudio_range_response files st i content data) by assumption.
    rewrite Hlen. reflexivity.
  - intros first last H0 Hle Hmax.
    destruct (byte_range_read first last (Z.of_nat (List.length data)))
      as [Hs [He _]]; [lia | lia |].
    rewrite (serveAudio_numbers files st i content data _ first last Hc Hf
               (byte_range_not_empty first last) Hs He).
    repeat match goal with
           | |- context [?a <=? ?b] => destruct (Z.leb_spec a b); [|lia]
           end.
    reflexivity.
  - intros [|c range].
    + unfold serveAudio. rewrite Hc, Hf. simpl. discriminate.
    + rewrite (serveAudio_range_response files st i content data) by assumption.
      cbv zeta. unfold createReadStream.
      destruct (rangeStart (String c range)) as [s|]; [|simpl; discriminate].
      destruct (rangeEnd (String c range) (Z.of_nat (List.length data))) as [e|];
        [|simpl; discriminate].
      destruct (validPosition (Some s) && validPosition (Some e) && (s <=? e))%bool
        eqn:Hv; [|simpl; discriminate].
      intros _. apply andb_true_iff in Hv. destruct Hv as [Hv Hse].
      apply andb_true_iff in Hv. destruct Hv as [Hvs Hve].
      unfold validPosition in Hvs, Hve.
      apply andb_true_iff in Hvs. destruct Hvs as [Hs0 _].
      apply Z.leb_le in Hs0, Hse.
      exists s, e. simpl. repeat split; try assumption.
      intros Hlen. apply window_length; assumption.
Qed.

(** C10, as the code has it.  A range read as numbers [start] and [end]
    that are positions of a read stream with [start <= end] is answered
    with 206, [Content-Length] equal to [end - start + 1], [Content-Range]
    written from [start], [end] and the size of the file, and the window
    from [start] to [end] as body, however [end] stands to the size of the
    file: nothing is checked against it.  A range read as numbers with
    [start > end] is answered with 500, since the read stream is refused.
    An end that is missing or empty in the header is taken as the size of
    the file less one.  So a request for the bytes from [first] to [last]
    gets 206 when [first <= last] and 500 when [last < first]. *)
Theorem serveAudio_range_unclamped (files : FileSystem) (st : MemStorage)
    (i : string) (content : AudioContent) (data : list Byte.byte) :
  getAudioContent i st = Some content ->
  files (filePath content) = Some data ->
  (forall range start end_,
     range <> "" ->
     rangeStart range = Some start ->
     rangeEnd range (Z.of_nat (List.length data)) = Some end_ ->
     (0 <= start -> start <= end_ -> end_ <= JS.MAX_SAFE_INTEGER ->
      serveAudio files st i (Some range) =
      mkResponse 206
        (Some ("bytes " ++ JS.toString start ++ "-" ++ JS.toString end_ ++ "/"
                       ++ JS.toString (Z.of_nat (List.length data))))
        (Some "bytes") (Some (Some (end_ - start + 1)))
        (Stream (window data start end_))) /\
     (end_ < start ->
      serveAudio files st i (Some range) = json 500 "Failed to serve audio file")) /\
  (forall range,
     nth_error (rangeParts range) 1 = None \/
     nth_error (rangeParts range) 1 = Some "" ->
     rangeEnd range (Z.of_nat (List.length data)) =
     Some (Z.of_nat (List.length data) - 1)) /\
  (forall first last,
     0 <= first -> first <= last -> last <= JS.MAX_SAFE_INTEGER ->
     status (serveAudio files st i (Some (Spec.byte_range first last))) = 206 /\
     contentLength (serveAudio files st i (Some (Spec.byte_range first last))) =
     Some (Some (last - first + 1))) /\
  (forall first last,
     0 <= last -> last < first ->
     serveAudio files st i (Some (Spec.byte_range first last)) =
     json 500 "Failed to serve audio file").
Proof.
  intros Hc Hf. split; [|split; [|split]].
  - intros range start end_ Hne Hs He.
    rewrite (serveAudio_numbers files st i content data range start end_)
      by assumption.
    split.
    + intros H0 Hse Hmax.
      repeat match goal with
             | |- context [?a <=? ?b] => destruct (Z.leb_spec a b); [|lia]
             end.
      reflexivity.
    + intros Hlt. destruct (Z.leb_spec start end_); [lia|].
      rewrite andb_false_r. reflexivity.
  - intros range Hn. unfold rangeEnd.
    destruct Hn as [Hn | Hn]; rewrite Hn; reflexivity.
  - intros first last H0 Hle Hmax.
    destruct (byte_range_read first last (Z.of_nat (List.length data)))
      as [Hs [He _]]; [lia | lia |].
    rewrite (serveAudio_numbers files st i content data _ first last Hc Hf
               (byte_range_not_empty first last) Hs He).
    repeat match goal with
           | |- context [?a <=? ?b] => destruct (Z.leb_spec a b); [|lia]
           end.
    split; reflexivity.
  - intros first last H0 Hlt.
    destruct (byte_range_read first last (Z.of_nat (List.length data)))
      as [Hs [He _]]; [lia | lia |].
    rewrite (serveAudio_numbers files st i content data _ first last Hc Hf
               (byte_range_not_empty first last) Hs He).
    destruct (Z.leb_spec first last); [lia|].
    rewrite andb_false_r. reflexivity.
Qed.

(** C4 at the record [a1] with a file of 1000 bytes. *)
Lemma serveAudio_partial_content_example :
  getAudioContent "a1" Examples.example_store <> None /\
  List.length (repeat Byte.x00 1000) = 1000%nat /\
  serveAudio (Examples.example_files 1000) Examples.example_store "a1"
             (Some "bytes=0-99") =
  mkResponse 206 (Some "bytes 0-99/1000") (Some "bytes") (Some (Some 100))
             (Stream (repeat Byte.x00 100)).
Proof.
  split; [discriminate|]. split; [reflexivity|].
  destruct (serveAudio_partial_content
              (Examples.example_files 1000) Examples.example_store "a1"
              _ _ eq_refl eq_refl) as [H _].
  rewrite H by reflexivity. reflexivity.
Defined.

(** C10 as it is written fails: for [Range: bytes=5-2], read as the
    numbers 5 and 2, on a file of ten bytes the answer is 500, since the
    read stream refuses a start after the end. *)
Lemma serveAudio_start_after_end :
  rangeStart "bytes=5-2" = Some 5 /\
  rangeEnd "bytes=5-2" 10 = Some 2 /\
  serveAudio (Examples.example_files 10) Examples.example_store "a1"
             (Some "bytes=5-2") =
  json 500 "Failed to serve audio file".
Proof. repeat split. Qed.

(** C10, as the code has it, at [Range: bytes=0-99] on a file of ten
    bytes: the answer is 206 and announces 100 bytes from 0 to 99, though
    the file ends at byte 9. *)
Lemma serveAudio_range_unclamped_example :
  rangeStart "bytes=0-99" = Some 0 /\
  rangeEnd "bytes=0-99" 10 = Some 99 /\
  serveAudio (Examples.example_files 10) Examples.example_store "a1"
             (Some "bytes=0-99") =
  mkResponse 206 (Some "bytes 0-99/10") (Some "bytes") (Some (Some 100))
             (Stream (repeat Byte.x00 10)).
Proof.
  split; [reflexivity|]. split; [reflexivity|].
  destruct (serveAudio_range_unclamped
              (Examples.example_files 10) Examples.example_store "a1"
              _ _ eq_refl eq_refl) as [H _].
  destruct (H "bytes=0-99" 0 99 ltac:(discriminate) eq_refl eq_refl) as [H206 _].
  rewrite H206 by (vm_compute; discriminate). reflexivity.
Defined.

(* ================================================================== *)
(** * The AI gateway                                                   *)
(* ================================================================== *)

Import Gateway.

(** C5, as the code has it.  With a response that has a first choice:
    when its content is [null] or empty, or is JSON for a value other than
    [null] that has no member [summary] and no member [keywords],
    [generateSummary] returns the placeholder summary and no keyword; in an
    object, a summary that is missing or falsy alone is replaced by the
    placeholder, and keywords that are missing or not an array alone by the
    empty list.  When the content is not JSON, or is JSON for [null],
    [generateSummary] throws an error. *)
Theorem generateSummary_defaults
    (completion : string -> provider (list (option string)))
    (transcriptionText : string) (content : option string)
    (rest : list (option string)) :
  completion transcriptionText = Resolves (content :: rest) ->
  (content = None \/ content = Some "" ->
   generateSummary completion transcriptionText =
   Returns (mkSummary placeholder [])) /\
  (forall result,
     JSON.parse (content_or_empty_object content) = Some result ->
     (forall members, result <> JSON.Object members) ->
     result <> JSON.Null ->
     generateSummary completion transcriptionText =
     Returns (mkSummary placeholder [])) /\
  (forall members,
     JSON.parse (content_or_empty_object content) = Some (JSON.Object members) ->
     exists s,
       generateSummary completion transcriptionText = Returns s /\
       (JSON.member (JSON.codeUnits "summary") members = None ->
        summary s = placeholder) /\
       (forall v, JSON.member (JSON.codeUnits "summary") members = Some v ->
                  summary s = if JSON.truthy v then v else placeholder) /\
       (JSON.member (JSON.codeUnits "keywords") members = None ->
        keywords s = []) /\
       (forall v, JSON.member (JSON.codeUnits "keywords") members = Some v ->
                  keywords s = match v with JSON.Array l => l | _ => [] end)) /\
  (JSON.parse (content_or_empty_object content) = None ->
   generateSummary completion transcriptionText =
   Throws "Failed to generate summary: " SyntaxError) /\
  (JSON.parse (content_or_empty_object content) = Some JSON.Null ->
   generateSummary completion transcriptionText =
   Throws "Failed to generate summary: " TypeError).
Proof.
  intros Hc. unfold generateSummary. rewrite Hc.
  split; [|split; [|split; [|split]]].
  - intros [-> | ->]; reflexivity.
  - intros result -> Hobj Hnull.
    destruct result; try reflexivity.
    + congruence.
    + exfalso. apply (Hobj members). reflexivity.
  - intros members ->. unfold read.
    destruct (JSON.member (JSON.codeUnits "summary") members) as [vs|];
      destruct (JSON.member (JSON.codeUnits "keywords") members) as [vk|];
      eexists; (split; [reflexivity|]); simpl;
      repeat split; try discriminate; try reflexivity;
      intros v Hv; injection Hv as ->; reflexivity.
  - intros ->. reflexivity.
  - intros ->. reflexivity.
Qed.

(** The response the provider is asked for is returned as it is. *)
Example generateSummary_as_asked :
  generateSummary (Examples.answers Examples.summary_object) "a talk" =
  Returns (mkSummary (JSON.Str (JSON.codeUnits "A talk about birds"))
                     [JSON.Str (JSON.codeUnits "birds");
                      JSON.Str (JSON.codeUnits "migration")]).
Proof. reflexivity. Qed.

(** A response with no choice, and a content that is JSON for [null], make
    [generateSummary] throw as well. *)
Example generateSummary_no_choice :
  generateSummary (fun _ => Resolves []) "a talk" =
  Throws "Failed to generate summary: " TypeError /\
  generateSummary (Examples.answers "null") "a talk" =
  Throws "Failed to generate summary: " TypeError.
Proof. split; reflexivity. Qed.

(** C5 as it is written fails: a response whose content is a sentence,
    not JSON, makes [generateSummary] throw. *)
Lemma generateSummary_malformed_throws :
  generateSummary (Examples.answers "Summary: a talk about birds") "a talk" =
  Throws "Failed to generate summary: " SyntaxError.
Proof. reflexivity. Qed.

(** C5, as the code has it, at a response that is an object with a title
    and nothing else. *)
Lemma generateSummary_defaults_example :
  generateSummary (Examples.answers Examples.titled_object) "a talk" =
  Returns (mkSummary placeholder []).
Proof.
  destruct (generateSummary_defaults
              (Examples.answers Examples.titled_object) "a talk"
              _ _ eq_refl) as [_ [_ [H _]]].
  destruct (H _ eq_refl) as [s [Hs [H1 [_ [H2 _]]]]].
  rewrite Hs. destruct s as [sm kw]. simpl in H1, H2.
  rewrite (H1 eq_refl), (H2 eq_refl). reflexivity.
Defined.

(* ================================================================== *)
(** * The ingestion pipeline                                           *)
(* ================================================================== *)

Import Pipeline.

Lemma getAudioContent_update (i j : string) (updates : PartialAudioContent)
    (st : MemStorage) :
  getAudioContent j (snd (updateAudioContent i updates st)) =
  if String.eqb j i
  then option_map (fun c => spread c updates) (getAudioContent i st)
  else getAudioContent j st.
Proof.
  destruct (String.eqb_spec j i) as [-> | Hne].
  - destruct (getAudioContent i st) as [c|] eqn:Hc.
    + apply getAudioContent_update_same. exact Hc.
    + rewrite updateAudioContent_absent by exact Hc. exact Hc.
  - apply getAudioContent_update_other. exact Hne.
Qed.

Lemma status_spread_other (c : AudioContent) (updates : PartialAudioContent) :
  ~ In K_transcriptionStatus (map key_of updates) ->
  transcriptionStatus (spread c updates) = transcriptionStatus c.
Proof.
  intros H. pose proof (property_spread_other updates c _ H) as E.
  simpl in E. congruence.
Qed.

(** The job run at once is the job run step by step. *)
Lemma run_by_steps (transcribeAudio : Transcriber) (generateSummary : Summarizer)
    (contentId filePath : string) (st : MemStorage) :
  run transcribeAudio generateSummary contentId filePath st =
  let st1 :=
    snd (updateAudioContent contentId
           [Set_transcriptionStatus (Some "processing")] st) in
  let r :=
    transcribeAudio filePath (option_map fileName (getAudioContent contentId st1)) in
  match transcriptionSettled contentId r st1 with
  | (st2, Summarizing text) => summarySettled contentId (generateSummary text) st2
  | (st2, _) => st2
  end.
Proof.
  unfold run, processAudioFile, try_catch, bind, storage, storage_get.
  destruct (updateAudioContent contentId
              [Set_transcriptionStatus (Some "processing")] st) as [u st1].
  cbn [snd].
  destruct (transcribeAudio filePath
              (option_map fileName (getAudioContent contentId st1))) as [text | prefix m];
    cbn [await ret transcriptionSettled fst snd].
  - destruct (updateAudioContent contentId
                [Set_transcriptionStatus (Some "completed");
                 Set_transcriptionText (Some text); Set_duration None] st1)
      as [u2 st2].
    cbn [snd].
    destruct (generateSummary text) as [[summary_ keywords_] | p c];
      cbn [await ret summarySettled bind].
    + destruct (updateAudioContent contentId
                  [Set_aiSummary (Some summary_); Set_keywords (Some keywords_)] st2)
        as [u3 st3].
      reflexivity.
    + reflexivity.
  - destruct (updateAudioContent contentId
                [Set_transcriptionStatus (Some "error");
                 Set_transcriptionText (Some (errorText (prefix ++ m)))] st1)
      as [u2 st2].
    reflexivity.
Qed.

Lemma run_transcribed (transcribeAudio : Transcriber) (generateSummary : Summarizer)
    (contentId filePath : string) (st : MemStorage) (content : AudioContent)
    (text : string) :
  getAudioContent contentId st = Some content ->
  transcribeAudio filePath (Some (fileName content)) = Gateway.Returns text ->
  run transcribeAudio generateSummary contentId filePath st =
  summarySettled contentId (generateSummary text)
    (snd (updateAudioContent contentId
            [Set_transcriptionStatus (Some "completed");
             Set_transcriptionText (Some text); Set_duration None]
            (snd (updateAudioContent contentId
                    [Set_transcriptionStatus (Some "processing")] st)))).
Proof.
  intros Hc Ht. rewrite run_by_steps. cbv zeta.
  rewrite (getAudioContent_update_same _ _ _ _ Hc).
  replace (option_map fileName
             (Some (spread content [Set_transcriptionStatus (Some "processing")])))
    with (Some (fileName content)) by (destruct content; reflexivity).
  rewrite Ht. reflexivity.
Qed.

Lemma run_transcription_failed (transcribeAudio : Transcriber)
    (generateSummary : Summarizer) (contentId filePath : string) (st : MemStorage)
    (content : AudioContent) (prefix m : string) :
  getAudioContent contentId st = Some content ->
  transcribeAudio filePath (Some (fileName content)) = Gateway.Throws prefix m ->
  run transcribeAudio generateSummary contentId filePath st =
  snd (updateAudioContent contentId
         [Set_transcriptionStatus (Some "error");
          Set_transcriptionText (Some (errorText (prefix ++ m)))]
         (snd (updateAudioContent contentId
                 [Set_transcriptionStatus (Some "processing")] st))).
Proof.
  intros Hc Ht. rewrite run_by_steps. cbv zeta.
  rewrite (getAudioContent_update_same _ _ _ _ Hc).
  replace (option_map fileName
             (Some (spread content [Set_transcriptionStatus (Some "processing")])))
    with (Some (fileName content)) by (destruct content; reflexivity).
  rewrite Ht. reflexivity.
Qed.

(** C2. When the record is in the store, the transcription returns a text
    and the summary throws, the record after the run has the status
    [completed] and the text as [transcriptionText]; its [aiSummary] and
    [keywords] are those it had before the run, so [null] and [[]] for a
    record that [createAudioContent] has just made, and of the other
    properties only [duration] is written. *)
Theorem summary_failure_keeps_completed (transcribeAudio : Transcriber)
    (generateSummary : Summarizer) (contentId filePath : string) (st : MemStorage)
    (content : AudioContent) (text prefix : string) (c : Gateway.cause) :
  getAudioContent contentId st = Some content ->
  transcribeAudio filePath (Some (fileName content)) = Gateway.Returns text ->
  generateSummary text = Gateway.Throws prefix c ->
  exists content',
    getAudioContent contentId
      (run transcribeAudio generateSummary contentId filePath st) = Some content' /\
    transcriptionStatus content' = Some "completed" /\
    transcriptionText content' = Some text /\
    aiSummary content' = aiSummary content /\
    Schema.keywords content' = Schema.keywords content /\
    (forall uuid now now' a st0,
       createAudioContent uuid now now' a st0 = (content, st) ->
       aiSummary content' = None /\ Schema.keywords content' = Some []) /\
    (forall k,
       k <> K_transcriptionStatus -> k <> K_transcriptionText -> k <> K_duration ->
       property k content' = property k content).
Proof.
  intros Hc Ht Hs.
  rewrite (run_transcribed _ _ _ _ _ _ _ Hc Ht), Hs. cbn [summarySettled].
  eexists. split.
  - apply getAudioContent_update_same. apply getAudioContent_update_same. exact Hc.
  - destruct content. cbn.
    do 4 (split; [reflexivity|]). split.
    + intros uuid now now' a st0 H. unfold createAudioContent in H.
      injection H as H _. split; congruence.
    + intros k H1 H2 H3. destruct k; solve [reflexivity | congruence].
Qed.

(** C2 at the upload of a file whose transcription is [Hello] and whose
    summary the provider rejects. *)
Lemma summary_failure_keeps_completed_example :
  let st := Examples.example_store in
  let st' :=
    run (Examples.transcribes "Hello") Examples.summary_rejected "a1" "uploads/f1" st in
  option_map transcriptionStatus (getAudioContent "a1" st) = Some (Some "pending") /\
  option_map transcriptionStatus (getAudioContent "a1" st') = Some (Some "completed") /\
  option_map transcriptionText (getAudioContent "a1" st') = Some (Some "Hello") /\
  option_map aiSummary (getAudioContent "a1" st') = Some None /\
  option_map Schema.keywords (getAudioContent "a1" st') = Some (Some []).
Proof.
  cbv zeta. split; [reflexivity|].
  destruct (summary_failure_keeps_completed
              (Examples.transcribes "Hello") Examples.summary_rejected
              "a1" "uploads/f1" Examples.example_store _ "Hello" _ _
              eq_refl eq_refl eq_refl)
    as [content' [Hget [Hstatus [Htext [Hsum [Hkw _]]]]]].
  rewrite Hget. cbn [option_map]. rewrite Hstatus, Htext, Hsum, Hkw.
  repeat split.
Defined.

(** C3. When the record is in the store and the transcription throws an
    error, the record after the run has the status [error]; its
    [transcriptionText] is the quota message when the message of the error
    has [429] or [quota] in it, and [Error: Transcription failed] when it
    has neither; the other properties are as before the run. *)
Theorem transcription_failure_text (transcribeAudio : Transcriber)
    (generateSummary : Summarizer) (contentId filePath : string) (st : MemStorage)
    (content : AudioContent) (prefix m : string) :
  getAudioContent contentId st = Some content ->
  transcribeAudio filePath (Some (fileName content)) = Gateway.Throws prefix m ->
  exists content',
    getAudioContent contentId
      (run transcribeAudio generateSummary contentId filePath st) = Some content' /\
    transcriptionStatus content' = Some "error" /\
    (Spec.substring "429" (prefix ++ m) \/ Spec.substring "quota" (prefix ++ m) ->
     transcriptionText content' =
     Some "Error: OpenAI quota exceeded. Please add credits to your OpenAI account."
     /\ exists text,
          transcriptionText content' = Some text /\
          Spec.substring
            "OpenAI quota exceeded. Please add credits to your OpenAI account." text) /\
    (~ Spec.substring "429" (prefix ++ m) -> ~ Spec.substring "quota" (prefix ++ m) ->
     transcriptionText content' = Some "Error: Transcription failed"
     /\ exists text,
          transcriptionText content' = Some text /\
          Spec.substring "Transcription failed" text) /\
    (forall k,
       k <> K_transcriptionStatus -> k <> K_transcriptionText ->
       property k content' = property k content).
Proof.
  intros Hc Ht.
  rewrite (run_transcription_failed _ _ _ _ _ _ _ _ Hc Ht).
  eexists. split.
  - apply getAudioContent_update_same. apply getAudioContent_update_same. exact Hc.
  - destruct content. cbn. unfold errorText.
    split; [reflexivity|]. split; [|split].
    + intros H.
      assert ((JS.includes (prefix ++ m) "quota" || JS.includes (prefix ++ m) "429")%bool
              = true) as E.
      { apply orb_true_iff.
        destruct H as [H | H]; apply includes_spec in H; [right | left]; exact H. }
      rewrite E. split; [reflexivity|].
      eexists. split; [reflexivity|]. exists "Error: ", "". reflexivity.
    + intros H1 H2. apply includes_false in H1, H2. rewrite H1, H2.
      split; [reflexivity|].
      eexists. split; [reflexivity|]. exists "Error: ", "". reflexivity.
    + intros k H1 H2. destruct k; solve [reflexivity | congruence].
Qed.

(** C3 at a transcription that the provider rejects with a message that
    begins with [429]. *)
Lemma transcription_failure_text_example :
  let st' :=
    run (Examples.transcription_rejected "429 You exceeded your current quota")
        Examples.summarizes "a1" "uploads/f1" Examples.example_store in
  option_map transcriptionStatus (getAudioContent "a1" st') = Some (Some "error") /\
  option_map transcriptionText (getAudioContent "a1" st') =
  Some (Some "Error: OpenAI quota exceeded. Please add credits to your OpenAI account.").
Proof.
  cbv zeta.
  destruct (transcription_failure_text
              (Examples.transcription_rejected "429 You exceeded your current quota")
              Examples.summarizes "a1" "uploads/f1" Examples.example_store
              _ _ _ eq_refl eq_refl)
    as [content' [Hget [Hstatus [Hquota _]]]].
  rewrite Hget. cbn [option_map]. rewrite Hstatus.
  destruct Hquota as [Htext _].
  - left. apply includes_spec. reflexivity.
  - rewrite Htext. split; reflexivity.
Defined.

(** ** The status of a record over the life of the server *)

Lemma get_set {V : Type} (m : JS.Map.t V) (i j : string) (v : V) :
  JS.Map.get j (JS.Map.set i v m) =
  if String.eqb j i then Some v else JS.Map.get j m.
Proof.
  destruct (String.eqb_spec j i) as [-> | Hne].
  - apply get_set_same.
  - apply get_set_other. exact Hne.
Qed.

Lemma terminal_kept_refl (st : MemStorage) : terminal_kept st st.
Proof. intros i c Hc _. exists c. split; [exact Hc | reflexivity]. Qed.

Lemma terminal_kept_trans (st1 st2 st3 : MemStorage) :
  terminal_kept st1 st2 -> terminal_kept st2 st3 -> terminal_kept st1 st3.
Proof.
  intros H12 H23 i c Hc Ht.
  destruct (H12 i c Hc Ht) as [c2 [Hc2 E2]].
  destruct (H23 i c2 Hc2) as [c3 [Hc3 E3]]; [rewrite E2; exact Ht|].
  exists c3. split; [exact Hc3 | congruence].
Qed.

(** An update that does not name the status keeps the status of every
    record. *)
Lemma update_frame_consistent (st : MemStorage) (js : JS.Map.t Job) (i : string)
    (updates : PartialAudioContent) :
  ~ In K_transcriptionStatus (map key_of updates) ->
  consistent (mkServer st js) ->
  consistent (mkServer (snd (updateAudioContent i updates st)) js).
Proof.
  intros Hk Hcons j. specialize (Hcons j). simpl in *.
  rewrite getAudioContent_update.
  destruct (String.eqb_spec j i) as [-> | Hne]; [|exact Hcons].
  destruct (getAudioContent i st) as [c|]; simpl; [|exact Hcons].
  rewrite status_spread_other by exact Hk. exact Hcons.
Qed.

Lemma update_frame_kept (st : MemStorage) (i : string) (updates : PartialAudioContent) :
  ~ In K_transcriptionStatus (map key_of updates) ->
  terminal_kept st (snd (updateAudioContent i updates st)).
Proof.
  intros Hk j c Hc _. rewrite getAudioContent_update.
  destruct (String.eqb_spec j i) as [-> | Hne].
  - rewrite Hc. simpl. eexists. split; [reflexivity|].
    apply status_spread_other. exact Hk.
  - exists c. split; [exact Hc | reflexivity].
Qed.

(** An update that writes a status to the record of a job that is at a
    point where the status is not [completed] or [error]. *)
Lemma update_job_consistent (st : MemStorage) (js : JS.Map.t Job) (i : string)
    (updates : PartialAudioContent) (j j' : Job) :
  JS.Map.get i js = Some j ->
  (forall c, job_status j (transcriptionStatus c) ->
             job_status j' (transcriptionStatus (spread c updates))) ->
  consistent (mkServer st js) ->
  consistent (mkServer (snd (updateAudioContent i updates st)) (JS.Map.set i j' js)).
Proof.
  intros Hj Hstatus Hcons k. pose proof (Hcons k) as Hk. simpl in *.
  rewrite getAudioContent_update, get_set.
  destruct (String.eqb_spec k i) as [-> | Hne]; [|exact Hk].
  rewrite Hj in Hk.
  destruct (getAudioContent i st) as [c|]; simpl; [|exact Hk].
  apply Hstatus. exact Hk.
Qed.

Lemma update_job_kept (st : MemStorage) (js : JS.Map.t Job) (i : string)
    (updates : PartialAudioContent) (j : Job) :
  JS.Map.get i js = Some j ->
  (forall x, job_status j x -> terminal x = false) ->
  consistent (mkServer st js) ->
  terminal_kept st (snd (updateAudioContent i updates st)).
Proof.
  intros Hj Hnt Hcons k c Hc Ht. rewrite getAudioContent_update.
  destruct (String.eqb_spec k i) as [-> | Hne].
  - exfalso. specialize (Hcons i). simpl in Hcons. rewrite Hc, Hj in Hcons.
    apply Hnt in Hcons. congruence.
  - exists c. split; [exact Hc | reflexivity].
Qed.

Lemma has_false {V : Type} (k : string) (m : JS.Map.t V) :
  JS.Map.has k m = false -> JS.Map.get k m = None.
Proof. unfold JS.Map.has. destruct (JS.Map.get k m); [discriminate | reflexivity]. Qed.

Lemma updateProgress_store (now : Z) (i : string) (p : option Z) (st : MemStorage) :
  snd (updateProgress now i p st) =
  snd (updateAudioContent i [Set_progress p; Set_lastAccessedAt (Some now)] st).
Proof.
  unfold updateProgress.
  destruct (updateAudioContent i [Set_progress p; Set_lastAccessedAt (Some now)] st)
    as [[u|] st']; reflexivity.
Qed.

Lemma summarize_store (generateSummary : Summarizer) (i : string) (st : MemStorage) :
  snd (summarize generateSummary i st) = st \/
  exists summary_ keywords_,
    snd (summarize generateSummary i st) =
    snd (updateAudioContent i
           [Set_aiSummary (Some summary_); Set_keywords (Some keywords_)] st).
Proof.
  unfold summarize.
  destruct (getAudioContent i st) as [c|]; [|left; reflexivity].
  destruct (or_else (transcriptionText c) None) as [text|]; [|left; reflexivity].
  destruct (generateSummary text) as [[summary_ keywords_] | p c'];
    [|left; reflexivity].
  right. exists summary_, keywords_.
  destruct (updateAudioContent i
              [Set_aiSummary (Some summary_); Set_keywords (Some keywords_)] st)
    as [u st']. reflexivity.
Qed.

Lemma removeHighlight_audioContent (i : string) (st : MemStorage) :
  audioContent (snd (removeHighlight i st)) = audioContent st.
Proof.
  unfold removeHighlight, deleteHighlight, JS.Map.delete.
  destruct (JS.Map.has i (highlights st)); reflexivity.
Qed.

Lemma upload_effect (uuid : string) (now now' : Z) (file : option UploadedFile)
    (title_ source_ : option string) (st : MemStorage) :
  (snd (fst (upload uuid now now' file title_ source_ st)) = st /\
   snd (upload uuid now now' file title_ source_ st) = None) \/
  exists content filePath,
    transcriptionStatus content = Some "pending" /\
    audioContent (snd (fst (upload uuid now now' file title_ source_ st))) =
    JS.Map.set uuid content (audioContent st) /\
    snd (upload uuid now now' file title_ source_ st) = Some (uuid, filePath).
Proof.
  unfold upload.
  destruct file as [f|]; [|left; split; reflexivity].
  destruct (or_else title_ None) as [t|]; [|left; split; reflexivity].
  right. eexists. eexists. simpl. split; [|split; reflexivity]. reflexivity.
Qed.

Ltac not_the_status :=
  simpl; intuition discriminate.

(** One step keeps records and jobs consistent, and keeps every status
    that is [completed] or [error]. *)
Lemma step_invariant (e : Event) (s s' : Server) :
  consistent s -> step e s = Some s' ->
  consistent s' /\ terminal_kept (store s) (store s').
Proof.
  intros Hcons Hstep. destruct s as [st js].
  destruct e as [uuid now now' file title_ source_ | now contentId progress_
                | gs contentId | uuid now h | highlightId
                | contentId | contentId r | contentId r];
    simpl in Hstep.
  - (* Upload *)
    destruct (JS.Map.has uuid (audioContent st)) eqn:Hhas; [discriminate|].
    apply has_false in Hhas.
    destruct (upload_effect uuid now now' file title_ source_ st)
      as [[Hst Hjob] | [content [filePath [Hstatus [Hmap Hjob]]]]];
      destruct (upload uuid now now' file title_ source_ st) as [[r st1] job];
      simpl in Hst || simpl in Hmap; simpl in Hjob; subst job.
    + subst st1. injection Hstep as <-. split; [exact Hcons | apply terminal_kept_refl].
    + injection Hstep as <-. split.
      * intros k. specialize (Hcons k). simpl in *. unfold getAudioContent in *.
        rewrite Hmap, !get_set.
        destruct (String.eqb k uuid); [exact Hstatus | exact Hcons].
      * intros k c Hc _. simpl in *. unfold getAudioContent in *.
        rewrite Hmap, get_set.
        destruct (String.eqb_spec k uuid) as [-> | Hne]; [congruence|].
        exists c. split; [exact Hc | reflexivity].
  - (* UpdateProgress *)
    injection Hstep as <-. simpl. rewrite updateProgress_store. split.
    + apply update_frame_consistent; [not_the_status | exact Hcons].
    + apply update_frame_kept. not_the_status.
  - (* Summarize *)
    injection Hstep as <-. simpl.
    destruct (summarize_store gs contentId st) as [E | [sm [kw E]]];
      rewrite E.
    + split; [exact Hcons | apply terminal_kept_refl].
    + split.
      * apply update_frame_consistent; [not_the_status | exact Hcons].
      * apply update_frame_kept. not_the_status.
  - (* CreateHighlight *)
    injection Hstep as <-. split; [exact Hcons|].
    intros k c Hc _. exists c. split; [exact Hc | reflexivity].
  - (* RemoveHighlight *)
    injection Hstep as <-. split.
    + intros k. specialize (Hcons k). simpl in *. unfold getAudioContent in *.
      rewrite removeHighlight_audioContent. exact Hcons.
    + intros k c Hc _. simpl in *. unfold getAudioContent in *.
      rewrite removeHighlight_audioContent. exists c. split; [exact Hc | reflexivity].
  - (* Start *)
    destruct (JS.Map.get contentId js) as [[fp | | t |]|] eqn:Hj; try discriminate.
    injection Hstep as <-. simpl. split.
    + eapply update_job_consistent; [exact Hj | | exact Hcons].
      intros c _. destruct c. reflexivity.
    + eapply update_job_kept; [exact Hj | | exact Hcons].
      intros x Hx. simpl in Hx. subst x. reflexivity.
  - (* TranscriptionSettled *)
    destruct (JS.Map.get contentId js) as [[fp | | t |]|] eqn:Hj; try discriminate.
    destruct r as [text | prefix m]; simpl in Hstep; injection Hstep as <-; simpl.
    + split.
      * eapply update_job_consistent; [exact Hj | | exact Hcons].
        intros c _. destruct c. reflexivity.
      * eapply update_job_kept; [exact Hj | | exact Hcons].
        intros x Hx. simpl in Hx. subst x. reflexivity.
    + split.
      * eapply update_job_consistent; [exact Hj | | exact Hcons].
        intros c _. destruct c. right. reflexivity.
      * eapply update_job_kept; [exact Hj | | exact Hcons].
        intros x Hx. simpl in Hx. subst x. reflexivity.
  - (* SummarySettled *)
    destruct (JS.Map.get contentId js) as [[fp | | t |]|] eqn:Hj; try discriminate.
    injection Hstep as <-. simpl.
    destruct r as [[sm kw] | prefix c]; simpl.
    + split.
      * eapply update_job_consistent; [exact Hj | | exact Hcons].
        intros c Hc. simpl in Hc. rewrite status_spread_other by not_the_status.
        left. exact Hc.
      * apply update_frame_kept. not_the_status.
    + split; [|apply terminal_kept_refl].
      intros k. specialize (Hcons k). simpl in *. rewrite get_set.
      destruct (String.eqb_spec k contentId) as [-> | Hne]; [|exact Hcons].
      rewrite Hj in Hcons.
      destruct (getAudioContent contentId st); [left; exact Hcons | exact Hcons].
Qed.

Lemma steps_invariant (es : list Event) (s s' : Server) :
  consistent s -> steps es s = Some s' ->
  consistent s' /\ terminal_kept (store s) (store s').
Proof.
  revert s. induction es as [|e es IH]; intros s Hcons Hsteps; simpl in Hsteps.
  - injection Hsteps as <-. split; [exact Hcons | apply terminal_kept_refl].
  - destruct (step e s) as [s1|] eqn:He; [|discriminate].
    destruct (step_invariant e s s1 Hcons He) as [Hc1 Hk1].
    destruct (IH s1 Hc1 Hsteps) as [Hc' Hk'].
    split; [exact Hc' | eapply terminal_kept_trans; eassumption].
Qed.

Lemma initial_consistent : consistent initial.
Proof. intros i. exact I. Qed.

Lemma consistent_known (s : Server) (i : string) (c : AudioContent) :
  consistent s -> getAudioContent i (store s) = Some c ->
  known (transcriptionStatus c) = true.
Proof.
  intros Hcons Hc. specialize (Hcons i). rewrite Hc in Hcons.
  destruct (JS.Map.get i (jobs s)) as [[fp | | t |]|]; simpl in Hcons;
    try contradiction; try (rewrite Hcons; reflexivity).
  destruct Hcons as [-> | ->]; reflexivity.
Qed.

(** C1. In every state that the server reaches from its start by uploads,
    progress updates, summary requests, changes of highlights and the
    steps of the jobs, every record has one of the four statuses; and from
    such a state on, through whatever events follow, a record whose status
    is [completed] or [error] stays in the store with that status. *)
Theorem status_lifecycle (es : list Event) (s : Server) :
  steps es initial = Some s ->
  (forall i c,
     getAudioContent i (store s) = Some c ->
     known (transcriptionStatus c) = true) /\
  (forall es' s',
     steps es' s = Some s' ->
     forall i c,
       getAudioContent i (store s) = Some c ->
       terminal (transcriptionStatus c) = true ->
       exists c',
         getAudioContent i (store s') = Some c' /\
         transcriptionStatus c' = transcriptionStatus c).
Proof.
  intros Hreach.
  destruct (steps_invariant es initial s initial_consistent Hreach) as [Hcons _].
  split.
  - intros i c Hc. eapply consistent_known; eassumption.
  - intros es' s' Hsteps.
    destruct (steps_invariant es' s s' Hcons Hsteps) as [_ Hkept].
    exact Hkept.
Qed.

(** The invariant is one of the server, not of the store:
    [updateAudioContent] writes whatever status it is given, also over
    [completed]; no route and no step of a job calls it so. *)
Remark updateAudioContent_writes_any_status :
  let st :=
    snd (updateAudioContent "a1" [Set_transcriptionStatus (Some "completed")]
           Examples.example_store) in
  option_map transcriptionStatus (getAudioContent "a1" st) =
  Some (Some "completed") /\
  option_map transcriptionStatus
    (getAudioContent "a1"
       (snd (updateAudioContent "a1" [Set_transcriptionStatus (Some "pending")] st))) =
  Some (Some "pending").
Proof. split; reflexivity. Qed.

(** C1 at an upload whose job reaches [completed]: the failed summary,
    the summary on request and the progress update that follow leave the
    status as it is. *)
Lemma status_lifecycle_example :
  exists s s',
    steps Examples.events_to_completed initial = Some s /\
    steps Examples.events_after_completed s = Some s' /\
    option_map transcriptionStatus (getAudioContent "a1" (store s)) =
    Some (Some "completed") /\
    option_map transcriptionStatus (getAudioContent "a1" (store s')) =
    Some (Some "completed") /\
    option_map aiSummary (getAudioContent "a1" (store s')) =
    Some (Some "A talk about birds").
Proof.
  eexists. eexists.
  split; [reflexivity|]. split; [reflexivity|]. split; [reflexivity|].
  split; [|reflexivity].
  destruct (status_lifecycle Examples.events_to_completed _ eq_refl) as [_ Hkept].
  destruct (Hkept Examples.events_after_completed _ eq_refl "a1" _ eq_refl eq_refl)
    as [c' [Hc' Hstatus]].
  rewrite Hc'. cbn [option_map]. rewrite Hstatus. reflexivity.
Defined.

(** The steps of a job, taken one after the other with no other event in
    between, come to the store of the job run at once. *)
Lemma run_is_steps (transcribeAudio : Transcriber) (generateSummary : Summarizer)
    (contentId filePath : string) (s : Server) :
  JS.Map.get contentId (jobs s) = Some (Created filePath) ->
  exists es s',
    steps es s = Some s' /\
    store s' = run transcribeAudio generateSummary contentId filePath (store s) /\
    JS.Map.get contentId (jobs s') = Some Finished.
Proof.
  intros Hj. rewrite run_by_steps. cbv zeta.
  set (st1 := snd (updateAudioContent contentId
                     [Set_transcriptionStatus (Some "processing")] (store s))).
  set (r := transcribeAudio filePath
              (option_map fileName (getAudioContent contentId st1))).
  destruct r as [text | prefix m] eqn:Hr.
  - exists [Start contentId; TranscriptionSettled contentId (Gateway.Returns text);
            SummarySettled contentId (generateSummary text)].
    eexists. simpl. rewrite Hj. simpl. rewrite get_set_same. simpl.
    rewrite get_set_same. simpl. split; [reflexivity|].
    split; [reflexivity | apply get_set_same].
  - exists [Start contentId; TranscriptionSettled contentId (Gateway.Throws prefix m)].
    eexists. simpl. rewrite Hj. simpl. rewrite get_set_same. simpl.
    split; [reflexivity|].
    split; [reflexivity | apply get_set_same].
Qed.

(* ================================================================== *)
(** * Further properties of the content store                          *)
(* ================================================================== *)

Lemma set_same {V : Type} (m : JS.Map.t V) (k : string) (v : V) :
  JS.Map.get k m = Some v -> JS.Map.set k v m = m.
Proof.
  induction m as [|[k' v'] m IH]; simpl; [discriminate|].
  destruct (String.eqb_spec k' k) as [-> | Hk].
  - intros H. injection H as ->. reflexivity.
  - intros H. rewrite IH by exact H. reflexivity.
Qed.

Lemma set_set {V : Type} (m : JS.Map.t V) (k : string) (v1 v2 : V) :
  JS.Map.set k v2 (JS.Map.set k v1 m) = JS.Map.set k v2 m.
Proof.
  induction m as [|[k' v'] m IH]; simpl.
  - rewrite String.eqb_refl. reflexivity.
  - destruct (String.eqb k' k) eqn:E; simpl.
    + rewrite String.eqb_refl. reflexivity.
    + rewrite E, IH. reflexivity.
Qed.

Lemma remove_set_absent {V : Type} (m : JS.Map.t V) (k : string) (v : V) :
  JS.Map.get k m = None -> JS.Map.remove k (JS.Map.set k v m) = m.
Proof.
  induction m as [|[k' v'] m IH]; simpl.
  - rewrite String.eqb_refl. reflexivity.
  - destruct (String.eqb k' k) eqn:E; [discriminate|].
    intros H. simpl. rewrite E, IH by exact H. reflexivity.
Qed.

Lemma In_get {V : Type} (m : JS.Map.t V) (k : string) (v : V) :
  NoDup (JS.Map.keys m) -> In (k, v) m -> JS.Map.get k m = Some v.
Proof.
  unfold JS.Map.keys. induction m as [|[k' v'] m IH]; simpl; [tauto|].
  intros Hnd [E | Hin].
  - injection E as -> ->. rewrite String.eqb_refl. reflexivity.
  - inversion Hnd as [|? ? Hnotin Hnd']; subst.
    destruct (String.eqb_spec k' k) as [-> | Hk].
    + exfalso. apply Hnotin. apply (in_map fst) in Hin. exact Hin.
    + apply IH; assumption.
Qed.

Lemma values_get {V : Type} (m : JS.Map.t V) (v : V) :
  NoDup (JS.Map.keys m) ->
  In v (JS.Map.values m) -> exists k, JS.Map.get k m = Some v.
Proof.
  intros Hnd Hin. unfold JS.Map.values in Hin. apply in_map_iff in Hin.
  destruct Hin as [[k v'] [E Hin]]. simpl in E. subst v'.
  exists k. apply In_get; assumption.
Qed.

Lemma with_audioContent_twice (st : MemStorage) (m1 m2 : JS.Map.t AudioContent) :
  with_audioContent (with_audioContent st m1) m2 = with_audioContent st m2.
Proof. reflexivity. Qed.

(** [createAudioContent] and [getAudioContent]: the record made is the
    one found under its identifier; it is [pending], without text and
    summary, with no keyword and no progress; no other record is touched,
    and under a new identifier it comes last in the order of the store. *)
Theorem createAudioContent_lookup (uuid : string) (now now' : Z)
    (a : InsertAudioContent) (st : MemStorage) :
  let content := fst (createAudioContent uuid now now' a st) in
  let st' := snd (createAudioContent uuid now now' a st) in
  getAudioContent uuid st' = Some content /\
  id content = uuid /\
  transcriptionStatus content = Some "pending" /\
  transcriptionText content = None /\
  aiSummary content = None /\
  Schema.keywords content = Some [] /\
  progress content = Some 0 /\
  (forall j, j <> uuid -> getAudioContent j st' = getAudioContent j st) /\
  (getAudioContent uuid st = None ->
   JS.Map.values (audioContent st') =
   (JS.Map.values (audioContent st) ++ [content])%list) /\
  (forall user,
     getAudioContent uuid st = None -> userId content = user ->
     Permutation (content :: getAudioContentByUser user st)
                 (getAudioContentByUser user st')) /\
  users st' = users st /\ highlights st' = highlights st /\
  transcriptSegments st' = transcriptSegments st.
Proof.
  cbv zeta. unfold createAudioContent, getAudioContent. simpl.
  split; [apply get_set_same|]. do 6 (split; [reflexivity|]).
  split; [intros j Hj; apply get_set_other; exact Hj|].
  split.
  - intros H. rewrite set_absent by exact H. unfold JS.Map.values.
    rewrite map_app. reflexivity.
  - split; [|repeat split].
    intros user H Hu. unfold getAudioContentByUser. simpl.
    rewrite set_absent by exact H. unfold JS.Map.values. rewrite map_app, filter_app.
    simpl. simpl in Hu. rewrite Hu, String.eqb_refl.
    rewrite <- sort_perm. rewrite <- sort_perm.
    rewrite Permutation_app_comm. reflexivity.
Qed.

(** [createAudioContent] then [deleteAudioContent]: deleting the record
    that was just made under a new identifier reports [true] and gives back
    the store as it was. *)
Theorem create_then_delete (uuid : string) (now now' : Z)
    (a : InsertAudioContent) (st : MemStorage) :
  getAudioContent uuid st = None ->
  deleteAudioContent uuid (snd (createAudioContent uuid now now' a st)) = (true, st).
Proof.
  unfold getAudioContent, createAudioContent, deleteAudioContent, JS.Map.delete,
    JS.Map.has.
  intros H. simpl. rewrite get_set_same, remove_set_absent by exact H.
  destruct st; reflexivity.
Qed.

(** [create_then_delete] at the empty store. *)
Lemma create_then_delete_example :
  deleteAudioContent "a2"
    (snd (createAudioContent "a2" 5 5 Samples.talk Examples.example_store)) =
  (true, Examples.example_store).
Proof. apply create_then_delete. reflexivity. Defined.

(** [updateAudioContent] twice is [updateAudioContent] once with the
    properties of the first update followed by those of the second, in the
    record returned and in the store; and an update without properties
    leaves the store as it is. *)
Theorem updateAudioContent_twice (i : string) (u1 u2 : PartialAudioContent)
    (st : MemStorage) :
  updateAudioContent i u2 (snd (updateAudioContent i u1 st)) =
  updateAudioContent i (u1 ++ u2)%list st /\
  snd (updateAudioContent i [] st) = st.
Proof.
  unfold updateAudioContent. destruct (JS.Map.get i (audioContent st)) as [c|] eqn:Hc.
  - simpl. rewrite get_set_same, set_set. unfold spread. rewrite fold_left_app.
    split; [reflexivity|]. simpl. rewrite set_same by exact Hc.
    destruct st; reflexivity.
  - simpl. rewrite Hc. split; reflexivity.
Qed.

Lemma remove_values_split {V : Type} (m : JS.Map.t V) (k : string) (v : V) :
  NoDup (JS.Map.keys m) -> JS.Map.get k m = Some v ->
  exists pre post,
    JS.Map.values m = (pre ++ v :: post)%list /\
    JS.Map.values (JS.Map.remove k m) = (pre ++ post)%list.
Proof.
  unfold JS.Map.keys, JS.Map.values.
  induction m as [|[k' v'] m IH]; simpl; [discriminate|].
  intros Hnd. inversion Hnd as [|? ? Hnotin Hnd']; subst.
  destruct (String.eqb_spec k' k) as [-> | Hk].
  - intros H. injection H as ->. exists [], (map snd m). simpl. split; [reflexivity|].
    rewrite remove_absent; [reflexivity|].
    destruct (JS.Map.get k m) as [v0|] eqn:Hg; [|reflexivity].
    exfalso. apply Hnotin. clear - Hg.
    induction m as [|[k0 v1] m IHm]; simpl in *; [discriminate|].
    destruct (String.eqb_spec k0 k); [left; assumption | right; apply IHm; exact Hg].
  - intros H. destruct (IH Hnd' H) as [pre [post [E1 E2]]].
    exists (v' :: pre), post. simpl. rewrite E1, E2. split; reflexivity.
Qed.

(** [deleteAudioContent] of a record that is there takes this one record
    out of the store and keeps the others in their order.  The highlights
    and the transcript segments are not touched: those of the deleted
    record are still listed under its identifier. *)
Theorem deleteAudioContent_no_cascade (i : string) (st : MemStorage)
    (content : AudioContent) :
  NoDup (JS.Map.keys (audioContent st)) ->
  getAudioContent i st = Some content ->
  let st' := snd (deleteAudioContent i st) in
  (exists pre post,
     JS.Map.values (audioContent st) = (pre ++ content :: post)%list /\
     JS.Map.values (audioContent st') = (pre ++ post)%list) /\
  getAudioContent i st' = None /\
  getHighlightsByAudioContent i st' = getHighlightsByAudioContent i st /\
  getTranscriptSegments i st' = getTranscriptSegments i st /\
  (forall user, getHighlightsByUser user st' = getHighlightsByUser user st).
Proof.
  intros Hnd Hc. cbv zeta. unfold deleteAudioContent, JS.Map.delete. simpl.
  split; [apply remove_values_split; assumption|].
  split; [apply get_remove_same|]. repeat split.
Qed.

(** [deleteAudioContent_no_cascade] at a record with a highlight. *)
Lemma deleteAudioContent_no_cascade_example :
  getAudioContent "a1" (snd (deleteAudioContent "a1" Examples.highlighted)) = None /\
  map hl_id
    (getHighlightsByAudioContent "a1"
       (snd (deleteAudioContent "a1" Examples.highlighted))) = ["h1"].
Proof.
  assert (Hnd : NoDup (JS.Map.keys (audioContent Examples.highlighted)))
    by (repeat constructor; simpl; tauto).
  destruct (deleteAudioContent_no_cascade "a1" Examples.highlighted _ Hnd eq_refl)
    as [_ [Hnone [Hh _]]].
  split; [exact Hnone|]. rewrite Hh. reflexivity.
Defined.

Lemma fold_remove_NoDup {V : Type} (ks : list (string * V)) (m : JS.Map.t V) :
  NoDup (JS.Map.keys m) ->
  NoDup (JS.Map.keys (fold_left (fun m '(i, _) => snd (JS.Map.delete i m)) ks m)).
Proof.
  revert m. induction ks as [|[k v] ks IH]; intros m Hnd; simpl; [exact Hnd|].
  apply IH. apply remove_NoDup. exact Hnd.
Qed.

(** Every operation of the store keeps one entry per key in each of the
    four maps, and the store is so when it is made. *)
Theorem well_formed_kept (st : MemStorage) :
  Shape.well_formed st ->
  (forall uuid u, Shape.well_formed (snd (createUser uuid u st))) /\
  (forall uuid now now' a,
     Shape.well_formed (snd (createAudioContent uuid now now' a st))) /\
  (forall i updates, Shape.well_formed (snd (updateAudioContent i updates st))) /\
  (forall i, Shape.well_formed (snd (deleteAudioContent i st))) /\
  (forall uuid now h, Shape.well_formed (snd (createHighlight uuid now h st))) /\
  (forall i updates, Shape.well_formed (snd (updateHighlight i updates st))) /\
  (forall i, Shape.well_formed (snd (deleteHighlight i st))) /\
  (forall uuid s, Shape.well_formed (snd (createTranscriptSegment uuid s st))) /\
  (forall i, Shape.well_formed (snd (deleteTranscriptSegments i st))).
Proof.
  intros [Hu [Ha [Hh Hs]]]. unfold Shape.well_formed.
  repeat split; simpl; try assumption;
    try (apply set_NoDup; assumption);
    try (apply remove_NoDup; assumption).
  - unfold updateAudioContent.
    destruct (JS.Map.get i (audioContent st)); simpl; assumption.
  - unfold updateAudioContent.
    destruct (JS.Map.get i (audioContent st)); simpl;
      [apply set_NoDup|]; assumption.
  - unfold updateAudioContent.
    destruct (JS.Map.get i (audioContent st)); simpl; assumption.
  - unfold updateAudioContent.
    destruct (JS.Map.get i (audioContent st)); simpl; assumption.
  - unfold updateHighlight.
    destruct (JS.Map.get i (highlights st)); simpl; assumption.
  - unfold updateHighlight.
    destruct (JS.Map.get i (highlights st)); simpl; assumption.
  - unfold updateHighlight.
    destruct (JS.Map.get i (highlights st)); simpl;
      [apply set_NoDup|]; assumption.
  - unfold updateHighlight.
    destruct (JS.Map.get i (highlights st)); simpl; assumption.
  - apply fold_remove_NoDup. assumption.
Qed.

Lemma empty_well_formed : Shape.well_formed Storage.empty.
Proof. repeat split; constructor. Qed.

(** [well_formed_kept] at the empty store. *)
Lemma well_formed_kept_example :
  Shape.well_formed (snd (createAudioContent "a1" 0 0 Samples.talk Storage.empty)).
Proof.
  destruct (well_formed_kept Storage.empty empty_well_formed) as [_ [H _]].
  apply H.
Defined.

Lemma In_sort {A : Type} (compareFn : A -> A -> Z) (x : A) (l : list A) :
  In x (JS.sort compareFn l) <-> In x l.
Proof.
  split; intros H.
  - eapply Permutation_in; [symmetry; apply sort_perm | exact H].
  - eapply Permutation_in; [apply sort_perm | exact H].
Qed.

Lemma StronglySorted_impl {A : Type} (R R' : A -> A -> Prop) (l : list A) :
  (forall a b, R a b -> R' a b) -> StronglySorted R l -> StronglySorted R' l.
Proof.
  intros H Hs. induction Hs as [|a l _ IH Ha]; constructor; [exact IH|].
  eapply Forall_impl; [|exact Ha]. intros b. apply H.
Qed.

(** [createHighlight]: the highlight made is found under its identifier and
    is listed for its audio item and for its user; its colour is never
    [null] or empty, it is [yellow] when none is given and the given one
    otherwise; its note is never the empty text. *)
Theorem createHighlight_defaults (uuid : string) (now : Z) (h : InsertHighlight)
    (st : MemStorage) :
  let highlight := fst (createHighlight uuid now h st) in
  let st' := snd (createHighlight uuid now h st) in
  getHighlight uuid st' = Some highlight /\
  (exists c, hl_color highlight = Some c /\ c <> "") /\
  (ih_color h = None \/ ih_color h = Some "" -> hl_color highlight = Some "yellow") /\
  (forall c, ih_color h = Some c -> c <> "" -> hl_color highlight = Some c) /\
  hl_note highlight <> Some "" /\
  In highlight (getHighlightsByAudioContent (ih_audioContentId h) st') /\
  In highlight (getHighlightsByUser (ih_userId h) st') /\
  (forall j, j <> uuid -> getHighlight j st' = getHighlight j st).
Proof.
  cbv zeta. unfold createHighlight, getHighlight. simpl.
  split; [apply get_set_same|].
  split.
  { destruct (ih_color h) as [[|c s]|]; simpl; eexists; split;
      try reflexivity; discriminate. }
  split; [intros [-> | ->]; reflexivity|].
  split.
  { intros c -> Hc. destruct c; [congruence | reflexivity]. }
  split.
  { destruct (ih_note h) as [[|c s]|]; simpl; discriminate. }
  split; [|split].
  - unfold getHighlightsByAudioContent. apply In_sort. apply filter_In. simpl.
    split; [apply (get_In _ uuid); apply get_set_same | apply String.eqb_refl].
  - unfold getHighlightsByUser. apply In_sort. apply filter_In. simpl.
    split; [apply (get_In _ uuid); apply get_set_same | apply String.eqb_refl].
  - intros j Hj. apply get_set_other. exact Hj.
Qed.

(** [createTranscriptSegment]: a confidence of [0] is stored as [null], every
    other one as it is given; the segment is listed for its audio item,
    and [deleteTranscriptSegments] of that item leaves none listed. *)
Theorem createTranscriptSegment_listed (uuid : string) (s : InsertTranscriptSegment)
    (st : MemStorage) :
  let segment := fst (createTranscriptSegment uuid s st) in
  let st' := snd (createTranscriptSegment uuid s st) in
  seg_confidence segment <> Some 0 /\
  (is_confidence s = Some 0 -> seg_confidence segment = None) /\
  (is_confidence s <> Some 0 -> seg_confidence segment = is_confidence s) /\
  In segment (getTranscriptSegments (is_audioContentId s) st') /\
  getTranscriptSegments (is_audioContentId s)
    (snd (deleteTranscriptSegments (is_audioContentId s) st')) = [].
Proof.
  cbv zeta. split; [|split; [|split; [|split]]].
  - simpl. destruct (is_confidence s) as [n|]; [|discriminate].
    destruct (Z.eqb_spec n 0); [discriminate | congruence].
  - simpl. intros ->. reflexivity.
  - simpl. destruct (is_confidence s) as [n|]; [|reflexivity].
    destruct (Z.eqb_spec n 0); [subst; congruence | reflexivity].
  - unfold getTranscriptSegments. apply In_sort. apply filter_In. simpl.
    split; [apply (get_In _ uuid); apply get_set_same | apply String.eqb_refl].
  - unfold getTranscriptSegments at 1. rewrite filter_none; [reflexivity|].
    intros seg Hseg. apply deleteTranscriptSegments_removes in Hseg.
    apply String.eqb_neq. exact Hseg.
Qed.

(** [getHighlightsByUser] returns the highlights of the user with the
    later [createdAt] first (a [null] one counts as time [0]), highlights of
    one [createdAt] in the order of their insertion. *)
Theorem getHighlightsByUser_sorted (user : string) (st : MemStorage) :
  let owned :=
    filter (fun h => String.eqb (hl_userId h) user) (JS.Map.values (highlights st)) in
  let result := getHighlightsByUser user st in
  Permutation owned result /\
  StronglySorted
    (fun a b => getTime (hl_createdAt a) >= getTime (hl_createdAt b)) result /\
  (forall t,
     filter (fun h => getTime (hl_createdAt h) =? t) result =
     filter (fun h => getTime (hl_createdAt h) =? t) owned).
Proof.
  intros owned result.
  set (key := fun h : Highlight => - getTime (hl_createdAt h)).
  assert (Hkey : forall a b : Highlight,
             getTime (hl_createdAt b) - getTime (hl_createdAt a) <= 0 <->
             key a <= key b)
    by (intros a b; unfold key; lia).
  split; [apply sort_perm|]. split.
  - apply (StronglySorted_impl (fun a b => key a <= key b));
      [intros a b; unfold key; lia | apply (sort_sorted _ key Hkey)].
  - intros t. pose proof (sort_stable _ key Hkey (- t) owned) as Hst.
    assert (E : forall l,
               filter (fun h => getTime (hl_createdAt h) =? t) l =
               filter (fun a => key a =? - t) l).
    { intros l. apply filter_ext. intros a. unfold key.
      destruct (Z.eqb_spec (getTime (hl_createdAt a)) t);
        destruct (Z.eqb_spec (- getTime (hl_createdAt a)) (- t)); lia. }
    rewrite !E. exact Hst.
Qed.

Lemma find_app {A : Type} (f : A -> bool) (l1 l2 : list A) :
  find f (l1 ++ l2) = match find f l1 with Some x => Some x | None => find f l2 end.
Proof.
  induction l1 as [|x l1 IH]; simpl; [reflexivity|].
  destruct (f x); [reflexivity | exact IH].
Qed.

(** [createUser] does not look at the names that are taken: under a new
    identifier the user is stored and found by [getUser] whatever the name;
    [getUserByUsername] then still answers with the earlier user of that
    name if there was one, with the new user if there was none, and as
    before for every other name. *)
Theorem createUser_duplicate_username (uuid : string) (u : InsertUser)
    (st : MemStorage) :
  getUser uuid st = None ->
  let user := fst (createUser uuid u st) in
  let st' := snd (createUser uuid u st) in
  getUser uuid st' = Some user /\
  (forall old, getUserByUsername (iu_username u) st = Some old ->
               getUserByUsername (iu_username u) st' = Some old) /\
  (getUserByUsername (iu_username u) st = None ->
   getUserByUsername (iu_username u) st' = Some user) /\
  (forall name, name <> iu_username u ->
                getUserByUsername name st' = getUserByUsername name st).
Proof.
  unfold getUser, getUserByUsername, createUser. intros H. cbv zeta. simpl.
  split; [apply get_set_same|].
  rewrite set_absent by exact H. unfold JS.Map.values. rewrite map_app. simpl.
  split; [|split].
  - intros old Hold. rewrite find_app, Hold. reflexivity.
  - intros Hnone. rewrite find_app, Hnone. simpl. rewrite String.eqb_refl. reflexivity.
  - intros name Hname. rewrite find_app. simpl.
    destruct (String.eqb_spec (iu_username u) name); [congruence|].
    destruct (find _ _); reflexivity.
Qed.

(** [createUser_duplicate_username] at two users of one name. *)
Lemma createUser_duplicate_username_example :
  let st := snd (createUser "u1" (mkInsertUser "ann" "pw1") Storage.empty) in
  let st' := snd (createUser "u2" (mkInsertUser "ann" "pw2") st) in
  option_map password (getUser "u2" st') = Some "pw2" /\
  option_map password (getUserByUsername "ann" st') = Some "pw1".
Proof.
  cbv zeta.
  destruct (createUser_duplicate_username "u2" (mkInsertUser "ann" "pw2")
              (snd (createUser "u1" (mkInsertUser "ann" "pw1") Storage.empty))
              eq_refl) as [Hget [Hold _]].
  pose proof (Hold _ eq_refl) as Hann. cbn [iu_username] in Hann.
  rewrite Hget, Hann. split; reflexivity.
Defined.

(* ================================================================== *)
(** * Searching, and the order of the library                          *)
(* ================================================================== *)

Lemma substring_trans (a b c : string) :
  Spec.substring a b -> Spec.substring b c -> Spec.substring a c.
Proof.
  intros [x [y ->]] [u [v ->]]. exists (u ++ x)%string, (y ++ v)%string.
  clear. induction u as [|ch u IH]; simpl.
  - induction x as [|ch x IH]; simpl; [|f_equal; exact IH].
    induction a as [|ch a IH]; simpl; [reflexivity | f_equal; exact IH].
  - f_equal. exact IH.
Qed.

Lemma includes_narrower (s q1 q2 : string) :
  Spec.substring q1 q2 -> JS.includes s q2 = true -> JS.includes s q1 = true.
Proof.
  intros H12 H2. apply includes_spec. apply includes_spec in H2.
  eapply substring_trans; eassumption.
Qed.

Lemma includes_empty (s : string) : JS.includes s "" = true.
Proof. destruct s; reflexivity. Qed.

(** [searchAudioContent]: the empty query finds every record of the user,
    in the order of the store; what a query finds is among the records
    that [getAudioContentByUser] lists; a query that is part of another
    one, the case of letters left aside, finds at least what the other one
    finds; and a record is found by its own title in whatever case.  The
    search handler refuses a query that is missing or empty, and only
    then, and what it lists belongs to the one user of the routes. *)
Theorem searchAudioContent_queries (user : string) (st : MemStorage) :
  searchAudioContent user "" st =
  filter (fun c => String.eqb (userId c) user) (JS.Map.values (audioContent st)) /\
  (forall q c, In c (searchAudioContent user q st) ->
               In c (getAudioContentByUser user st)) /\
  (forall q1 q2 c,
     Spec.substring_ci q1 q2 ->
     In c (searchAudioContent user q2 st) -> In c (searchAudioContent user q1 st)) /\
  (forall q c,
     In c (JS.Map.values (audioContent st)) -> userId c = user ->
     Spec.same_ci q (title c) -> In c (searchAudioContent user q st)) /\
  (forall q,
     Handlers.search q st = Handlers.Message 400 "Search query is required" <->
     q = None \/ q = Some "") /\
  (forall q contents c,
     Handlers.search q st = Handlers.Contents contents -> In c contents ->
     userId c = MOCK_USER_ID).
Proof.
  unfold searchAudioContent. split; [|split; [|split; [|split; [|split]]]].
  - apply filter_ext. intros c. simpl. rewrite includes_empty. simpl.
    apply andb_true_r.
  - intros q c H. apply filter_In in H. destruct H as [Hin Hc].
    apply andb_true_iff in Hc. destruct Hc as [Hu _].
    unfold getAudioContentByUser. apply In_sort. apply filter_In. split; assumption.
  - intros q1 q2 c H12 H. apply substring_ci_lower in H12.
    apply filter_In in H. destruct H as [Hin Hc]. apply filter_In. split; [exact Hin|].
    apply andb_true_iff in Hc. destruct Hc as [Hu Hm]. rewrite Hu. simpl.
    rewrite !orb_true_iff in Hm. rewrite !orb_true_iff.
    unfold includes_opt in *.
    destruct Hm as [[[Hm | Hm] | Hm] | Hm].
    + left. left. left. eapply includes_narrower; eassumption.
    + left. left. right. destruct (source c); [|discriminate].
      eapply includes_narrower; eassumption.
    + left. right. destruct (transcriptionText c); [|discriminate].
      eapply includes_narrower; eassumption.
    + right. destruct (aiSummary c); [|discriminate].
      eapply includes_narrower; eassumption.
  - intros q c Hin Hu Hq. apply filter_In. split; [exact Hin|].
    apply String.eqb_eq in Hu. rewrite Hu. simpl. rewrite !orb_true_iff.
    left. left. left. apply includes_spec. unfold Spec.same_ci in Hq. rewrite <- Hq.
    exists EmptyString, EmptyString. simpl.
    clear. induction (JS.toLowerCase q) as [|ch s IH]; simpl; [reflexivity | f_equal; exact IH].
  - intros q. unfold Handlers.search.
    destruct q as [[|ch q]|]; simpl; split; try tauto; try discriminate.
    intros [H | H]; discriminate H.
  - intros q contents c. unfold Handlers.search.
    destruct (or_else q None) as [query|]; [|discriminate].
    intros H Hin. injection H as <-. unfold searchAudioContent in Hin.
    apply filter_In in Hin. destruct Hin as [_ Hc].
    apply andb_true_iff in Hc. destruct Hc as [Hu _].
    apply String.eqb_eq in Hu. exact Hu.
Qed.

(** A progress update whose time is later than the time of every other
    record puts the record first in the list of its user, with the
    progress given and the other properties as they were. *)
Theorem updateProgress_first (now : Z) (i : string) (p : option Z)
    (st : MemStorage) (content : AudioContent) :
  NoDup (JS.Map.keys (audioContent st)) ->
  getAudioContent i st = Some content ->
  (forall j c, getAudioContent j st = Some c -> j <> i ->
               getTime (lastAccessedAt c) < now) ->
  exists rest,
    getAudioContentByUser (userId content) (snd (updateProgress now i p st)) =
    spread content [Set_progress p; Set_lastAccessedAt (Some now)] :: rest /\
    forall c, In c rest -> getTime (lastAccessedAt c) < now.
Proof.
  intros Hnd Hc Hothers.
  set (c' := spread content [Set_progress p; Set_lastAccessedAt (Some now)]).
  assert (Htime : getTime (lastAccessedAt c') = now)
    by (unfold c'; destruct content; reflexivity).
  assert (Huser : userId c' = userId content)
    by (unfold c'; destruct content; reflexivity).
  rewrite updateProgress_store.
  assert (Hst' : audioContent
                   (snd (updateAudioContent i
                           [Set_progress p; Set_lastAccessedAt (Some now)] st)) =
                 JS.Map.set i c' (audioContent st)).
  { unfold updateAudioContent. unfold getAudioContent in Hc. rewrite Hc. reflexivity. }
  unfold getAudioContentByUser. rewrite Hst'.
  set (owned := filter (fun c => String.eqb (userId c) (userId content))
                       (JS.Map.values (JS.Map.set i c' (audioContent st)))).
  set (cmp := fun a b : AudioContent =>
                getTime (lastAccessedAt b) - getTime (lastAccessedAt a)).
  set (key := fun a : AudioContent => - getTime (lastAccessedAt a)).
  assert (Hkey : forall a b, cmp a b <= 0 <-> key a <= key b)
    by (intros a b; unfold cmp, key; lia).
  assert (Hin' : In c' owned).
  { apply filter_In. split; [apply (get_In _ i); apply get_set_same|].
    rewrite Huser. apply String.eqb_refl. }
  assert (Helse : forall c, In c owned -> c = c' \/ getTime (lastAccessedAt c) < now).
  { intros c H. apply filter_In in H. destruct H as [H _].
    apply values_get in H; [|apply set_NoDup; exact Hnd].
    destruct H as [k Hk]. rewrite get_set in Hk.
    destruct (String.eqb_spec k i) as [E | Hne].
    - left. congruence.
    - right. apply (Hothers k c Hk Hne). }
  pose proof (sort_sorted cmp key Hkey owned) as Hsorted.
  pose proof (sort_perm cmp owned) as Hperm.
  pose proof (sort_stable cmp key Hkey (- now) owned) as Hstable.
  destruct (JS.sort cmp owned) as [|h rest] eqn:Hsort.
  - exfalso. eapply Permutation_in in Hin'; [|exact Hperm]. exact Hin'.
  - apply StronglySorted_inv in Hsorted. destruct Hsorted as [Hrest Hhead].
    rewrite Forall_forall in Hhead.
    assert (Hh : h = c').
    { assert (In h owned) as Hho
        by (eapply Permutation_in; [symmetry; exact Hperm | left; reflexivity]).
      destruct (Helse h Hho) as [E | Hlt]; [exact E|]. exfalso.
      assert (In c' (h :: rest)) as Hc'
        by (eapply Permutation_in; [exact Hperm | exact Hin']).
      destruct Hc' as [E | Hr]; [rewrite E in Hlt; lia|].
      specialize (Hhead c' Hr). unfold key in Hhead. lia. }
    subst h. exists rest. split; [reflexivity|].
    intros c Hcr.
    assert (In c owned) as Hco
      by (eapply Permutation_in; [symmetry; exact Hperm | right; exact Hcr]).
    destruct (Helse c Hco) as [E | Hlt]; [|exact Hlt].
    (* a second copy of the updated record cannot be: the map has one
       entry per key, and every other entry is older *)
    exfalso. subst c.
    (* count the entries of time [now] in the map *)
    assert (Hone : filter (fun a => key a =? - now) owned = [c']).
    { unfold owned. clear - Hnd Hc Hothers Htime Huser.
      unfold getAudioContent in *. unfold JS.Map.keys, JS.Map.values in *.
      revert Hnd Hc Hothers.
      induction (audioContent st) as [|[k v] m IH]; simpl; [discriminate|].
      intros Hnd Hc Hothers. apply NoDup_cons_iff in Hnd. destruct Hnd as [Hnotin Hnd'].
      destruct (String.eqb_spec k i) as [-> | Hk].
      - simpl. rewrite Huser, String.eqb_refl. simpl.
        unfold key at 1. rewrite Htime, Z.eqb_refl. f_equal.
        apply filter_none. intros x Hx. apply filter_In in Hx. destruct Hx as [Hx _].
        apply in_map_iff in Hx. destruct Hx as [[k' v'] [E Hx]]. simpl in E. subst v'.
        assert (k' <> i) as Hne
          by (intros ->; apply Hnotin; apply (in_map fst) in Hx; exact Hx).
        assert (JS.Map.get k' m = Some x) as Hg by (apply In_get; assumption).
        specialize (Hothers k' x). simpl in Hothers.
        destruct (String.eqb_spec i k'); [congruence|].
        specialize (Hothers Hg Hne). unfold key.
        apply Z.eqb_neq. lia.
      - simpl.
        assert (Hv : getTime (lastAccessedAt v) < now).
        { apply (Hothers k v); [|exact Hk]. simpl. rewrite String.eqb_refl. reflexivity. }
        assert (Hkv : (key v =? - now) = false) by (apply Z.eqb_neq; unfold key; lia).
        assert (Hrec : filter (fun a => key a =? - now)
                         (filter (fun c => String.eqb (userId c) (userId content))
                                 (map snd (JS.Map.set i c' m))) = [c']).
        { apply IH; [exact Hnd' | exact Hc |].
          intros j c Hj Hne. apply (Hothers j c); [|exact Hne]. simpl.
          destruct (String.eqb_spec k j) as [E | _]; [|exact Hj].
          exfalso. subst j. apply Hnotin. clear - Hj.
          induction m as [|[k' v'] m IH]; simpl in *; [discriminate|].
          destruct (String.eqb_spec k' k); [left; assumption | right; apply IH; exact Hj]. }
        destruct (String.eqb (userId v) (userId content)); simpl; rewrite ?Hkv;
          exact Hrec. }
    rewrite Hone in Hstable. simpl in Hstable.
    unfold key at 1 in Hstable. rewrite Htime, Z.eqb_refl in Hstable.
    injection Hstable as Hnil.
    assert (In c' (filter (fun a => key a =? - now) rest)) as Hbad
      by (apply filter_In; split; [exact Hcr | unfold key; rewrite Htime; apply Z.eqb_refl]).
    rewrite Hnil in Hbad. exact Hbad.
Qed.

(** [updateProgress_first] at the store with [a1], [a2] and [a3]. *)
Lemma updateProgress_first_example :
  exists rest,
    map id (getAudioContentByUser "user-123"
              (snd (updateProgress 20 "a3" (Some 4) Examples.library))) =
    "a3" :: rest.
Proof.
  assert (Hnd : NoDup (JS.Map.keys (audioContent Examples.library)))
    by (repeat constructor; simpl; intuition discriminate).
  assert (Hothers : forall j c, getAudioContent j Examples.library = Some c ->
                                j <> "a3" -> getTime (lastAccessedAt c) < 20).
  { intros j c Hj Hne. unfold getAudioContent in Hj. simpl in Hj.
    repeat match type of Hj with
           | (if ?b then _ else _) = _ => destruct b eqn:?
           end;
      try discriminate; try (injection Hj as <-; simpl; lia). }
  destruct (updateProgress_first 20 "a3" (Some 4) Examples.library _ Hnd eq_refl Hothers)
    as [rest [H _]].
  exists (map id rest). simpl userId in H. rewrite H. reflexivity.
Defined.

(* ================================================================== *)
(** * More of the gateway and of the pipeline                          *)
(* ================================================================== *)

(** [extractKeyPoints], with a response that has a first choice: when
    its content is [null] or empty, the result is the empty list; when it
    is JSON for a value other than [null], the result is the array under
    [keyPoints] if the value is an object that has one, and the empty list
    if not; when it is not JSON, or is JSON for [null], an error is
    thrown. *)
Theorem extractKeyPoints_defaults
    (completion : string -> provider (list (option string)))
    (transcriptionText : string) (content : option string)
    (rest : list (option string)) :
  completion transcriptionText = Resolves (content :: rest) ->
  (content = None \/ content = Some "" ->
   extractKeyPoints completion transcriptionText = Returns []) /\
  (forall result,
     JSON.parse (content_or_empty_object content) = Some result ->
     result <> JSON.Null ->
     extractKeyPoints completion transcriptionText =
     Returns match result with
             | JSON.Object members =>
                 match JSON.member (JSON.codeUnits "keyPoints") members with
                 | Some (JSON.Array l) => l
                 | _ => []
                 end
             | _ => []
             end) /\
  (JSON.parse (content_or_empty_object content) = None ->
   extractKeyPoints completion transcriptionText =
   Throws "Failed to extract key points: " SyntaxError) /\
  (JSON.parse (content_or_empty_object content) = Some JSON.Null ->
   extractKeyPoints completion transcriptionText =
   Throws "Failed to extract key points: " TypeError).
Proof.
  intros Hc. unfold extractKeyPoints. rewrite Hc.
  split; [|split; [|split]].
  - intros [-> | ->]; reflexivity.
  - intros result -> Hnull.
    destruct result as [| b | n | s | l | members]; try reflexivity.
    + congruence.
    + unfold read.
      destruct (JSON.member (JSON.codeUnits "keyPoints") members) as [[]|]; reflexivity.
  - intros ->. reflexivity.
  - intros ->. reflexivity.
Qed.

(** [extractKeyPoints_defaults] for an answer that is an object with a
    title and nothing else. *)
Lemma extractKeyPoints_defaults_example :
  extractKeyPoints (Examples.answers Examples.titled_object) "a talk" = Returns [].
Proof.
  destruct (extractKeyPoints_defaults (Examples.answers Examples.titled_object)
              "a talk" (Some Examples.titled_object) [] eq_refl)
    as [_ [H _]].
  destruct (JSON.parse (content_or_empty_object (Some Examples.titled_object)))
    as [result|] eqn:E; [|discriminate E].
  rewrite (H result eq_refl); vm_compute in E; injection E as <-;
    [reflexivity | discriminate].
Defined.

(** The words before the message in an error of [transcribeAudio] have
    neither [quota] nor [429] in them, and no end of them starts one:
    whether the stored text tells of the quota depends on the message of
    the provider alone, or, for a file that is not there, on its path
    alone. *)
Theorem transcription_error_cause (exists_ : bool) (transcription : provider string)
    (audioFilePath prefix m : string) :
  transcribeAudio exists_ transcription audioFilePath = Throws prefix m ->
  (exists_ = true ->
   transcription = Rejects m /\ errorText (prefix ++ m) = errorText m) /\
  (exists_ = false ->
   errorText (prefix ++ m) = errorText audioFilePath).
Proof.
  unfold transcribeAudio.
  destruct exists_; simpl; intros H.
  - split; [|discriminate]. intros _.
    destruct transcription as [text | m']; [discriminate|].
    injection H as <- <-. split; [reflexivity|].
    unfold errorText. reflexivity.
  - split; [discriminate|]. intros _.
    injection H as <- <-. unfold errorText. reflexivity.
Qed.

(** [transcription_error_cause] for a file that is not there and whose
    path has [429] in it: the stored text tells of the quota. *)
Lemma transcription_error_cause_example :
  errorText ("Failed to transcribe audio: " ++
             "Audio file not found: " ++ "uploads/0c429e") =
  "Error: OpenAI quota exceeded. Please add credits to your OpenAI account.".
Proof.
  destruct (transcription_error_cause false (Resolves "Hello") "uploads/0c429e"
              _ _ eq_refl) as [_ H].
  rewrite (H eq_refl). reflexivity.
Defined.

Lemma updateAudioContent_maps (i : string) (updates : PartialAudioContent)
    (st : MemStorage) :
  users (snd (updateAudioContent i updates st)) = users st /\
  highlights (snd (updateAudioContent i updates st)) = highlights st /\
  transcriptSegments (snd (updateAudioContent i updates st)) = transcriptSegments st /\
  JS.Map.keys (audioContent (snd (updateAudioContent i updates st))) =
  JS.Map.keys (audioContent st).
Proof.
  unfold updateAudioContent.
  destruct (JS.Map.get i (audioContent st)) as [c|] eqn:Hc; simpl;
    repeat split; try reflexivity.
  eapply keys_set_present. exact Hc.
Qed.

Lemma summarySettled_maps (i : string)
    (r : Gateway.outcome Gateway.cause (string * list string)) (st : MemStorage) :
  users (summarySettled i r st) = users st /\
  highlights (summarySettled i r st) = highlights st /\
  transcriptSegments (summarySettled i r st) = transcriptSegments st /\
  JS.Map.keys (audioContent (summarySettled i r st)) = JS.Map.keys (audioContent st).
Proof.
  destruct r as [[s k] | p c]; simpl; [apply updateAudioContent_maps|].
  repeat split; reflexivity.
Qed.

Lemma summarySettled_other (i j : string)
    (r : Gateway.outcome Gateway.cause (string * list string)) (st : MemStorage) :
  j <> i -> getAudioContent j (summarySettled i r st) = getAudioContent j st.
Proof.
  intros Hne. destruct r as [[s k] | p c]; simpl; [|reflexivity].
  apply getAudioContent_update_other. exact Hne.
Qed.

Lemma summarySettled_absent (i : string)
    (r : Gateway.outcome Gateway.cause (string * list string)) (st : MemStorage) :
  getAudioContent i st = None -> summarySettled i r st = st.
Proof.
  intros Hc. destruct r as [[s k] | p c]; simpl; [|reflexivity].
  rewrite updateAudioContent_absent by exact Hc. reflexivity.
Qed.

(** When the record is in the store, the transcription returns a text and
    the summary is given, the record after the run has the status
    [completed], the text, the summary and the keywords; its [duration]
    is [null], and its other properties are as before the run. *)
Theorem run_summarized (transcribeAudio : Transcriber)
    (generateSummary : Summarizer) (contentId filePath : string) (st : MemStorage)
    (content : AudioContent) (text summary_ : string) (keywords_ : list string) :
  getAudioContent contentId st = Some content ->
  transcribeAudio filePath (Some (fileName content)) = Gateway.Returns text ->
  generateSummary text = Gateway.Returns (summary_, keywords_) ->
  exists content',
    getAudioContent contentId
      (run transcribeAudio generateSummary contentId filePath st) = Some content' /\
    transcriptionStatus content' = Some "completed" /\
    transcriptionText content' = Some text /\
    aiSummary content' = Some summary_ /\
    Schema.keywords content' = Some keywords_ /\
    duration content' = None /\
    (forall k,
       ~ In k [K_transcriptionStatus; K_transcriptionText; K_duration;
               K_aiSummary; K_keywords] ->
       property k content' = property k content).
Proof.
  intros Hc Ht Hs.
  rewrite (run_transcribed _ _ _ _ _ _ _ Hc Ht), Hs. cbn [summarySettled].
  eexists. split.
  - do 3 apply getAudioContent_update_same. exact Hc.
  - destruct content. cbn.
    do 5 (split; [reflexivity|]).
    intros k Hk. destruct k; solve [reflexivity | exfalso; apply Hk; simpl; tauto].
Qed.

(** [run_summarized] at the record [a1]. *)
Lemma run_summarized_example :
  let st := run (Examples.transcribes "Hello") Examples.summarizes
                "a1" "uploads/f1" Examples.example_store in
  option_map aiSummary (getAudioContent "a1" st) = Some (Some "A talk about birds") /\
  option_map title (getAudioContent "a1" st) = Some "Lecture 1".
Proof.
  destruct (run_summarized (Examples.transcribes "Hello") Examples.summarizes
              "a1" "uploads/f1" Examples.example_store _ "Hello" _ _
              eq_refl eq_refl eq_refl)
    as [content' [Hget [_ [_ [Hsum [_ [_ Hrest]]]]]]].
  cbv zeta. rewrite Hget. cbn [option_map]. rewrite Hsum.
  split; [reflexivity|].
  assert (E : property K_title content' = V_string "Lecture 1")
    by (rewrite Hrest; [reflexivity | simpl; intuition discriminate]).
  simpl in E. congruence.
Defined.

(** Whatever the transcription and the summary come to, a run of
    [processAudioFile] writes to the one record it is called for: the
    users, the highlights, the segments, the identifiers of the records and
    their order, and every other record are as before; and when there is no
    record under the identifier, the store is as before. *)
Theorem run_frame (transcribeAudio : Transcriber) (generateSummary : Summarizer)
    (contentId filePath : string) (st : MemStorage) :
  let st' := run transcribeAudio generateSummary contentId filePath st in
  users st' = users st /\
  highlights st' = highlights st /\
  transcriptSegments st' = transcriptSegments st /\
  JS.Map.keys (audioContent st') = JS.Map.keys (audioContent st) /\
  (forall j, j <> contentId -> getAudioContent j st' = getAudioContent j st) /\
  (getAudioContent contentId st = None -> st' = st).
Proof.
  cbv zeta. rewrite run_by_steps. cbv zeta.
  set (st1 := snd (updateAudioContent contentId
                     [Set_transcriptionStatus (Some "processing")] st)).
  destruct (updateAudioContent_maps contentId
              [Set_transcriptionStatus (Some "processing")] st)
    as [Hu1 [Hh1 [Hs1 Hk1]]]. fold st1 in Hu1, Hh1, Hs1, Hk1.
  destruct (transcribeAudio filePath
              (option_map fileName (getAudioContent contentId st1)))
    as [text | prefix m]; cbn [transcriptionSettled].
  - set (u2 := [Set_transcriptionStatus (Some "completed");
                Set_transcriptionText (Some text); Set_duration None]).
    destruct (updateAudioContent_maps contentId u2 st1) as [Hu2 [Hh2 [Hs2 Hk2]]].
    destruct (summarySettled_maps contentId (generateSummary text)
                (snd (updateAudioContent contentId u2 st1)))
      as [Hu3 [Hh3 [Hs3 Hk3]]].
    split; [congruence|]. split; [congruence|]. split; [congruence|].
    split; [congruence|]. split.
    + intros j Hne. rewrite summarySettled_other by exact Hne.
      unfold st1. rewrite !getAudioContent_update_other by exact Hne. reflexivity.
    + intros Hc. unfold st1.
      rewrite (updateAudioContent_absent contentId _ st Hc). simpl.
      rewrite (updateAudioContent_absent contentId _ st Hc). simpl.
      apply summarySettled_absent. exact Hc.
  - set (u2 := [Set_transcriptionStatus (Some "error");
                Set_transcriptionText (Some (errorText (prefix ++ m)))]).
    destruct (updateAudioContent_maps contentId u2 st1) as [Hu2 [Hh2 [Hs2 Hk2]]].
    split; [congruence|]. split; [congruence|]. split; [congruence|].
    split; [congruence|]. split.
    + intros j Hne. unfold st1.
      rewrite !getAudioContent_update_other by exact Hne. reflexivity.
    + intros Hc. unfold st1.
      rewrite (updateAudioContent_absent contentId _ st Hc). simpl.
      rewrite (updateAudioContent_absent contentId _ st Hc). reflexivity.
Qed.

(** After a transcription that failed, the text of the record is the text
    of the error, and [POST /api/audio-content/:id/summary] takes it for a
    transcript: the summary is asked for the text of the error, the answer
    has the status 200, and what is returned is stored as the summary of the
    record, whose status stays [error].  The key points are asked for the
    text of the error as well. *)
Theorem summarize_after_failure (transcribeAudio : Transcriber)
    (generateSummary jobSummary : Summarizer) (contentId filePath : string)
    (st : MemStorage) (content : AudioContent) (prefix m : string)
    (summary_ : string) (keywords_ : list string) :
  getAudioContent contentId st = Some content ->
  transcribeAudio filePath (Some (fileName content)) = Gateway.Throws prefix m ->
  generateSummary (errorText (prefix ++ m)) = Gateway.Returns (summary_, keywords_) ->
  let st' := run transcribeAudio jobSummary contentId filePath st in
  exists updated,
    fst (summarize generateSummary contentId st') =
    mkResponse 200 None None None (JsonContent (Some updated)) /\
    getAudioContent contentId (snd (summarize generateSummary contentId st')) =
    Some updated /\
    transcriptionStatus updated = Some "error" /\
    transcriptionText updated = Some (errorText (prefix ++ m)) /\
    aiSummary updated = Some summary_ /\
    Schema.keywords updated = Some keywords_ /\
    (forall extractKeyPoints points,
       extractKeyPoints (errorText (prefix ++ m)) = Gateway.Returns points ->
       Handlers.keyPoints extractKeyPoints contentId st' = Handlers.KeyPoints points).
Proof.
  intros Hc Ht Hs. cbv zeta.
  rewrite (run_transcription_failed _ _ _ _ _ _ _ _ Hc Ht).
  set (st1 := snd (updateAudioContent contentId _ (snd (updateAudioContent contentId _ st)))).
  assert (Hget : getAudioContent contentId st1 =
                 Some (spread (spread content
                                 [Set_transcriptionStatus (Some "processing")])
                              [Set_transcriptionStatus (Some "error");
                               Set_transcriptionText (Some (errorText (prefix ++ m)))])).
  { unfold st1. do 2 apply getAudioContent_update_same. exact Hc. }
  unfold summarize, Handlers.keyPoints. rewrite Hget.
  assert (Htext : or_else (transcriptionText
                    (spread (spread content
                               [Set_transcriptionStatus (Some "processing")])
                            [Set_transcriptionStatus (Some "error");
                             Set_transcriptionText (Some (errorText (prefix ++ m)))]))
                    None = Some (errorText (prefix ++ m))).
  { destruct content. cbn. unfold errorText.
    destruct (JS.includes (prefix ++ m) "quota" || JS.includes (prefix ++ m) "429")%bool;
      reflexivity. }
  rewrite Htext, Hs.
  pose proof (getAudioContent_update_same contentId
                [Set_aiSummary (Some summary_); Set_keywords (Some keywords_)]
                st1 _ Hget) as Hafter.
  unfold updateAudioContent in *. unfold getAudioContent in Hget. rewrite Hget in *.
  eexists. split; [reflexivity|]. split; [exact Hafter|].
  do 4 (split; [destruct content; reflexivity|]).
  intros extractKeyPoints points Hp. rewrite Hp. reflexivity.
Qed.

(** [summarize_after_failure] at the record [a1], for a provider that is
    out of quota. *)
Lemma summarize_after_failure_example :
  let st' := run (Examples.transcription_rejected "429 Too Many Requests")
                 Examples.summary_rejected "a1" "uploads/f1" Examples.example_store in
  option_map aiSummary
    (getAudioContent "a1" (snd (summarize Examples.summarizes "a1" st'))) =
  Some (Some "A talk about birds") /\
  Handlers.keyPoints Samples.extracts "a1" st' = Handlers.KeyPoints ["birds migrate"].
Proof.
  destruct (summarize_after_failure
              (Examples.transcription_rejected "429 Too Many Requests")
              Examples.summarizes Examples.summary_rejected
              "a1" "uploads/f1" Examples.example_store _ _ _ _ _
              eq_refl eq_refl eq_refl)
    as [updated [_ [Hget [_ [_ [Hsum [_ Hpoints]]]]]]].
  cbv zeta. rewrite Hget. cbn [option_map]. rewrite Hsum.
  split; [reflexivity|]. apply Hpoints. reflexivity.
Defined.

(* ================================================================== *)
(** * What the server never does                                       *)
(* ================================================================== *)

(** What one event does to the store: the users and the segments are as
    before, and the records are as before, or one record is updated in
    properties that the server writes after the upload, or a record is
    added under a new identifier. *)
Lemma step_store (e : Event) (s s' : Server) :
  step e s = Some s' ->
  users (store s') = users (store s) /\
  transcriptSegments (store s') = transcriptSegments (store s) /\
  (audioContent (store s') = audioContent (store s) \/
   (exists i updates,
      audioContent (store s') =
      audioContent (snd (updateAudioContent i updates (store s))) /\
      forall p, In p updates ->
                p = Set_duration None \/
                In (key_of p) [K_transcriptionStatus; K_transcriptionText;
                               K_aiSummary; K_keywords; K_progress;
                               K_lastAccessedAt]) \/
   (exists uuid content,
      getAudioContent uuid (store s) = None /\
      audioContent (store s') = JS.Map.set uuid content (audioContent (store s)) /\
      id content = uuid /\ userId content = MOCK_USER_ID /\
      duration content = None)).
Proof.
  intros Hstep. destruct s as [st js].
  assert (Hupd : forall i updates,
             (forall p, In p updates ->
                p = Set_duration None \/
                In (key_of p) [K_transcriptionStatus; K_transcriptionText;
                               K_aiSummary; K_keywords; K_progress;
                               K_lastAccessedAt]) ->
             let st1 := snd (updateAudioContent i updates st) in
             users st1 = users st /\
             transcriptSegments st1 = transcriptSegments st /\
             (audioContent st1 = audioContent st \/
              (exists i updates,
                 audioContent st1 =
                 audioContent (snd (updateAudioContent i updates st)) /\
                 forall p, In p updates ->
                   p = Set_duration None \/
                   In (key_of p) [K_transcriptionStatus; K_transcriptionText;
                                  K_aiSummary; K_keywords; K_progress;
                                  K_lastAccessedAt]) \/
              (exists uuid content,
                 getAudioContent uuid st = None /\
                 audioContent st1 = JS.Map.set uuid content (audioContent st) /\
                 id content = uuid /\ userId content = MOCK_USER_ID /\
                 duration content = None))).
  { intros i updates Hb. cbv zeta.
    destruct (updateAudioContent_maps i updates st) as [Hu [_ [Hs _]]].
    split; [exact Hu|]. split; [exact Hs|].
    right. left. exists i, updates. split; [reflexivity | exact Hb]. }
  destruct e as [uuid now now' file title_ source_ | now contentId progress_
                | gs contentId | uuid now h | highlightId
                | contentId | contentId r | contentId r];
    simpl in Hstep.
  - (* Upload *)
    destruct (JS.Map.has uuid (audioContent st)) eqn:Hhas; [discriminate|].
    apply has_false in Hhas. unfold upload in Hstep.
    destruct file as [f|]; [|injection Hstep as <-; simpl; tauto].
    destruct (or_else title_ None) as [t|]; [|injection Hstep as <-; simpl; tauto].
    simpl in Hstep. injection Hstep as <-. simpl.
    split; [reflexivity|]. split; [reflexivity|].
    right. right. eexists. eexists. split; [exact Hhas|].
    split; [reflexivity|]. simpl. repeat split.
  - (* UpdateProgress *)
    injection Hstep as <-. simpl. rewrite updateProgress_store.
    apply Hupd. intros p [<- | [<- | []]]; right; simpl; tauto.
  - (* Summarize *)
    injection Hstep as <-. simpl.
    destruct (summarize_store gs contentId st) as [E | [s_ [k_ E]]]; rewrite E.
    + tauto.
    + apply Hupd. intros p [<- | [<- | []]]; right; simpl; tauto.
  - (* CreateHighlight *)
    injection Hstep as <-. simpl. tauto.
  - (* RemoveHighlight *)
    injection Hstep as <-. simpl.
    rewrite removeHighlight_audioContent.
    unfold removeHighlight, deleteHighlight, JS.Map.delete.
    destruct (JS.Map.has highlightId (highlights st)); simpl; tauto.
  - (* Start *)
    destruct (JS.Map.get contentId js) as [[fp | | t |]|]; try discriminate.
    injection Hstep as <-. simpl.
    apply Hupd. intros p [<- | []]; right; simpl; tauto.
  - (* TranscriptionSettled *)
    destruct (JS.Map.get contentId js) as [[fp | | t |]|]; try discriminate.
    destruct r as [text | prefix m]; simpl in Hstep; injection Hstep as <-; simpl.
    + apply Hupd. intros p [<- | [<- | [<- | []]]]; simpl; tauto.
    + apply Hupd. intros p [<- | [<- | []]]; right; simpl; tauto.
  - (* SummarySettled *)
    destruct (JS.Map.get contentId js) as [[fp | | t |]|]; try discriminate.
    injection Hstep as <-.
    destruct r as [[s_ k_] | prefix c]; simpl.
    + apply Hupd. intros p [<- | [<- | []]]; right; simpl; tauto.
    + tauto.
Qed.

(** An update of properties written after the upload keeps the others. *)
Lemma spread_keeps (c : AudioContent) (updates : PartialAudioContent) :
  (forall p, In p updates ->
             p = Set_duration None \/
             In (key_of p) [K_transcriptionStatus; K_transcriptionText;
                            K_aiSummary; K_keywords; K_progress;
                            K_lastAccessedAt]) ->
  (forall k, In k [K_id; K_userId; K_title; K_source; K_fileName; K_filePath;
                   K_fileSize; K_mimeType; K_createdAt] ->
             property k (spread c updates) = property k c) /\
  (duration c = None -> duration (spread c updates) = None).
Proof.
  unfold spread. revert c.
  induction updates as [|p updates IH]; intros c Hb; simpl; [tauto|].
  assert (Hb' : forall q, In q updates ->
                  q = Set_duration None \/
                  In (key_of q) [K_transcriptionStatus; K_transcriptionText;
                                 K_aiSummary; K_keywords; K_progress;
                                 K_lastAccessedAt])
    by (intros q Hq; apply Hb; right; exact Hq).
  destruct (IH (assign c p) Hb') as [Hk Hd].
  specialize (Hb p (or_introl eq_refl)).
  split.
  - intros k Hin. rewrite (Hk k Hin). apply property_assign_other.
    intros E. subst k. destruct Hb as [-> | Hb]; simpl in *;
      intuition congruence.
  - intros Hc. apply Hd. destruct Hb as [-> | Hb].
    + destruct c; reflexivity.
    + destruct c, p; simpl in *; try exact Hc; intuition congruence.
Qed.

(** From one state of the server to a later one, a record stays in the
    store under its identifier, with the identifier, the user, the title,
    the source, the name, the path, the size and the type of the file and
    the time of creation it had: no event deletes a record, and no event
    writes these properties. *)
Theorem records_persist (es : list Event) (s s' : Server) (i : string)
    (c : AudioContent) :
  steps es s = Some s' ->
  getAudioContent i (store s) = Some c ->
  exists c',
    getAudioContent i (store s') = Some c' /\
    forall k, In k [K_id; K_userId; K_title; K_source; K_fileName; K_filePath;
                    K_fileSize; K_mimeType; K_createdAt] ->
              property k c' = property k c.
Proof.
  revert s c. induction es as [|e es IH]; intros s c Hsteps Hc; simpl in Hsteps.
  - injection Hsteps as <-. exists c. split; [exact Hc | reflexivity].
  - destruct (step e s) as [s1|] eqn:He; [|discriminate].
    assert (H1 : exists c1,
               getAudioContent i (store s1) = Some c1 /\
               forall k, In k [K_id; K_userId; K_title; K_source; K_fileName;
                               K_filePath; K_fileSize; K_mimeType; K_createdAt] ->
                         property k c1 = property k c).
    { destruct (step_store e s s1 He)
        as [_ [_ [Hsame | [[j [updates [Hm Hb]]] | [uuid [content [Hfresh [Hm _]]]]]]]].
      - exists c. unfold getAudioContent in *. rewrite Hsame. split; [exact Hc | reflexivity].
      - assert (Hg : getAudioContent i (store s1) =
                     getAudioContent i (snd (updateAudioContent j updates (store s))))
          by (unfold getAudioContent; rewrite Hm; reflexivity).
        rewrite getAudioContent_update in Hg.
        destruct (String.eqb_spec i j) as [E | Hne].
        + subst j. rewrite Hc in Hg. simpl in Hg.
          exists (spread c updates). split; [exact Hg|].
          apply spread_keeps. exact Hb.
        + exists c. split; [congruence | reflexivity].
      - exists c. split; [|reflexivity].
        unfold getAudioContent in *. rewrite Hm. rewrite get_set_other; [exact Hc|].
        intros E. subst uuid. congruence. }
    destruct H1 as [c1 [Hc1 Hk1]].
    destruct (IH s1 c1 Hsteps Hc1) as [c' [Hc' Hk']].
    exists c'. split; [exact Hc'|].
    intros k Hin. rewrite (Hk' k Hin). apply Hk1. exact Hin.
Qed.

(** [records_persist] at the upload and the events that follow it. *)
Lemma records_persist_example :
  exists s s',
    steps [Examples.upload_a1] initial = Some s /\
    steps (tl Examples.events_to_completed ++ Examples.events_after_completed) s =
    Some s' /\
    option_map title (getAudioContent "a1" (store s')) = Some "Lecture 1".
Proof.
  destruct (steps [Examples.upload_a1] initial) as [s|] eqn:Hs; [|discriminate Hs].
  destruct (steps (tl Examples.events_to_completed ++ Examples.events_after_completed) s)
    as [s'|] eqn:Hs'.
  - exists s, s'. split; [reflexivity|]. split; [exact Hs'|].
    assert (Hc : getAudioContent "a1" (store s) =
                 option_map fst (Some (createAudioContent "a1" 1000 1000
                   (mkInsertAudioContent MOCK_USER_ID "Lecture 1" None "talk.mp3"
                      "uploads/f1" None (Some 10) (Some "audio/mpeg")) empty)))
      by (injection Hs as <-; reflexivity).
    destruct (records_persist _ _ _ "a1" _ Hs' Hc) as [c' [Hc' Hk]].
    rewrite Hc'. simpl. pose proof (Hk K_title) as E. simpl in E.
    f_equal. injection E; [trivial | tauto].
  - injection Hs as <-. discriminate Hs'.
Defined.

(** In every state that the server reaches from its start, no segment
    of a transcript and no user is stored, and every record is stored under
    its own identifier, belongs to the one user of the routes and has no
    duration: the transcript of every audio item is the empty list, the
    library lists every record, and shows [Unknown] for its duration. *)
Theorem reachable_records (es : list Event) (s : Server) :
  steps es initial = Some s ->
  users (store s) = JS.Map.empty /\
  (forall i, Handlers.transcript i (store s) = Handlers.Segments []) /\
  (forall i c,
     getAudioContent i (store s) = Some c ->
     id c = i /\ userId c = MOCK_USER_ID /\ duration c = None /\
     Client.formatDuration (Client.durationOrZero (duration c)) = "Unknown" /\
     exists contents,
       Handlers.getAll (store s) = Handlers.Contents contents /\ In c contents).
Proof.
  intros Hreach.
  assert (Hinv : users (store s) = JS.Map.empty /\
                 transcriptSegments (store s) = JS.Map.empty /\
                 forall i c, getAudioContent i (store s) = Some c ->
                             id c = i /\ userId c = MOCK_USER_ID /\ duration c = None).
  { assert (Hgen : forall s0,
               (users (store s0) = JS.Map.empty /\
                transcriptSegments (store s0) = JS.Map.empty /\
                forall i c, getAudioContent i (store s0) = Some c ->
                            id c = i /\ userId c = MOCK_USER_ID /\ duration c = None) ->
               steps es s0 = Some s ->
               users (store s) = JS.Map.empty /\
               transcriptSegments (store s) = JS.Map.empty /\
               forall i c, getAudioContent i (store s) = Some c ->
                           id c = i /\ userId c = MOCK_USER_ID /\ duration c = None).
    { clear Hreach. induction es as [|e es IH]; intros s0 H0 Hsteps; simpl in Hsteps.
      - injection Hsteps as <-. exact H0.
      - destruct (step e s0) as [s1|] eqn:He; [|discriminate].
        apply (IH s1); [|exact Hsteps].
        destruct H0 as [Hu0 [Hs0 Hr0]].
        destruct (step_store e s0 s1 He) as [Hu [Hs Hcases]].
        split; [congruence|]. split; [congruence|].
        intros i c Hc.
        destruct Hcases
          as [Hsame | [[j [updates [Hm Hb]]] | [uuid [content [Hfresh [Hm Hnew]]]]]].
        + apply Hr0. unfold getAudioContent in *. rewrite <- Hsame. exact Hc.
        + assert (Hg : getAudioContent i (store s1) =
                       getAudioContent i (snd (updateAudioContent j updates (store s0))))
            by (unfold getAudioContent; rewrite Hm; reflexivity).
          rewrite Hc, getAudioContent_update in Hg.
          destruct (String.eqb_spec i j) as [E | Hne].
          * subst j. destruct (getAudioContent i (store s0)) as [c0|] eqn:Hc0;
              [|discriminate]. simpl in Hg. injection Hg as ->.
            destruct (Hr0 i c0 Hc0) as [Hid [Huser Hdur]].
            destruct (spread_keeps c0 updates Hb) as [Hk Hd].
            pose proof (Hk K_id) as Ei. pose proof (Hk K_userId) as Eu. simpl in Ei, Eu.
            split; [|split]; [| |apply Hd; exact Hdur].
            -- assert (V_string (id (spread c0 updates)) = V_string (id c0)) as E
                 by (apply Ei; tauto). congruence.
            -- assert (V_string (userId (spread c0 updates)) = V_string (userId c0)) as E
                 by (apply Eu; tauto). congruence.
          * apply Hr0. symmetry. exact Hg.
        + unfold getAudioContent in Hc. rewrite Hm, get_set in Hc.
          destruct (String.eqb_spec i uuid) as [E | Hne].
          * injection Hc as <-. subst i. exact Hnew.
          * apply Hr0. exact Hc. }
    apply (Hgen initial); [|exact Hreach].
    split; [reflexivity|]. split; [reflexivity|]. intros i c Hc. discriminate Hc. }
  destruct Hinv as [Hu [Hs Hr]].
  split; [exact Hu|]. split.
  - intros i. unfold Handlers.transcript, getTranscriptSegments. rewrite Hs. reflexivity.
  - intros i c Hc. destruct (Hr i c Hc) as [Hid [Huser Hdur]].
    split; [exact Hid|]. split; [exact Huser|]. split; [exact Hdur|].
    split; [rewrite Hdur; reflexivity|].
    eexists. split; [reflexivity|].
    unfold getAudioContentByUser. apply In_sort. apply filter_In.
    split; [eapply get_In; exact Hc|].
    rewrite Huser. apply String.eqb_refl.
Qed.

(** [reachable_records] at the upload whose job reaches [completed]. *)
Lemma reachable_records_example :
  exists s,
    steps Examples.events_to_completed initial = Some s /\
    option_map duration (getAudioContent "a1" (store s)) = Some None.
Proof.
  destruct (steps Examples.events_to_completed initial) as [s|] eqn:Hs;
    [|discriminate Hs].
  exists s. split; [reflexivity|].
  destruct (reachable_records _ s Hs) as [_ [_ Hr]].
  destruct (getAudioContent "a1" (store s)) as [c|] eqn:Hc.
  - destruct (Hr "a1" c Hc) as [_ [_ [Hd _]]]. simpl. rewrite Hd. reflexivity.
  - exfalso. injection Hs as <-. discriminate Hc.
Defined.

(* ================================================================== *)
(** * More of the routes                                               *)
(* ================================================================== *)

Lemma byte_range_from_not_empty (first : Z) : Spec.byte_range_from first <> "".
Proof. unfold Spec.byte_range_from. discriminate. Qed.

(** A request for the bytes from [first] on, [Range: bytes=first-], for
    a record that exists and whose file is there: when [first] is inside
    the file, the answer is 206 with the rest of the file from [first], and
    [Content-Length] is the number of bytes sent; when [first] is at or
    after the end of the file, as it is for every [first] on an empty file,
    the answer is 500. *)
Theorem serveAudio_from (files : FileSystem) (st : MemStorage)
    (i : string) (content : AudioContent) (data : list Byte.byte) (first : Z) :
  getAudioContent i st = Some content ->
  files (filePath content) = Some data ->
  0 <= first ->
  Z.of_nat (List.length data) <= JS.MAX_SAFE_INTEGER ->
  let fileSize := Z.of_nat (List.length data) in
  (first < fileSize ->
   serveAudio files st i (Some (Spec.byte_range_from first)) =
   mkResponse 206
     (Some ("bytes " ++ JS.toString first ++ "-" ++ JS.toString (fileSize - 1) ++ "/"
                    ++ JS.toString fileSize))
     (Some "bytes") (Some (Some (fileSize - first)))
     (Stream (skipn (Z.to_nat first) data)) /\
   Z.of_nat (List.length (skipn (Z.to_nat first) data)) = fileSize - first) /\
  (fileSize <= first ->
   serveAudio files st i (Some (Spec.byte_range_from first)) =
   json 500 "Failed to serve audio file").
Proof.
  intros Hc Hf H0 Hmax. cbv zeta.
  destruct (byte_range_read first 0 (Z.of_nat (List.length data)) H0 (Z.le_refl 0))
    as [_ [_ [Hs He]]].
  rewrite (serveAudio_numbers files st i content data _ _ _ Hc Hf
             (byte_range_from_not_empty first) Hs He).
  split.
  - intros Hlt.
    repeat match goal with
           | |- context [?a <=? ?b] => destruct (Z.leb_spec a b); [|lia]
           end.
    cbn [andb].
    assert (Hw : window data first (Z.of_nat (List.length data) - 1) =
                 skipn (Z.to_nat first) data).
    { unfold window. apply firstn_all2. rewrite length_skipn. lia. }
    rewrite Hw.
    replace (Z.of_nat (List.length data) - 1 - first + 1)
      with (Z.of_nat (List.length data) - first) by lia.
    split; [reflexivity|]. rewrite length_skipn. lia.
  - intros Hge.
    destruct (Z.leb_spec first (Z.of_nat (List.length data) - 1)); [lia|].
    rewrite andb_false_r. reflexivity.
Qed.

(** [serveAudio_from] at a file of ten bytes and at an empty file. *)
Lemma serveAudio_from_example :
  status (serveAudio (Examples.example_files 10) Examples.example_store "a1"
                     (Some "bytes=4-")) = 206 /\
  contentLength (serveAudio (Examples.example_files 10) Examples.example_store "a1"
                            (Some "bytes=4-")) = Some (Some 6) /\
  status (serveAudio (Examples.example_files 0) Examples.example_store "a1"
                     (Some "bytes=0-")) = 500.
Proof.
  assert (Hmax : forall n, (n <= 10)%nat ->
                   Z.of_nat (List.length (repeat Byte.x00 n)) <= JS.MAX_SAFE_INTEGER)
    by (intros n Hn; rewrite repeat_length; unfold JS.MAX_SAFE_INTEGER; lia).
  destruct (serveAudio_from (Examples.example_files 10) Examples.example_store "a1"
              _ _ 4 eq_refl eq_refl ltac:(lia) (Hmax 10%nat ltac:(lia))) as [H10 _].
  destruct (serveAudio_from (Examples.example_files 0) Examples.example_store "a1"
              _ _ 0 eq_refl eq_refl ltac:(lia) (Hmax 0%nat ltac:(lia))) as [_ H0].
  destruct H10 as [H10 _]; [simpl; lia|].
  change (Spec.byte_range_from 4) with "bytes=4-" in H10.
  change (Spec.byte_range_from 0) with "bytes=0-" in H0.
  rewrite H10, H0; [|simpl; lia]. repeat split.
Defined.

Lemma window_part (data : list Byte.byte) (s e : Z) :
  exists pre post, data = (pre ++ window data s e ++ post)%list.
Proof.
  unfold window.
  exists (firstn (Z.to_nat s) data),
         (skipn (Z.to_nat (e - s + 1)) (skipn (Z.to_nat s) data)).
  rewrite firstn_skipn, firstn_skipn. reflexivity.
Qed.

(** What [GET /api/audio/:id] answers, with or without a [Range]: the
    status is 200, 206, 404 or 500; it is 404 when there is no record or
    the file of the record is not there, and then only; it is 200 when the
    record and the file are there and the request has no [Range], or an
    empty one, and then only.  The bytes sent are always a part of the file
    of the record, in one piece, and never more than [Content-Length]
    says. *)
Theorem serveAudio_answers (files : FileSystem) (st : MemStorage) (i : string)
    (range : option string) :
  let r := serveAudio files st i range in
  In (status r) [200; 206; 404; 500] /\
  (status r = 404 <->
   getAudioContent i st = None \/
   exists content, getAudioContent i st = Some content /\
                   files (filePath content) = None) /\
  (status r = 200 <->
   (range = None \/ range = Some "") /\
   exists content data, getAudioContent i st = Some content /\
                        files (filePath content) = Some data) /\
  (forall bytes,
     body r = Stream bytes ->
     exists content data pre post n,
       getAudioContent i st = Some content /\
       files (filePath content) = Some data /\
       data = (pre ++ bytes ++ post)%list /\
       contentLength r = Some (Some n) /\
       Z.of_nat (List.length bytes) <= n).
Proof.
  cbv zeta. unfold serveAudio.
  destruct (getAudioContent i st) as [content|] eqn:Hc.
  2:{ simpl. split; [tauto|]. split; [tauto|]. split.
      - split; [discriminate|]. intros [_ [c [d [H _]]]]. discriminate H.
      - intros bytes H. discriminate H. }
  destruct (files (filePath content)) as [data|] eqn:Hf.
  2:{ simpl. split; [tauto|]. split.
      - split; [|reflexivity]. intros _. right. exists content. split; [reflexivity | exact Hf].
      - split.
        + split; [discriminate|]. intros [_ [c [d [H1 H2]]]].
          injection H1 as <-. congruence.
        + intros bytes H. discriminate H. }
  assert (Hnot404 : ~ (Some content = None \/
                       exists c, Some content = Some c /\ files (filePath c) = None)).
  { intros [H | [c [H1 H2]]]; [discriminate|]. injection H1 as <-. congruence. }
  assert (Hwhole : forall range0 : option string,
             range0 = None \/ range0 = Some "" ->
             let r := mkResponse 200 None (Some "bytes")
                        (Some (Some (Z.of_nat (List.length data)))) (Stream data) in
             In (status r) [200; 206; 404; 500] /\
             (status r = 404 <->
              Some content = None \/
              exists c, Some content = Some c /\ files (filePath c) = None) /\
             (status r = 200 <->
              (range0 = None \/ range0 = Some "") /\
              exists c d, Some content = Some c /\ files (filePath c) = Some d) /\
             (forall bytes,
                body r = Stream bytes ->
                exists c d pre post n,
                  Some content = Some c /\ files (filePath c) = Some d /\
                  d = (pre ++ bytes ++ post)%list /\
                  contentLength r = Some (Some n) /\
                  Z.of_nat (List.length bytes) <= n)).
  { intros range0 Hr. simpl. split; [tauto|]. split.
    - split; [discriminate | intros H; exfalso; exact (Hnot404 H)].
    - split.
      + split; [|reflexivity]. intros _. split; [exact Hr|].
        exists content, data. split; [reflexivity | exact Hf].
      + intros bytes H. injection H as <-.
        exists content, data, [], [], (Z.of_nat (List.length data)).
        split; [reflexivity|]. split; [exact Hf|].
        split; [simpl; rewrite app_nil_r; reflexivity|].
        split; [reflexivity | lia]. }
  destruct range as [[|c range]|];
    [apply (Hwhole (Some "")); tauto | | apply (Hwhole None); tauto].
  unfold createReadStream.
  destruct (rangeStart (String c range)) as [s|];
    [|simpl; split; [tauto|]; split;
      [split; [discriminate | intros H; exfalso; exact (Hnot404 H)]|]; split;
      [split; [discriminate | intros [[H | H] _]; discriminate H]
      | intros bytes H; discriminate H]].
  destruct (rangeEnd (String c range) (Z.of_nat (List.length data))) as [e|];
    [|simpl; split; [tauto|]; split;
      [split; [discriminate | intros H; exfalso; exact (Hnot404 H)]|]; split;
      [split; [discriminate | intros [[H | H] _]; discriminate H]
      | intros bytes H; discriminate H]].
  destruct (validPosition (Some s) && validPosition (Some e) && (s <=? e))%bool eqn:Hv;
    [|simpl; split; [tauto|]; split;
      [split; [discriminate | intros H; exfalso; exact (Hnot404 H)]|]; split;
      [split; [discriminate | intros [[H | H] _]; discriminate H]
      | intros bytes H; discriminate H]].
  simpl. split; [tauto|]. split;
    [split; [discriminate | intros H; exfalso; exact (Hnot404 H)]|].
  split; [split; [discriminate | intros [[H | H] _]; discriminate H]|].
  intros bytes H. injection H as <-.
  destruct (window_part data s e) as [pre [post Hd]].
  exists content, data, pre, post, (e - s + 1).
  split; [reflexivity|]. split; [exact Hf|]. split; [exact Hd|].
  split; [reflexivity|].
  apply andb_true_iff in Hv. destruct Hv as [_ Hse]. apply Z.leb_le in Hse.
  unfold window. rewrite length_firstn. lia.
Qed.

Lemma toLowerCase_truthy (p q : string) :
  JS.toLowerCase p = JS.toLowerCase q -> JS.truthy_string q = true ->
  JS.truthy_string p = true.
Proof. destruct p, q; simpl; intros H Hq; try discriminate; reflexivity. Qed.

(** The route [GET /api/audio-content/search] is added after
    [GET /api/audio-content/:id], which takes every path that it takes:
    no request is answered by the search handler; a request for the search
    is answered by the handler of one record, with [search], in the case
    of letters it was written in, as the identifier, and so with 404 when
    no record has that identifier.  Every other handler answers some
    request. *)
Theorem search_route_shadowed :
  (forall m path params,
     Handlers.dispatch m path <> Some (Handlers.H_search, params)) /\
  (forall m path,
     Handlers.method_eqb Handlers.GET m = true ->
     Handlers.takes [Handlers.Lit "api"; Handlers.Lit "audio-content";
                     Handlers.Lit "search"] (Handlers.pieces path) <> None ->
     exists i,
       Handlers.dispatch m path = Some (Handlers.H_getOne, [i]) /\
       Spec.same_ci i "search" /\
       forall st, getAudioContent i st = None ->
                  Handlers.getOne i st = Handlers.Message 404 "Audio content not found") /\
  (forall h, h <> Handlers.H_search ->
             exists m path params, Handlers.dispatch m path = Some (h, params)).
Proof.
  assert (Hshadow : forall l ps,
            Handlers.takes [Handlers.Lit "api"; Handlers.Lit "audio-content";
                            Handlers.Lit "search"] l = Some ps ->
            exists i,
              Handlers.takes [Handlers.Lit "api"; Handlers.Lit "audio-content";
                              Handlers.Param] l = Some [i] /\
              Handlers.takes [Handlers.Lit "api"; Handlers.Lit "audio-content"] l = None /\
              Spec.same_ci i "search").
  { intros l ps H.
    destruct l as [|p1 l]; cbn [Handlers.takes] in H; [discriminate|].
    destruct (String.eqb (JS.toLowerCase "api") (JS.toLowerCase p1)) eqn:E1;
      [|discriminate].
    destruct l as [|p2 l]; cbn [Handlers.takes] in H; [discriminate|].
    destruct (String.eqb (JS.toLowerCase "audio-content") (JS.toLowerCase p2)) eqn:E2;
      [|discriminate].
    destruct l as [|p3 l]; cbn [Handlers.takes] in H; [discriminate|].
    destruct (String.eqb_spec (JS.toLowerCase "search") (JS.toLowerCase p3)) as [E3 | _];
      [|discriminate].
    destruct l as [|p4 l]; cbn [Handlers.takes] in H; [|discriminate].
    exists p3. cbn [Handlers.takes]. rewrite E1, E2.
    rewrite (toLowerCase_truthy p3 "search") by (symmetry; assumption || reflexivity).
    split; [reflexivity|]. split; [reflexivity|]. symmetry. exact E3. }
  split; [|split].
  - intros m path params. unfold Handlers.dispatch.
    generalize (Handlers.pieces path). intros l H.
    unfold Handlers.routes in H. cbn [Handlers.first_route] in H.
    destruct (Handlers.takes [Handlers.Lit "api"; Handlers.Lit "audio-content";
                              Handlers.Lit "search"] l) as [ps|] eqn:Hs.
    + destruct (Hshadow l ps Hs) as [i [H1 [H0 _]]]. rewrite H1, H0 in H.
      destruct m; cbn [Handlers.method_eqb] in H;
        repeat match type of H with
               | context [Handlers.takes ?r l] =>
                   destruct (Handlers.takes r l); try discriminate
               end; try discriminate.
    + destruct m; cbn [Handlers.method_eqb] in H;
        repeat match type of H with
               | context [Handlers.takes ?r l] =>
                   destruct (Handlers.takes r l); try discriminate
               end; discriminate.
  - intros m path Hm Ht. unfold Handlers.dispatch.
    destruct (Handlers.takes _ (Handlers.pieces path)) as [ps|] eqn:Hs; [|congruence].
    destruct (Hshadow _ ps Hs) as [i [H1 [H0 Hi]]].
    exists i. split; [|split; [exact Hi|]].
    + unfold Handlers.routes. cbn [Handlers.first_route]. rewrite Hm, H0, H1. reflexivity.
    + intros st Hnone. unfold Handlers.getOne. rewrite Hnone. reflexivity.
  - intros h Hh. destruct h; try congruence.
    + exists Handlers.GET, "/api/audio-content", []. reflexivity.
    + exists Handlers.GET, "/api/audio-content/a1", ["a1"]. reflexivity.
    + exists Handlers.GET, "/api/audio/a1", ["a1"]. reflexivity.
    + exists Handlers.POST, "/api/audio-content/upload", []. reflexivity.
    + exists Handlers.PATCH, "/api/audio-content/a1/progress", ["a1"]. reflexivity.
    + exists Handlers.GET, "/api/audio-content/a1/transcript", ["a1"]. reflexivity.
    + exists Handlers.GET, "/api/audio-content/a1/highlights", ["a1"]. reflexivity.
    + exists Handlers.POST, "/api/highlights", []. reflexivity.
    + exists Handlers.DELETE, "/api/highlights/h1", ["h1"]. reflexivity.
    + exists Handlers.POST, "/api/audio-content/a1/summary", ["a1"]. reflexivity.
    + exists Handlers.POST, "/api/audio-content/a1/key-points", ["a1"]. reflexivity.
Qed.

(** [POST /api/highlights] stores the highlight for the one user of the
    routes, whatever user the body names, and does not look for the audio
    item the highlight is for: the highlight is made, and listed for that
    item, also when the store has no such item.  [DELETE] on the new
    identifier then gives back the store as it was, with the status 200,
    and on the store before it answers 404. *)
Theorem addHighlight_then_remove (uuid : string) (now : Z)
    (validatedData : InsertHighlight) (st : MemStorage) :
  getHighlight uuid st = None ->
  let st' := snd (Handlers.addHighlight uuid now validatedData st) in
  exists highlight,
    fst (Handlers.addHighlight uuid now validatedData st) = Handlers.Created highlight /\
    hl_id highlight = uuid /\
    hl_userId highlight = MOCK_USER_ID /\
    (exists listed,
       Handlers.highlightsOf (ih_audioContentId validatedData) st' =
       Handlers.Highlights listed /\ In highlight listed) /\
    audioContent st' = audioContent st /\
    removeHighlight uuid st' = (json 200 "Highlight deleted successfully", st) /\
    removeHighlight uuid st = (json 404 "Highlight not found", st).
Proof.
  intros Hfresh. cbv zeta. unfold Handlers.addHighlight, createHighlight.
  cbn [fst snd ih_audioContentId ih_userId ih_text ih_startTime ih_endTime
       ih_color ih_note].
  eexists. split; [reflexivity|].
  split; [reflexivity|]. split; [reflexivity|]. split; [|split; [reflexivity|]].
  - eexists. split; [reflexivity|].
    unfold getHighlightsByAudioContent. apply In_sort. apply filter_In. split.
    + apply (get_In _ uuid). cbn [highlights with_highlights]. apply get_set_same.
    + cbn [hl_audioContentId]. apply String.eqb_refl.
  - unfold getHighlight in Hfresh.
    unfold removeHighlight, deleteHighlight, JS.Map.delete, JS.Map.has.
    cbn [highlights with_highlights].
    rewrite get_set_same, Hfresh, remove_set_absent by exact Hfresh.
    rewrite remove_absent by exact Hfresh.
    split; (f_equal; destruct st; reflexivity).
Qed.

(** [addHighlight_then_remove] for a highlight of an audio item that the
    store does not have. *)
Lemma addHighlight_then_remove_example :
  let v := mkInsertHighlight "no-such-item" "someone" "birds migrate" 3 8 None None in
  getAudioContent "no-such-item" Examples.example_store = None /\
  fst (removeHighlight "h1"
         (snd (Handlers.addHighlight "h1" 1 v Examples.example_store))) =
  json 200 "Highlight deleted successfully".
Proof.
  cbv zeta. split; [reflexivity|].
  destruct (addHighlight_then_remove "h1" 1
              (mkInsertHighlight "no-such-item" "someone" "birds migrate" 3 8 None None)
              Examples.example_store eq_refl)
    as [h [_ [_ [_ [_ [_ [H _]]]]]]].
  rewrite H. reflexivity.
Defined.

(* ================================================================== *)
(** * The client                                                       *)
(* ================================================================== *)












